(** * trlc-platform: compile-time platform classification, verified

    A shallow embedding of the classifiers of [include/trlc/platform]
    (compiler.hpp, cpp_standard.hpp, architecture.hpp, endianness.hpp,
    features.hpp, core.hpp) together with the properties the specification
    states about them.

    The classifiers are C++ [constexpr] functions whose only input is the set
    of predefined macros of the translation unit.  The embedding makes that
    input explicit: every classifier takes the macro table as an argument,
    and a preprocessor conditional becomes an [if] on that table. *)

From Stdlib Require Import ZArith Bool Lia Ascii.
From stdpp Require Import base option list strings gmap.

Local Open Scope string_scope.
Local Open Scope Z_scope.

(** ** The preprocessor environment *)

(** The macro table: the predefined (or command line) macros of the build,
    each with the integer its replacement list evaluates to. *)
Abbreviation Env := (gmap string Z).

(** [defined(X)] of a preprocessor conditional. *)
Definition defined (e : Env) (m : string) : bool :=
  match e !! m with
  | Some _ => true
  | None => false
  end.

(** The value of an identifier inside [#if]: an identifier that is not a
    macro is replaced by 0. *)
Definition pp_value (e : Env) (m : string) : Z :=
  match e !! m with
  | Some v => v
  | None => 0
  end.

(** [s[i]] of a null-terminated string: the terminator sits at the index
    of the length.  The code compares with short-circuit conjunctions
    against non-null characters, so no index past the terminator is ever
    read. *)
Definition char_at (s : string) (i : nat) : ascii :=
  match String.get i s with
  | Some c => c
  | None => Ascii.zero
  end.

(** ** Fixed-width integers *)

(** Conversion to a [w]-bit unsigned integer. *)
Definition to_unsigned (w : Z) (z : Z) : Z := z mod 2 ^ w.

(** Conversion to a [w]-bit two's complement integer. *)
Definition to_signed (w : Z) (z : Z) : Z :=
  (z + 2 ^ (w - 1)) mod 2 ^ w - 2 ^ (w - 1).

(** [int] is 32 bits wide on every toolchain the library detects. *)
Definition to_int (z : Z) : Z := to_signed 32 z.
Definition INT_MIN : Z := - 2 ^ 31.
Definition INT_MAX : Z := 2 ^ 31 - 1.

(** ** compiler.hpp *)

Module compiler.

Inductive CompilerType : Set :=
| unknown
| gcc
| clang
| msvc
| intel_classic
| intel_llvm
| mingw.

Record CompilerVersion : Set := mkCompilerVersion {
  major : Z;
  minor : Z;
  patch : Z
}.

(** The three-argument constructor: its parameters are [int]s, so the
    arguments are converted on the way in. *)
Definition CompilerVersion_ctor (maj min pat : Z) : CompilerVersion :=
  {| major := to_int maj; minor := to_int min; patch := to_int pat |}.

(** [operator>=] *)
Definition ge (a other : CompilerVersion) : bool :=
  if negb (major a =? major other) then major other <? major a
  else if negb (minor a =? minor other) then minor other <? minor a
  else patch other <=? patch a.

(** [operator<] *)
Definition lt (a other : CompilerVersion) : bool :=
  if negb (major a =? major other) then major a <? major other
  else if negb (minor a =? minor other) then minor a <? minor other
  else patch a <? patch other.

(** [operator==] *)
Definition eq (a other : CompilerVersion) : bool :=
  (major a =? major other) && (minor a =? minor other) && (patch a =? patch other).

(** [operator!=] *)
Definition ne (a other : CompilerVersion) : bool := negb (eq a other).

(** [operator>] *)
Definition gt (a other : CompilerVersion) : bool :=
  negb (lt a other) && negb (eq a other).

(** [operator<=] *)
Definition le (a other : CompilerVersion) : bool :=
  lt a other || eq a other.

Definition getCompilerType (e : Env) : CompilerType :=
  if defined e "__INTEL_COMPILER" || defined e "__ICL" || defined e "__ICC" then
    if defined e "__clang__" then intel_llvm else intel_classic
  else if defined e "__clang__" then clang
  else if defined e "__GNUC__" then
    if defined e "__MINGW32__" || defined e "__MINGW64__" then mingw else gcc
  else if defined e "_MSC_VER" then msvc
  else unknown.

(** Integer division and remainder are C's: truncation towards zero. *)
Definition getCompilerVersion (e : Env) : CompilerVersion :=
  if defined e "__INTEL_COMPILER" then
    let v := pp_value e "__INTEL_COMPILER" in
    CompilerVersion_ctor (v ÷ 100) (Z.rem v 100 ÷ 10) (Z.rem v 10)
  else if defined e "__clang__" then
    CompilerVersion_ctor (pp_value e "__clang_major__")
                         (pp_value e "__clang_minor__")
                         (pp_value e "__clang_patchlevel__")
  else if defined e "__GNUC__" then
    if defined e "__GNUC_PATCHLEVEL__" then
      CompilerVersion_ctor (pp_value e "__GNUC__")
                           (pp_value e "__GNUC_MINOR__")
                           (pp_value e "__GNUC_PATCHLEVEL__")
    else
      CompilerVersion_ctor (pp_value e "__GNUC__") (pp_value e "__GNUC_MINOR__") 0
  else if defined e "_MSC_VER" then
    let m := pp_value e "_MSC_VER" in
    if 1940 <=? m then CompilerVersion_ctor 19 4 (m - 1940)
    else if 1930 <=? m then CompilerVersion_ctor 19 3 (m - 1930)
    else if 1920 <=? m then CompilerVersion_ctor 19 2 (m - 1920)
    else if 1910 <=? m then CompilerVersion_ctor 19 1 (m - 1910)
    else if 1900 <=? m then CompilerVersion_ctor 19 0 (m - 1900)
    else CompilerVersion_ctor (m ÷ 100) (Z.rem m 100 ÷ 10) (Z.rem m 10)
  else
    CompilerVersion_ctor 0 0 0.

(** The enumerators' values in the underlying type [int]. *)
Definition CompilerType_to_int (t : CompilerType) : Z :=
  match t with
  | unknown => 0
  | gcc => 1
  | clang => 2
  | msvc => 3
  | intel_classic => 4
  | intel_llvm => 5
  | mingw => 6
  end.

Definition CompilerType_eqb (a b : CompilerType) : bool :=
  CompilerType_to_int a =? CompilerType_to_int b.

Definition getCompilerName (e : Env) : string :=
  match getCompilerType e with
  | gcc => "gcc"
  | clang => "clang"
  | msvc => "msvc"
  | intel_classic => "intel_classic"
  | intel_llvm => "intel_llvm"
  | mingw => "mingw"
  | unknown => "unknown"
  end.

(** The attribute name is not looked at. *)
Definition hasBuiltinAttribute (e : Env) (attribute_name : string) : bool :=
  let compiler := getCompilerType e in
  CompilerType_eqb compiler gcc || CompilerType_eqb compiler clang
  || CompilerType_eqb compiler mingw || CompilerType_eqb compiler intel_llvm.

Definition supportsInlineAssembly (e : Env) : bool :=
  let compiler := getCompilerType e in
  CompilerType_eqb compiler gcc || CompilerType_eqb compiler clang
  || CompilerType_eqb compiler mingw || CompilerType_eqb compiler intel_classic
  || CompilerType_eqb compiler intel_llvm.

Definition hasColorDiagnostics (e : Env) : bool :=
  let compiler := getCompilerType e in
  CompilerType_eqb compiler gcc || CompilerType_eqb compiler clang
  || CompilerType_eqb compiler mingw || CompilerType_eqb compiler intel_llvm.

Record CompilerInfo : Set := mkCompilerInfo {
  type : CompilerType;
  version : CompilerVersion;
  name : string;
  has_builtin_attribute : bool;
  has_inline_assembly : bool;
  has_color_diagnostics : bool
}.

Definition isAtLeast (info : CompilerInfo) (min_version : CompilerVersion) : bool :=
  ge (version info) min_version.

Definition isGccCompatible (info : CompilerInfo) : bool :=
  CompilerType_eqb (type info) gcc || CompilerType_eqb (type info) mingw
  || CompilerType_eqb (type info) intel_classic.

Definition isClangCompatible (info : CompilerInfo) : bool :=
  CompilerType_eqb (type info) clang || CompilerType_eqb (type info) intel_llvm.

Definition getCompilerInfo (e : Env) : CompilerInfo :=
  {| type := getCompilerType e;
     version := getCompilerVersion e;
     name := getCompilerName e;
     has_builtin_attribute := hasBuiltinAttribute e "";
     has_inline_assembly := supportsInlineAssembly e;
     has_color_diagnostics := hasColorDiagnostics e |}.

(** The convenience macros at the end of the header.  Each is defined to
    1 or 0 by its own preprocessor conditional. *)
Definition TRLC_COMPILER_GCC (e : Env) : Z :=
  if defined e "__INTEL_COMPILER" || defined e "__ICL" || defined e "__ICC" then 0
  else if defined e "__clang__" then 0
  else if defined e "__GNUC__" then
    if defined e "__MINGW32__" || defined e "__MINGW64__" then 0 else 1
  else 0.

Definition TRLC_COMPILER_CLANG (e : Env) : Z :=
  if defined e "__INTEL_COMPILER" || defined e "__ICL" || defined e "__ICC" then
    if defined e "__clang__" then 0 else 0
  else if defined e "__clang__" then 1
  else 0.

Definition TRLC_COMPILER_MSVC (e : Env) : Z :=
  if defined e "_MSC_VER" && negb (defined e "__clang__")
     && negb (defined e "__INTEL_COMPILER") then 1 else 0.

Definition TRLC_COMPILER_INTEL (e : Env) : Z :=
  if defined e "__INTEL_COMPILER" && negb (defined e "__clang__") then 1 else 0.

Definition TRLC_COMPILER_INTEL_LLVM (e : Env) : Z :=
  if (defined e "__INTEL_COMPILER" || defined e "__ICL" || defined e "__ICC")
     && defined e "__clang__" then 1 else 0.

Definition TRLC_COMPILER_MINGW (e : Env) : Z :=
  if defined e "__GNUC__" && (defined e "__MINGW32__" || defined e "__MINGW64__")
  then 1 else 0.

(** The version macros expand to integer expressions; they are taken here
    by their value. *)
Definition TRLC_COMPILER_VERSION_MAJOR (e : Env) : Z :=
  if defined e "__INTEL_COMPILER" then pp_value e "__INTEL_COMPILER" ÷ 100
  else if defined e "__clang__" then pp_value e "__clang_major__"
  else if defined e "__GNUC__" then pp_value e "__GNUC__"
  else if defined e "_MSC_VER" then
    let m := pp_value e "_MSC_VER" in
    if 1940 <=? m then 19
    else if 1930 <=? m then 19
    else if 1920 <=? m then 19
    else if 1910 <=? m then 19
    else if 1900 <=? m then 19
    else m ÷ 100
  else 0.

Definition TRLC_COMPILER_VERSION_MINOR (e : Env) : Z :=
  if defined e "__INTEL_COMPILER" then Z.rem (pp_value e "__INTEL_COMPILER") 100 ÷ 10
  else if defined e "__clang__" then pp_value e "__clang_minor__"
  else if defined e "__GNUC__" then pp_value e "__GNUC_MINOR__"
  else if defined e "_MSC_VER" then
    let m := pp_value e "_MSC_VER" in
    if 1940 <=? m then 4
    else if 1930 <=? m then 3
    else if 1920 <=? m then 2
    else if 1910 <=? m then 1
    else if 1900 <=? m then 0
    else Z.rem m 100 ÷ 10
  else 0.

Definition TRLC_COMPILER_VERSION_PATCH (e : Env) : Z :=
  if defined e "__INTEL_COMPILER" then Z.rem (pp_value e "__INTEL_COMPILER") 10
  else if defined e "__clang__" then pp_value e "__clang_patchlevel__"
  else if defined e "__GNUC__" then
    if defined e "__GNUC_PATCHLEVEL__" then pp_value e "__GNUC_PATCHLEVEL__" else 0
  else if defined e "_MSC_VER" then
    let m := pp_value e "_MSC_VER" in
    if 1940 <=? m then m - 1940
    else if 1930 <=? m then m - 1930
    else if 1920 <=? m then m - 1920
    else if 1910 <=? m then m - 1910
    else if 1900 <=? m then m - 1900
    else Z.rem m 10
  else 0.

Definition TRLC_COMPILER_VERSION_ATLEAST (e : Env) (major minor patch : Z) : bool :=
  (major <? TRLC_COMPILER_VERSION_MAJOR e)
  || ((TRLC_COMPILER_VERSION_MAJOR e =? major) && (minor <? TRLC_COMPILER_VERSION_MINOR e))
  || ((TRLC_COMPILER_VERSION_MAJOR e =? major) && (TRLC_COMPILER_VERSION_MINOR e =? minor)
      && (patch <=? TRLC_COMPILER_VERSION_PATCH e)).

End compiler.

(** ** endianness.hpp *)

Module endianness.

Inductive ByteOrder : Set :=
| unknown
| little_endian
| big_endian
| mixed_endian.

Definition ByteOrder_eqb (a b : ByteOrder) : bool :=
  match a, b with
  | unknown, unknown
  | little_endian, little_endian
  | big_endian, big_endian
  | mixed_endian, mixed_endian => true
  | _, _ => false
  end.

Record EndiannessInfo : Set := mkEndiannessInfo {
  byte_order : ByteOrder;
  is_little_endian : bool;
  is_big_endian : bool
}.

Definition needsByteSwap (info : EndiannessInfo) (target_order : ByteOrder) : bool :=
  if ByteOrder_eqb (byte_order info) unknown || ByteOrder_eqb target_order unknown
  then false
  else negb (ByteOrder_eqb (byte_order info) target_order).

(** First match wins; the two named-constant triplets share one decode. *)
Definition detectByteOrderCompileTime (e : Env) : ByteOrder :=
  if defined e "__BYTE_ORDER__" && defined e "__ORDER_LITTLE_ENDIAN__"
     && defined e "__ORDER_BIG_ENDIAN__" then
    if pp_value e "__BYTE_ORDER__" =? pp_value e "__ORDER_LITTLE_ENDIAN__" then little_endian
    else if pp_value e "__BYTE_ORDER__" =? pp_value e "__ORDER_BIG_ENDIAN__" then big_endian
    else mixed_endian
  else if defined e "BYTE_ORDER" && defined e "LITTLE_ENDIAN" && defined e "BIG_ENDIAN" then
    if pp_value e "BYTE_ORDER" =? pp_value e "LITTLE_ENDIAN" then little_endian
    else if pp_value e "BYTE_ORDER" =? pp_value e "BIG_ENDIAN" then big_endian
    else mixed_endian
  else if defined e "_WIN32" || defined e "_WIN64" then little_endian
  else if defined e "__LITTLE_ENDIAN__" || defined e "__ARMEL__" then little_endian
  else if defined e "__BIG_ENDIAN__" || defined e "__ARMEB__" then big_endian
  else if defined e "__i386__" || defined e "__x86_64__" || defined e "__amd64__"
          || defined e "_M_IX86" || defined e "_M_X64" || defined e "_M_AMD64"
          || defined e "__aarch64__" || defined e "_M_ARM64" then little_endian
  else if defined e "__sparc__" || defined e "__sparc" || defined e "__MIPSEB__"
          || defined e "_POWER"
          || (defined e "__powerpc__" && defined e "__BIG_ENDIAN__") then big_endian
  else unknown.

(** The union probe: [first_byte] is [test.bytes[0]], the byte the target
    stores at the lowest address of the [uint32_t] 0x01020304. *)
Definition detectByteOrderRuntime (first_byte : Z) : ByteOrder :=
  if first_byte =? 0x01 then big_endian
  else if first_byte =? 0x04 then little_endian
  else mixed_endian.

(** [getByteOrder] is [constexpr] and tests the compile-time order with
    [if constexpr].  Where a signal decides the order, that order is
    returned.  Where none does, the branch taken is the call of
    [detectByteOrderRuntime], which is not [constexpr]; [getEndiannessInfo]
    initialises a [constexpr] local from [getByteOrder()], so the header
    is rejected by the compiler.  [None] is that build: there is no
    program. *)
Definition getByteOrder (e : Env) : option ByteOrder :=
  let compile_time_order := detectByteOrderCompileTime e in
  if negb (ByteOrder_eqb compile_time_order unknown) then Some compile_time_order
  else None.

Definition getEndiannessInfo (e : Env) : option EndiannessInfo :=
  order ← getByteOrder e;
  Some {| byte_order := order;
          is_little_endian := ByteOrder_eqb order little_endian;
          is_big_endian := ByteOrder_eqb order big_endian |}.

Definition isLittleEndian (e : Env) : option bool :=
  order ← getByteOrder e;
  Some (ByteOrder_eqb order little_endian).

(** *** Byte swapping *)

(** The compiler intrinsics [__builtin_bswap16/32/64] are not code of the
    library.  They are taken with their documented meaning: the argument
    with the order of its [n] eight-bit bytes reversed. *)
Fixpoint to_bytes (n : nat) (v : Z) : list Z :=
  match n with
  | O => []
  | S n' => v mod 256 :: to_bytes n' (v / 256)
  end.

Fixpoint from_bytes (l : list Z) : Z :=
  match l with
  | [] => 0
  | b :: l' => b + 256 * from_bytes l'
  end.

Definition builtin_bswap (n : nat) (v : Z) : Z := from_bytes (rev (to_bytes n v)).

(** The hand-written swaps.  In the 16-bit one [value] is promoted to
    [int], where neither shift can overflow, and the cast truncates. *)
Definition byteSwap16Manual (value : Z) : Z :=
  to_unsigned 16 (Z.lor (Z.shiftl value 8) (Z.shiftr value 8)).

(** [uint32_t] arithmetic: a left shift is reduced modulo 2^32. *)
Definition byteSwap32Manual (value : Z) : Z :=
  Z.lor (Z.lor (Z.lor
    (Z.shiftr (Z.land value 0xFF000000) 24)
    (Z.shiftr (Z.land value 0x00FF0000) 8))
    (to_unsigned 32 (Z.shiftl (Z.land value 0x0000FF00) 8)))
    (to_unsigned 32 (Z.shiftl (Z.land value 0x000000FF) 24)).

(** [uint64_t] arithmetic: a left shift is reduced modulo 2^64. *)
Definition byteSwap64Manual (value : Z) : Z :=
  Z.lor (Z.lor (Z.lor (Z.lor (Z.lor (Z.lor (Z.lor
    (Z.shiftr (Z.land value 0xFF00000000000000) 56)
    (Z.shiftr (Z.land value 0x00FF000000000000) 40))
    (Z.shiftr (Z.land value 0x0000FF0000000000) 24))
    (Z.shiftr (Z.land value 0x000000FF00000000) 8))
    (to_unsigned 64 (Z.shiftl (Z.land value 0x00000000FF000000) 8)))
    (to_unsigned 64 (Z.shiftl (Z.land value 0x0000000000FF0000) 24)))
    (to_unsigned 64 (Z.shiftl (Z.land value 0x000000000000FF00) 40)))
    (to_unsigned 64 (Z.shiftl (Z.land value 0x00000000000000FF) 56)).

(** [has_builtin] is the preprocessor's [__has_builtin] operator, which
    the compiler answers.  The argument of each swap is a [uint16_t],
    [uint32_t] or [uint64_t]. *)
Section Impl.
Variable e : Env.
Variable has_builtin : string -> bool.

Definition byteSwap16Impl (value : Z) : Z :=
  if defined e "_MSC_VER" then byteSwap16Manual value
  else if defined e "__GNUC__" || defined e "__clang__" then
    if has_builtin "__builtin_bswap16" then builtin_bswap 2 value
    else byteSwap16Manual value
  else byteSwap16Manual value.

Definition byteSwap32Impl (value : Z) : Z :=
  if defined e "_MSC_VER" then byteSwap32Manual value
  else if defined e "__GNUC__" || defined e "__clang__" then
    if has_builtin "__builtin_bswap32" then builtin_bswap 4 value
    else byteSwap32Manual value
  else byteSwap32Manual value.

Definition byteSwap64Impl (value : Z) : Z :=
  if defined e "_MSC_VER" then byteSwap64Manual value
  else if defined e "__GNUC__" || defined e "__clang__" then
    if has_builtin "__builtin_bswap64" then builtin_bswap 8 value
    else byteSwap64Manual value
  else byteSwap64Manual value.

Definition byteSwap16 (value : Z) : Z := byteSwap16Impl value.
Definition byteSwap32 (value : Z) : Z := byteSwap32Impl value.
Definition byteSwap64 (value : Z) : Z := byteSwap64Impl value.
End Impl.

(** An integral type, as far as the templates look at it: its [sizeof]
    and its signedness. *)
Record IntegralType : Set := mkIntegralType {
  sizeof : Z;
  is_signed : bool
}.

(** The values of the type. *)
Definition in_range (T : IntegralType) (v : Z) : Prop :=
  if is_signed T then - 2 ^ (8 * sizeof T - 1) <= v < 2 ^ (8 * sizeof T - 1)
  else 0 <= v < 2 ^ (8 * sizeof T).

(** [static_cast<Type>] *)
Definition static_cast (T : IntegralType) (z : Z) : Z :=
  if is_signed T then to_signed (8 * sizeof T) z else to_unsigned (8 * sizeof T) z.

(** [std::make_unsigned_t<Type>] *)
Definition make_unsigned (T : IntegralType) : IntegralType :=
  {| sizeof := sizeof T; is_signed := false |}.

(** The generic swap.  [None] is the instantiation that does not compile:
    the [static_assert] of the last branch rejects types wider than eight
    bytes. *)
Definition byteSwap (e : Env) (has_builtin : string -> bool)
    (T : IntegralType) (value : Z) : option Z :=
  if sizeof T =? 1 then Some value
  else if sizeof T =? 2 then
    let unsigned_value := static_cast (make_unsigned T) value in
    let swapped := byteSwap16 e has_builtin (to_unsigned 16 unsigned_value) in
    Some (static_cast T swapped)
  else if sizeof T =? 4 then
    let unsigned_value := static_cast (make_unsigned T) value in
    let swapped := byteSwap32 e has_builtin (to_unsigned 32 unsigned_value) in
    Some (static_cast T swapped)
  else if sizeof T =? 8 then
    let unsigned_value := static_cast (make_unsigned T) value in
    let swapped := byteSwap64 e has_builtin (to_unsigned 64 unsigned_value) in
    Some (static_cast T swapped)
  else if sizeof T <=? 8 then Some value
  else None.

Definition areByteOrdersCompatible (order1 order2 : ByteOrder) : bool :=
  if ByteOrder_eqb order1 unknown || ByteOrder_eqb order2 unknown then true
  else ByteOrder_eqb order1 order2.

(** Both branches of the plain [if] are instantiated, so the template
    compiles exactly when [byteSwap<Type>] does. *)
Definition convertByteOrder (e : Env) (has_builtin : string -> bool)
    (T : IntegralType) (value : Z) (from_order to_order : ByteOrder) : option Z :=
  swapped ← byteSwap e has_builtin T value;
  if areByteOrdersCompatible from_order to_order then Some value
  else Some swapped.

Definition getOppositeByteOrder (order : ByteOrder) : ByteOrder :=
  match order with
  | little_endian => big_endian
  | big_endian => little_endian
  | _ => unknown
  end.

(** Network byte order.  The test is an [if constexpr], so only the branch
    taken is instantiated: the generic swap, with its limit of eight bytes,
    on a little-endian host only.  [None] is the instantiation that does
    not compile. *)
Definition hostToNetwork (e : Env) (has_builtin : string -> bool)
    (T : IntegralType) (value : Z) : option Z :=
  little ← isLittleEndian e;
  if little : bool then byteSwap e has_builtin T value
  else Some value.

Definition networkToHost (e : Env) (has_builtin : string -> bool)
    (T : IntegralType) (value : Z) : option Z :=
  little ← isLittleEndian e;
  if little : bool then byteSwap e has_builtin T value
  else Some value.

Definition uint16_t : IntegralType := {| sizeof := 2; is_signed := false |}.
Definition uint32_t : IntegralType := {| sizeof := 4; is_signed := false |}.

Definition hostToNetworkShort (e : Env) (has_builtin : string -> bool)
    (hostshort : Z) : option Z :=
  hostToNetwork e has_builtin uint16_t hostshort.

Definition hostToNetworkLong (e : Env) (has_builtin : string -> bool)
    (hostlong : Z) : option Z :=
  hostToNetwork e has_builtin uint32_t hostlong.

Definition networkToHostShort (e : Env) (has_builtin : string -> bool)
    (netshort : Z) : option Z :=
  networkToHost e has_builtin uint16_t netshort.

Definition networkToHostLong (e : Env) (has_builtin : string -> bool)
    (netlong : Z) : option Z :=
  networkToHost e has_builtin uint32_t netlong.

End endianness.

(** ** architecture.hpp *)

Module architecture.

Inductive CpuArchitecture : Set :=
| unknown
| x86
| x86_64
| arm_v6
| arm_v7
| arm_v8_32
| arm_v8_64
| mips
| mips_64
| powerpc
| powerpc_64
| risc_v_32
| risc_v_64
| sparc
| sparc_64.

Record ArchitectureInfo : Set := mkArchitectureInfo {
  architecture : CpuArchitecture;
  byte_order : endianness.ByteOrder;
  pointer_size_bits : Z;
  cache_line_size : Z;
  arch_name : string
}.

Definition is64Bit (info : ArchitectureInfo) : bool := pointer_size_bits info =? 64.

Definition is32Bit (info : ArchitectureInfo) : bool := pointer_size_bits info =? 32.

Definition isLittleEndian (info : ArchitectureInfo) : bool :=
  endianness.ByteOrder_eqb (byte_order info) endianness.little_endian.

Definition detectCpuArchitecture (e : Env) : CpuArchitecture :=
  if defined e "__x86_64__" || defined e "__x86_64" || defined e "__amd64__"
     || defined e "__amd64" || defined e "_M_X64" then x86_64
  else if defined e "__i386__" || defined e "__i386" || defined e "__i486__"
          || defined e "__i586__" || defined e "__i686__" || defined e "_M_IX86" then x86
  else if defined e "__aarch64__" || defined e "_M_ARM64" then arm_v8_64
  else if defined e "__arm__" || defined e "_M_ARM" then
    if defined e "__ARM_ARCH_8__" || defined e "__ARM_ARCH_8A__" then arm_v8_32
    else if defined e "__ARM_ARCH_7__" || defined e "__ARM_ARCH_7A__"
            || defined e "__ARM_ARCH_7R__" || defined e "__ARM_ARCH_7M__"
            || defined e "__ARM_ARCH_7S__" then arm_v7
    else if defined e "__ARM_ARCH_6__" || defined e "__ARM_ARCH_6J__"
            || defined e "__ARM_ARCH_6K__" || defined e "__ARM_ARCH_6Z__"
            || defined e "__ARM_ARCH_6ZK__" || defined e "__ARM_ARCH_6T2__" then arm_v6
    else arm_v7
  else if defined e "__mips__" || defined e "__mips" || defined e "__MIPS__" then
    if defined e "__mips64__" || defined e "__mips64"
       || (pp_value e "_MIPS_SIM" =? pp_value e "_ABI64") then mips_64
    else mips
  else if defined e "__powerpc__" || defined e "__powerpc" || defined e "__ppc__"
          || defined e "__ppc" || defined e "_M_PPC" then
    if defined e "__powerpc64__" || defined e "__ppc64__" || defined e "__PPC64__"
       || defined e "_ARCH_PPC64" then powerpc_64
    else powerpc
  else if defined e "__riscv" then
    if defined e "__riscv_xlen" && (pp_value e "__riscv_xlen" =? 64) then risc_v_64
    else if defined e "__riscv_xlen" && (pp_value e "__riscv_xlen" =? 32) then risc_v_32
    else risc_v_64
  else if defined e "__sparc__" || defined e "__sparc" then
    if defined e "__sparc64__" || defined e "__sparcv9" then sparc_64
    else sparc
  else unknown.

(** [sizeof_void_ptr] is the target's size of a pointer to [void] in
    bytes, the one input that is not a macro. *)
Definition detectPointerSize (e : Env) (sizeof_void_ptr : Z) : Z :=
  match detectCpuArchitecture e with
  | x86_64 | arm_v8_64 | mips_64 | powerpc_64 | risc_v_64 | sparc_64 => 64
  | x86 | arm_v6 | arm_v7 | arm_v8_32 | mips | powerpc | risc_v_32 | sparc => 32
  | _ => to_int (sizeof_void_ptr * 8)
  end.

Definition detectCacheLineSize (e : Env) : Z :=
  match detectCpuArchitecture e with
  | x86 | x86_64 => 64
  | arm_v6 | arm_v7 => 32
  | arm_v8_32 | arm_v8_64 => 64
  | powerpc | powerpc_64 => 128
  | mips | mips_64 | risc_v_32 | risc_v_64 | sparc | sparc_64 => 64
  | _ => 64
  end.

Definition getArchitectureName (e : Env) : string :=
  match detectCpuArchitecture e with
  | x86 => "x86"
  | x86_64 => "x86_64"
  | arm_v6 => "ARM v6"
  | arm_v7 => "ARM v7"
  | arm_v8_32 => "ARM v8 (32-bit)"
  | arm_v8_64 => "ARM v8 (64-bit)"
  | mips => "MIPS"
  | mips_64 => "MIPS64"
  | powerpc => "PowerPC"
  | powerpc_64 => "PowerPC64"
  | risc_v_32 => "RISC-V 32"
  | risc_v_64 => "RISC-V 64"
  | sparc => "SPARC"
  | sparc_64 => "SPARC64"
  | _ => "Unknown"
  end.

Definition getCpuArchitecture (e : Env) : CpuArchitecture := detectCpuArchitecture e.

(** [None] where [getByteOrder] does not compile. *)
Definition getArchitectureInfo (e : Env) (sizeof_void_ptr : Z)
    : option ArchitectureInfo :=
  order ← endianness.getByteOrder e;
  Some {| architecture := detectCpuArchitecture e;
          byte_order := order;
          pointer_size_bits := detectPointerSize e sizeof_void_ptr;
          cache_line_size := detectCacheLineSize e;
          arch_name := getArchitectureName e |}.

Definition getPointerSize (e : Env) (sizeof_void_ptr : Z) : Z :=
  detectPointerSize e sizeof_void_ptr.

(** The enumerators' values in the underlying type [int]. *)
Definition CpuArchitecture_to_int (a : CpuArchitecture) : Z :=
  match a with
  | unknown => 0
  | x86 => 1
  | x86_64 => 2
  | arm_v6 => 3
  | arm_v7 => 4
  | arm_v8_32 => 5
  | arm_v8_64 => 6
  | mips => 7
  | mips_64 => 8
  | powerpc => 9
  | powerpc_64 => 10
  | risc_v_32 => 11
  | risc_v_64 => 12
  | sparc => 13
  | sparc_64 => 14
  end.

Definition CpuArchitecture_eqb (a b : CpuArchitecture) : bool :=
  CpuArchitecture_to_int a =? CpuArchitecture_to_int b.

Definition supportsUnalignedAccess (info : ArchitectureInfo) : bool :=
  CpuArchitecture_eqb (architecture info) x86
  || CpuArchitecture_eqb (architecture info) x86_64
  || CpuArchitecture_eqb (architecture info) arm_v7
  || CpuArchitecture_eqb (architecture info) arm_v8_32
  || CpuArchitecture_eqb (architecture info) arm_v8_64.

(** The member function of [ArchitectureInfo]. *)
Definition ArchitectureInfo_hasSimdSupport (info : ArchitectureInfo) : bool :=
  CpuArchitecture_eqb (architecture info) x86
  || CpuArchitecture_eqb (architecture info) x86_64
  || CpuArchitecture_eqb (architecture info) arm_v7
  || CpuArchitecture_eqb (architecture info) arm_v8_32
  || CpuArchitecture_eqb (architecture info) arm_v8_64.

Definition isARM (info : ArchitectureInfo) : bool :=
  CpuArchitecture_eqb (architecture info) arm_v6
  || CpuArchitecture_eqb (architecture info) arm_v7
  || CpuArchitecture_eqb (architecture info) arm_v8_32
  || CpuArchitecture_eqb (architecture info) arm_v8_64.

Definition isX86 (info : ArchitectureInfo) : bool :=
  CpuArchitecture_eqb (architecture info) x86
  || CpuArchitecture_eqb (architecture info) x86_64.

(** The free functions. *)
Definition hasSimdSupport (e : Env) : bool :=
  let arch := getCpuArchitecture e in
  CpuArchitecture_eqb arch x86 || CpuArchitecture_eqb arch x86_64
  || CpuArchitecture_eqb arch arm_v7 || CpuArchitecture_eqb arch arm_v8_32
  || CpuArchitecture_eqb arch arm_v8_64.

Definition hasVectorInstructions (e : Env) : bool :=
  let arch := getCpuArchitecture e in
  CpuArchitecture_eqb arch x86_64 || CpuArchitecture_eqb arch arm_v8_64
  || CpuArchitecture_eqb arch risc_v_64.

Definition supportsCacheLineAlignment (e : Env) : bool :=
  let arch := getCpuArchitecture e in
  negb (CpuArchitecture_eqb arch unknown).

Definition is64BitArchitecture (e : Env) (sizeof_void_ptr : Z) : bool :=
  getPointerSize e sizeof_void_ptr =? 64.

Definition is32BitArchitecture (e : Env) (sizeof_void_ptr : Z) : bool :=
  getPointerSize e sizeof_void_ptr =? 32.

End architecture.

(** ** cpp_standard.hpp *)

Module cpp_standard.

Inductive CppStandard : Set :=
| cpp_pre_17
| cpp_17
| cpp_20
| cpp_23
| cpp_26
| cpp_unknown.

(** The enumerators' values in the underlying type [long]. *)
Definition underlying (s : CppStandard) : Z :=
  match s with
  | cpp_pre_17 => 0
  | cpp_17 => 201703
  | cpp_20 => 202002
  | cpp_23 => 202302
  | cpp_26 => 202600
  | cpp_unknown => -1
  end.

(** [>=] on the scoped enumeration compares the underlying values. *)
Definition CppStandard_ge (a b : CppStandard) : bool := underlying b <=? underlying a.

(** [long_bits] is the width of [long], on which the targets do not
    agree: 32 bits on Windows and on 32-bit targets, 64 bits on the other
    64-bit targets. *)
Section Long.
Variable long_bits : Z.

(** The value of the macro stored in a [long]: a value outside the type
    wraps around. *)
Definition to_long (z : Z) : Z := to_signed long_bits z.

Definition getCppVersionMacroValue (e : Env) : Z :=
  if defined e "_MSVC_LANG" then to_long (pp_value e "_MSVC_LANG")
  else if defined e "__cplusplus" then to_long (pp_value e "__cplusplus")
  else 0.

Definition detectCppStandard (e : Env) : CppStandard :=
  let cpp_version :=
    if defined e "_MSVC_LANG" then to_long (pp_value e "_MSVC_LANG")
    else if defined e "__cplusplus" then to_long (pp_value e "__cplusplus")
    else 0 in
  if 202600 <=? cpp_version then cpp_26
  else if 202302 <=? cpp_version then cpp_23
  else if 202002 <=? cpp_version then cpp_20
  else if 201703 <=? cpp_version then cpp_17
  else if (201402 <=? cpp_version) || (201103 <=? cpp_version)
          || (199711 <=? cpp_version) then cpp_pre_17
  else cpp_unknown.

Definition getCppStandard (e : Env) : CppStandard := detectCppStandard e.

Definition hasConcepts (e : Env) : bool :=
  if defined e "__cpp_concepts" then 201907 <=? pp_value e "__cpp_concepts"
  else CppStandard_ge (getCppStandard e) cpp_20.

Definition hasCoroutines (e : Env) : bool :=
  if defined e "__cpp_impl_coroutine" then 201902 <=? pp_value e "__cpp_impl_coroutine"
  else if defined e "__cpp_coroutines" then 201902 <=? pp_value e "__cpp_coroutines"
  else CppStandard_ge (getCppStandard e) cpp_20.

Definition hasModules (e : Env) : bool :=
  if defined e "__cpp_modules" then 201907 <=? pp_value e "__cpp_modules"
  else false.

Definition hasRanges (e : Env) : bool :=
  if defined e "__cpp_lib_ranges" then 201911 <=? pp_value e "__cpp_lib_ranges"
  else CppStandard_ge (getCppStandard e) cpp_20.

Definition hasConsteval (e : Env) : bool :=
  if defined e "__cpp_consteval" then 201811 <=? pp_value e "__cpp_consteval"
  else CppStandard_ge (getCppStandard e) cpp_20.

Definition hasConstinit (e : Env) : bool :=
  if defined e "__cpp_constinit" then 201907 <=? pp_value e "__cpp_constinit"
  else CppStandard_ge (getCppStandard e) cpp_20.

Definition hasDesignatedInitializers (e : Env) : bool :=
  if defined e "__cpp_designated_initializers"
  then 201707 <=? pp_value e "__cpp_designated_initializers"
  else CppStandard_ge (getCppStandard e) cpp_20.

Definition hasThreeWayComparison (e : Env) : bool :=
  if defined e "__cpp_impl_three_way_comparison"
  then 201907 <=? pp_value e "__cpp_impl_three_way_comparison"
  else CppStandard_ge (getCppStandard e) cpp_20.

Definition hasStructuredBindings (e : Env) : bool :=
  if defined e "__cpp_structured_bindings"
  then 201606 <=? pp_value e "__cpp_structured_bindings"
  else CppStandard_ge (getCppStandard e) cpp_17.

Definition hasIfConstexpr (e : Env) : bool :=
  if defined e "__cpp_if_constexpr" then 201606 <=? pp_value e "__cpp_if_constexpr"
  else CppStandard_ge (getCppStandard e) cpp_17.

Definition hasFoldExpressions (e : Env) : bool :=
  if defined e "__cpp_fold_expressions" then 201603 <=? pp_value e "__cpp_fold_expressions"
  else CppStandard_ge (getCppStandard e) cpp_17.

Definition hasInlineVariables (e : Env) : bool :=
  if defined e "__cpp_inline_variables" then 201606 <=? pp_value e "__cpp_inline_variables"
  else CppStandard_ge (getCppStandard e) cpp_17.

Definition isCpp20OrLater (e : Env) : bool := CppStandard_ge (getCppStandard e) cpp_20.

Definition getCppStandardName (e : Env) : string :=
  match detectCppStandard e with
  | cpp_17 => "C++17"
  | cpp_20 => "C++20"
  | cpp_23 => "C++23"
  | cpp_26 => "C++26"
  | cpp_pre_17 => "Pre-C++17"
  | _ => "Unknown"
  end.

Record CppStandardInfo : Set := mkCppStandardInfo {
  standard : CppStandard;
  version_macro : Z;
  standard_name : string
}.

Definition isAtLeast (info : CppStandardInfo) (min_standard : CppStandard) : bool :=
  underlying min_standard <=? underlying (standard info).

Definition starts_with6 (feature_name : string) (c0 c1 c2 c3 c4 c5 : ascii) : bool :=
  Ascii.eqb (char_at feature_name 0) c0 && Ascii.eqb (char_at feature_name 1) c1
  && Ascii.eqb (char_at feature_name 2) c2 && Ascii.eqb (char_at feature_name 3) c3
  && Ascii.eqb (char_at feature_name 4) c4 && Ascii.eqb (char_at feature_name 5) c5.

Definition supportsFeature (info : CppStandardInfo) (feature_name : string) : bool :=
  if starts_with6 feature_name "s"%char "t"%char "r"%char "u"%char "c"%char "t"%char
  then isAtLeast info cpp_17
  else if starts_with6 feature_name "i"%char "f"%char "_"%char "c"%char "o"%char "n"%char
  then isAtLeast info cpp_17
  else if starts_with6 feature_name "c"%char "o"%char "n"%char "c"%char "e"%char "p"%char
  then isAtLeast info cpp_20
  else if starts_with6 feature_name "c"%char "o"%char "r"%char "o"%char "u"%char "t"%char
  then isAtLeast info cpp_20
  else if starts_with6 feature_name "m"%char "o"%char "d"%char "u"%char "l"%char "e"%char
  then isAtLeast info cpp_20
  else if starts_with6 feature_name "r"%char "a"%char "n"%char "g"%char "e"%char "s"%char
  then isAtLeast info cpp_20
  else false.

Definition getCppStandardInfo (e : Env) : CppStandardInfo :=
  {| standard := detectCppStandard e;
     version_macro := getCppVersionMacroValue e;
     standard_name := getCppStandardName e |}.
End Long.

End cpp_standard.

(** ** features.hpp (runtime features) *)

Module features.

Inductive RuntimeFeature : Set :=
| sse
| sse2
| sse3
| sse4_1
| sse4_2
| avx
| avx2
| avx512f
| neon
| hardware_aes
| hardware_random.

Definition TRLC_HAS_X86_INTRINSICS (e : Env) : bool :=
  defined e "__x86_64__" || defined e "__i386__" || defined e "_M_X64"
  || defined e "_M_IX86".

Definition TRLC_HAS_ARM_INTRINSICS (e : Env) : bool :=
  defined e "__ARM_NEON" || defined e "__aarch64__".

(** What the processor answers to the CPUID instruction. *)
Record CpuidRegs : Set := mkCpuidRegs {
  eax : Z;
  ebx : Z;
  ecx : Z;
  edx : Z
}.

(** The processor the binary runs on: leaf and sub-leaf to registers. *)
Definition Cpu : Set := Z -> Z -> CpuidRegs.

Section Probe.
Variable e : Env.
Variable cpu : Cpu.

(** The wrapper fills the caller's array [regs]; it is returned here.
    Both intrinsics store EAX, EBX, ECX, EDX in this order. *)
Definition cpuid (leaf subleaf : Z) : list Z :=
  if defined e "_MSC_VER" then
    let r := cpu leaf subleaf in [eax r; ebx r; ecx r; edx r]
  else if defined e "__GNUC__" || defined e "__clang__" then
    let r := cpu leaf subleaf in [eax r; ebx r; ecx r; edx r]
  else [0; 0; 0; 0].

Definition checkCpuFeature (leaf subleaf reg bit : Z) : bool :=
  let regs := cpuid leaf subleaf in
  negb (Z.land (nth (Z.to_nat reg) regs 0) (to_unsigned 32 (Z.shiftl 1 bit)) =? 0).

Definition hasSseSupport : bool :=
  if TRLC_HAS_X86_INTRINSICS e then checkCpuFeature 1 0 3 25 else false.

Definition hasSse2Support : bool :=
  if TRLC_HAS_X86_INTRINSICS e then checkCpuFeature 1 0 3 26 else false.

Definition hasSse3Support : bool :=
  if TRLC_HAS_X86_INTRINSICS e then checkCpuFeature 1 0 2 0 else false.

Definition hasSse41Support : bool :=
  if TRLC_HAS_X86_INTRINSICS e then checkCpuFeature 1 0 2 19 else false.

Definition hasSse42Support : bool :=
  if TRLC_HAS_X86_INTRINSICS e then checkCpuFeature 1 0 2 20 else false.

Definition hasAvxSupport : bool :=
  if TRLC_HAS_X86_INTRINSICS e then checkCpuFeature 1 0 2 28 else false.

Definition hasAvx2Support : bool :=
  if TRLC_HAS_X86_INTRINSICS e then checkCpuFeature 7 0 1 5 else false.

Definition hasAvx512fSupport : bool :=
  if TRLC_HAS_X86_INTRINSICS e then checkCpuFeature 7 0 1 16 else false.

Definition hasNeonSupport : bool :=
  if TRLC_HAS_ARM_INTRINSICS e then
    if defined e "__ARM_NEON" then true
    else if defined e "__aarch64__" then true
    else false
  else false.

Definition hasHardwareAes : bool :=
  if TRLC_HAS_X86_INTRINSICS e then checkCpuFeature 1 0 2 25
  else if TRLC_HAS_ARM_INTRINSICS e && defined e "__ARM_FEATURE_AES" then true
  else false.

Definition hasHardwareRandom : bool :=
  if TRLC_HAS_X86_INTRINSICS e then checkCpuFeature 1 0 2 30 else false.

Definition hasRuntimeFeature (feature : RuntimeFeature) : bool :=
  match feature with
  | sse => hasSseSupport
  | sse2 => hasSse2Support
  | sse3 => hasSse3Support
  | sse4_1 => hasSse41Support
  | sse4_2 => hasSse42Support
  | avx => hasAvxSupport
  | avx2 => hasAvx2Support
  | avx512f => hasAvx512fSupport
  | neon => hasNeonSupport
  | hardware_aes => hasHardwareAes
  | hardware_random => hasHardwareRandom
  end.
End Probe.

(** *** Compile-time features *)

Inductive LanguageFeature : Set :=
| exceptions
| rtti
| threads
| atomic_operations
| inline_assembly
| vector_intrinsics
| stack_protection
| address_sanitizer
| thread_sanitizer
| memory_sanitizer
| undefined_behavior_sanitizer.

Record FeatureSet : Set := mkFeatureSet {
  has_exceptions : bool;
  has_rtti : bool;
  has_threads : bool;
  has_atomic : bool;
  has_inline_asm : bool;
  has_vector_intrinsics : bool;
  has_stack_protection : bool;
  has_address_sanitizer : bool;
  has_thread_sanitizer : bool;
  has_memory_sanitizer : bool;
  has_undefined_behavior_sanitizer : bool;
  has_sse : bool;
  has_sse2 : bool;
  has_sse3 : bool;
  has_sse4_1 : bool;
  has_sse4_2 : bool;
  has_avx : bool;
  has_avx2 : bool;
  has_avx512f : bool;
  has_neon : bool;
  has_hardware_aes : bool;
  has_hardware_random : bool
}.

(** The member functions of [FeatureSet]. *)
Definition FeatureSet_hasLanguageFeature (fs : FeatureSet) (feature : LanguageFeature)
    : bool :=
  match feature with
  | exceptions => has_exceptions fs
  | rtti => has_rtti fs
  | threads => has_threads fs
  | atomic_operations => has_atomic fs
  | inline_assembly => has_inline_asm fs
  | vector_intrinsics => has_vector_intrinsics fs
  | stack_protection => has_stack_protection fs
  | address_sanitizer => has_address_sanitizer fs
  | thread_sanitizer => has_thread_sanitizer fs
  | memory_sanitizer => has_memory_sanitizer fs
  | undefined_behavior_sanitizer => has_undefined_behavior_sanitizer fs
  end.

Definition FeatureSet_hasRuntimeFeature (fs : FeatureSet) (feature : RuntimeFeature)
    : bool :=
  match feature with
  | sse => has_sse fs
  | sse2 => has_sse2 fs
  | sse3 => has_sse3 fs
  | sse4_1 => has_sse4_1 fs
  | sse4_2 => has_sse4_2 fs
  | avx => has_avx fs
  | avx2 => has_avx2 fs
  | avx512f => has_avx512f fs
  | neon => has_neon fs
  | hardware_aes => has_hardware_aes fs
  | hardware_random => has_hardware_random fs
  end.

(** [has_feature] is Clang's [__has_feature] operator: [None] where the
    preprocessor does not know it. *)
Section LanguageFeatures.
Variable e : Env.
Variable has_feature : option (string -> bool).

Definition hasExceptions : bool :=
  if defined e "__cpp_exceptions" then true
  else if defined e "__EXCEPTIONS" || defined e "_CPPUNWIND" then true
  else false.

Definition hasRtti : bool :=
  if defined e "__cpp_rtti" then true
  else if defined e "__GXX_RTTI" || defined e "_CPPRTTI" then true
  else match has_feature with
       | Some feature => if feature "cxx_rtti" then true else false
       | None => true
       end.

Definition hasThreads : bool :=
  if defined e "__STDCPP_THREADS__" then pp_value e "__STDCPP_THREADS__" =? 1
  else if defined e "_REENTRANT" || defined e "_MT" then true
  else false.

Definition hasAtomicOperations : bool :=
  if defined e "__cpp_lib_atomic_shared_ptr" then true
  else if defined e "__ATOMIC_RELAXED" then true
  else if defined e "_MSC_VER" then true
  else true.

Definition hasInlineAssembly : bool :=
  if defined e "__GNUC__" || defined e "__clang__" then true
  else if defined e "_MSC_VER" && (defined e "_M_IX86" || defined e "_M_X64") then true
  else false.

Definition hasVectorIntrinsics : bool :=
  TRLC_HAS_X86_INTRINSICS e || TRLC_HAS_ARM_INTRINSICS e.

Definition hasStackProtection : bool :=
  if defined e "__STACK_CHK_FAIL" then true
  else if defined e "__SSP__" || defined e "__SSP_ALL__" then true
  else if defined e "_FORTIFY_SOURCE" && (0 <? pp_value e "_FORTIFY_SOURCE") then true
  else false.

(** The four sanitizer tests share one shape: a first [return true] under
    [__has_feature], then the GCC macro. *)
Definition hasAddressSanitizer : bool :=
  match has_feature with
  | Some feature =>
      if feature "address_sanitizer" then true
      else if defined e "__SANITIZE_ADDRESS__" then true else false
  | None => if defined e "__SANITIZE_ADDRESS__" then true else false
  end.

Definition hasThreadSanitizer : bool :=
  match has_feature with
  | Some feature =>
      if feature "thread_sanitizer" then true
      else if defined e "__SANITIZE_THREAD__" then true else false
  | None => if defined e "__SANITIZE_THREAD__" then true else false
  end.

Definition hasMemorySanitizer : bool :=
  match has_feature with
  | Some feature =>
      if feature "memory_sanitizer" then true
      else if defined e "__SANITIZE_MEMORY__" then true else false
  | None => if defined e "__SANITIZE_MEMORY__" then true else false
  end.

Definition hasUndefinedBehaviorSanitizer : bool :=
  match has_feature with
  | Some feature =>
      if feature "undefined_behavior_sanitizer" then true
      else if defined e "__SANITIZE_UNDEFINED__" then true else false
  | None => if defined e "__SANITIZE_UNDEFINED__" then true else false
  end.

Definition getFeatureSet : FeatureSet :=
  {| has_exceptions := hasExceptions;
     has_rtti := hasRtti;
     has_threads := hasThreads;
     has_atomic := hasAtomicOperations;
     has_inline_asm := hasInlineAssembly;
     has_vector_intrinsics := hasVectorIntrinsics;
     has_stack_protection := hasStackProtection;
     has_address_sanitizer := hasAddressSanitizer;
     has_thread_sanitizer := hasThreadSanitizer;
     has_memory_sanitizer := hasMemorySanitizer;
     has_undefined_behavior_sanitizer := hasUndefinedBehaviorSanitizer;
     has_sse := false;
     has_sse2 := false;
     has_sse3 := false;
     has_sse4_1 := false;
     has_sse4_2 := false;
     has_avx := false;
     has_avx2 := false;
     has_avx512f := false;
     has_neon := false;
     has_hardware_aes := false;
     has_hardware_random := false |}.

Definition hasLanguageFeature (feature : LanguageFeature) : bool :=
  match feature with
  | exceptions => hasExceptions
  | rtti => hasRtti
  | threads => hasThreads
  | atomic_operations => hasAtomicOperations
  | inline_assembly => hasInlineAssembly
  | vector_intrinsics => hasVectorIntrinsics
  | stack_protection => hasStackProtection
  | address_sanitizer => hasAddressSanitizer
  | thread_sanitizer => hasThreadSanitizer
  | memory_sanitizer => hasMemorySanitizer
  | undefined_behavior_sanitizer => hasUndefinedBehaviorSanitizer
  end.
End LanguageFeatures.

End features.

(** ** core.hpp (one-time initialization) *)

Module core.

(** The two [std::atomic<bool>] globals of namespace [detail]. *)
Record Flags : Set := mkFlags {
  g_platform_initialized : bool;
  g_initialization_in_progress : bool
}.

Definition initial_flags : Flags :=
  {| g_platform_initialized := false; g_initialization_in_progress := false |}.

(** [compare_exchange_strong(expected, desired)] on the in-progress flag:
    the new flags and whether the exchange took place. *)
Definition compare_exchange_in_progress (fl : Flags) (expected desired : bool)
    : Flags * bool :=
  if Bool.eqb (g_initialization_in_progress fl) expected
  then ({| g_platform_initialized := g_platform_initialized fl;
           g_initialization_in_progress := desired |}, true)
  else (fl, false).

(** The points of [initializePlatform] between two atomic operations. *)
Inductive Pc : Set :=
| check_initialized   (* entry: about to load g_platform_initialized *)
| acquire             (* about to compare-exchange g_initialization_in_progress *)
| spin_wait           (* loop test: about to load g_platform_initialized *)
| mark_initialized    (* in the try block: about to store true *)
| clear_in_progress   (* about to store false into the in-progress flag *)
| returned.

(** One atomic operation of a call standing at [pc].  The try block holds
    nothing but a store into an atomic, which cannot throw, so the handler
    has no transition. *)
Definition step (fl : Flags) (pc : Pc) : Flags * Pc :=
  match pc with
  | check_initialized =>
      if g_platform_initialized fl then (fl, returned) else (fl, acquire)
  | acquire =>
      let '(fl', exchanged) := compare_exchange_in_progress fl false true in
      if negb exchanged then (fl', spin_wait) else (fl', mark_initialized)
  | spin_wait =>
      if negb (g_platform_initialized fl) then (fl, spin_wait) else (fl, returned)
  | mark_initialized =>
      ({| g_platform_initialized := true;
          g_initialization_in_progress := g_initialization_in_progress fl |},
       clear_in_progress)
  | clear_in_progress =>
      ({| g_platform_initialized := g_platform_initialized fl;
          g_initialization_in_progress := false |}, returned)
  | returned => (fl, returned)
  end.

(** A call that runs alone: [None] when the fuel runs out before it
    returns. *)
Fixpoint run_call (fuel : nat) (fl : Flags) (pc : Pc) : option Flags :=
  match pc with
  | returned => Some fl
  | _ =>
      match fuel with
      | O => None
      | S fuel' => let '(fl', pc') := step fl pc in run_call fuel' fl' pc'
      end
  end.

Definition initializePlatform (fuel : nat) (fl : Flags) : option Flags :=
  run_call fuel fl check_initialized.

Definition isPlatformInitialized (fl : Flags) : bool := g_platform_initialized fl.

(** Several threads calling concurrently: the shared flags and, per
    thread, where its current call stands.  The atomic operations are
    interleaved one at a time. *)
Record Config : Set := mkConfig {
  flags : Flags;
  threads : list Pc
}.

Definition initial_config (n : nat) : Config :=
  {| flags := initial_flags; threads := replicate n check_initialized |}.

Inductive sched : Config -> Config -> Prop :=
| sched_step (c : Config) (i : nat) (pc pc' : Pc) (fl' : Flags) :
    threads c !! i = Some pc ->
    pc <> returned ->
    step (flags c) pc = (fl', pc') ->
    sched c {| flags := fl'; threads := <[i := pc']> (threads c) |}
| sched_call_again (c : Config) (i : nat) :
    threads c !! i = Some returned ->
    sched c {| flags := flags c; threads := <[i := check_initialized]> (threads c) |}.

(** [is_run c tr]: the configurations [tr] follow [c] one step apart. *)
Fixpoint is_run (c : Config) (tr : list Config) : Prop :=
  match tr with
  | [] => True
  | c' :: tr' => sched c c' /\ is_run c' tr'
  end.

(** How often the done flag goes from false to true along a run that
    starts with the flag at [b]. *)
Fixpoint flips (b : bool) (tr : list Config) : nat :=
  match tr with
  | [] => 0
  | c' :: tr' =>
      ((if negb b && g_platform_initialized (flags c') then 1 else 0)
       + flips (g_platform_initialized (flags c')) tr')%nat
  end.

(** *** Library version *)

Definition Version_MAJOR : Z := 1.
Definition Version_MINOR : Z := 0.
Definition Version_PATCH : Z := 0.

(** [static_cast<uint32_t>] and [<<] on [uint32_t]. *)
Definition Version_pack (major minor patch : Z) : Z :=
  Z.lor (Z.lor (to_unsigned 32 (Z.shiftl (to_unsigned 32 major) 16))
               (to_unsigned 32 (Z.shiftl (to_unsigned 32 minor) 8)))
        (to_unsigned 32 patch).

Definition Version_asInteger : Z := Version_pack Version_MAJOR Version_MINOR Version_PATCH.

Definition Version_isAtLeast (major minor patch : Z) : bool :=
  let current := Version_asInteger in
  let required := Version_pack major minor patch in
  required <=? current.

End core.

(** ** traits.hpp *)

Module traits.

(** [hasFeature<TFeature>()]: the primary template of features.hpp and
    its explicit specializations. *)
Definition hasFeature (e : Env) (has_feature : option (string -> bool))
    (TFeature : features.LanguageFeature) : bool :=
  match TFeature with
  | features.exceptions => features.hasExceptions e
  | features.rtti => features.hasRtti e has_feature
  | features.threads => features.hasThreads e
  | features.atomic_operations => features.hasAtomicOperations e
  | features.inline_assembly => features.hasInlineAssembly e
  | features.vector_intrinsics => features.hasVectorIntrinsics e
  | features.stack_protection => features.hasStackProtection e
  | features.address_sanitizer => features.hasAddressSanitizer e has_feature
  | features.thread_sanitizer => features.hasThreadSanitizer e has_feature
  | features.memory_sanitizer => features.hasMemorySanitizer e has_feature
  | _ => features.hasLanguageFeature e has_feature TFeature
  end.

(** [hasRuntimeFeature<TFeature>()]: nine explicit specializations; the
    primary template reads the feature set. *)
Definition hasRuntimeFeature (e : Env) (has_feature : option (string -> bool))
    (cpu : features.Cpu) (TFeature : features.RuntimeFeature) : bool :=
  match TFeature with
  | features.sse => features.hasSseSupport e cpu
  | features.sse2 => features.hasSse2Support e cpu
  | features.sse3 => features.hasSse3Support e cpu
  | features.sse4_1 => features.hasSse41Support e cpu
  | features.sse4_2 => features.hasSse42Support e cpu
  | features.avx => features.hasAvxSupport e cpu
  | features.avx2 => features.hasAvx2Support e cpu
  | features.avx512f => features.hasAvx512fSupport e cpu
  | features.neon => features.hasNeonSupport e
  | _ => features.FeatureSet_hasRuntimeFeature (features.getFeatureSet e has_feature) TFeature
  end.

(** The fold expressions over a pack of features.  An empty pack folds
    [&&] to true and [||] to false; folding [+] over an empty pack does not
    compile ([None]). *)
Definition hasAllFeatures (e : Env) (has_feature : option (string -> bool))
    (Features : list features.LanguageFeature) : bool :=
  forallb (hasFeature e has_feature) Features.

Definition hasAnyFeature (e : Env) (has_feature : option (string -> bool))
    (Features : list features.LanguageFeature) : bool :=
  existsb (hasFeature e has_feature) Features.

Definition countAvailableFeatures (e : Env) (has_feature : option (string -> bool))
    (Features : list features.LanguageFeature) : option Z :=
  match Features with
  | [] => None
  | _ => Some (fold_right (fun f n => (if hasFeature e has_feature f then 1 else 0) + n)
                          0 Features)
  end.

End traits.

(** ** platform.hpp *)

Module platform.

Inductive OperatingSystem : Set :=
| unknown
| windows
| linux_generic
| ubuntu
| debian
| redhat
| macos
| freebsd
| openbsd
| netbsd
| android
| ios.

Definition OperatingSystem_to_int (os : OperatingSystem) : Z :=
  match os with
  | unknown => 0
  | windows => 1
  | linux_generic => 2
  | ubuntu => 3
  | debian => 4
  | redhat => 5
  | macos => 6
  | freebsd => 7
  | openbsd => 8
  | netbsd => 9
  | android => 10
  | ios => 11
  end.

Definition OperatingSystem_eqb (a b : OperatingSystem) : bool :=
  OperatingSystem_to_int a =? OperatingSystem_to_int b.

Inductive EnvironmentType : Set :=
| env_unknown
| desktop
| server
| embedded
| mobile.

Record PlatformInfo : Set := mkPlatformInfo {
  os : OperatingSystem;
  environment : EnvironmentType;
  os_name : string;
  kernel_family : string
}.

Definition isPosix (info : PlatformInfo) : bool :=
  (Ascii.eqb (char_at (kernel_family info) 0) "p"
   && Ascii.eqb (char_at (kernel_family info) 1) "o")
  || (Ascii.eqb (char_at (kernel_family info) 0) "u"
      && Ascii.eqb (char_at (kernel_family info) 1) "n").

Definition isUnix (info : PlatformInfo) : bool :=
  OperatingSystem_eqb (os info) linux_generic || OperatingSystem_eqb (os info) ubuntu
  || OperatingSystem_eqb (os info) debian || OperatingSystem_eqb (os info) redhat
  || OperatingSystem_eqb (os info) macos || OperatingSystem_eqb (os info) freebsd
  || OperatingSystem_eqb (os info) openbsd || OperatingSystem_eqb (os info) netbsd
  || OperatingSystem_eqb (os info) android.

Definition isWindows (info : PlatformInfo) : bool :=
  OperatingSystem_eqb (os info) windows.

Definition getOperatingSystem (e : Env) : OperatingSystem :=
  if defined e "__ANDROID__" then android
  else if defined e "__APPLE__" && defined e "TARGET_OS_IPHONE"
          && negb (pp_value e "TARGET_OS_IPHONE" =? 0) then ios
  else if defined e "__APPLE__" && defined e "__MACH__" then macos
  else if defined e "_WIN32" || defined e "_WIN64" || defined e "__CYGWIN__" then windows
  else if defined e "__FreeBSD__" then freebsd
  else if defined e "__OpenBSD__" then openbsd
  else if defined e "__NetBSD__" then netbsd
  else if defined e "__linux__" || defined e "__gnu_linux__" then linux_generic
  else unknown.

Definition getEnvironmentType (e : Env) : EnvironmentType :=
  let os := getOperatingSystem e in
  if OperatingSystem_eqb os android || OperatingSystem_eqb os ios then mobile
  else if OperatingSystem_eqb os windows || OperatingSystem_eqb os macos then desktop
  else if OperatingSystem_eqb os linux_generic || OperatingSystem_eqb os ubuntu
          || OperatingSystem_eqb os debian || OperatingSystem_eqb os redhat
          || OperatingSystem_eqb os freebsd || OperatingSystem_eqb os openbsd
          || OperatingSystem_eqb os netbsd then server
  else env_unknown.

Definition getPlatformInfo (e : Env) : PlatformInfo :=
  let os := getOperatingSystem e in
  let env := getEnvironmentType e in
  let '(os_name, kernel_family) :=
    match os with
    | windows => ("Windows", "nt")
    | linux_generic => ("Linux", "posix")
    | ubuntu => ("Ubuntu", "posix")
    | debian => ("Debian", "posix")
    | redhat => ("Red Hat", "posix")
    | macos => ("macOS", "unix")
    | freebsd => ("FreeBSD", "unix")
    | openbsd => ("OpenBSD", "unix")
    | netbsd => ("NetBSD", "unix")
    | android => ("Android", "posix")
    | ios => ("iOS", "unix")
    | unknown => ("Unknown", "unknown")
    end in
  {| os := os; environment := env; os_name := os_name; kernel_family := kernel_family |}.

Definition hasPosixApi (e : Env) : bool :=
  if defined e "_POSIX_VERSION" then true
  else if defined e "__unix__" || defined e "__unix" || defined e "unix" then true
  else if defined e "__linux__" || defined e "__gnu_linux__" then true
  else if defined e "__APPLE__" && defined e "__MACH__" then true
  else if defined e "__FreeBSD__" || defined e "__OpenBSD__" || defined e "__NetBSD__"
  then true
  else if defined e "__ANDROID__" then true
  else false.

Definition hasWin32Api (e : Env) : bool :=
  if defined e "_WIN32" || defined e "_WIN64" then true
  else if defined e "__CYGWIN__" then true
  else false.

Definition supportsCaseSensitiveFilesystem (e : Env) : bool :=
  let os := getOperatingSystem e in
  if OperatingSystem_eqb os linux_generic || OperatingSystem_eqb os ubuntu
     || OperatingSystem_eqb os debian || OperatingSystem_eqb os redhat
     || OperatingSystem_eqb os freebsd || OperatingSystem_eqb os openbsd
     || OperatingSystem_eqb os netbsd || OperatingSystem_eqb os android then true
  else if OperatingSystem_eqb os windows || OperatingSystem_eqb os macos
          || OperatingSystem_eqb os ios then false
  else true.

(** The convenience macros at the end of the header, each defined to 1 or
    0 by its own preprocessor conditional. *)
Definition TRLC_PLATFORM_WINDOWS (e : Env) : Z :=
  if defined e "_WIN32" || defined e "_WIN64" || defined e "__CYGWIN__" then 1 else 0.

Definition TRLC_PLATFORM_LINUX (e : Env) : Z :=
  if defined e "__linux__" || defined e "__gnu_linux__" then 1 else 0.

Definition TRLC_PLATFORM_MACOS (e : Env) : Z :=
  if defined e "__APPLE__" && defined e "__MACH__" && negb (defined e "TARGET_OS_IPHONE")
  then 1 else 0.

Definition TRLC_PLATFORM_POSIX (e : Env) : Z :=
  if defined e "_POSIX_VERSION" || defined e "__unix__" || defined e "__unix"
     || defined e "unix" || defined e "__linux__" || defined e "__gnu_linux__"
     || (defined e "__APPLE__" && defined e "__MACH__")
     || defined e "__FreeBSD__" || defined e "__OpenBSD__" || defined e "__NetBSD__"
     || defined e "__ANDROID__"
  then 1 else 0.

Definition TRLC_PLATFORM_BSD (e : Env) : Z :=
  if defined e "__FreeBSD__" || defined e "__OpenBSD__" || defined e "__NetBSD__"
     || (defined e "__APPLE__" && defined e "__MACH__")
  then 1 else 0.

Definition TRLC_PLATFORM_UNIX (e : Env) : Z :=
  if negb (TRLC_PLATFORM_LINUX e =? 0) || negb (TRLC_PLATFORM_MACOS e =? 0)
     || negb (TRLC_PLATFORM_BSD e =? 0) || defined e "__ANDROID__"
  then 1 else 0.

Definition TRLC_PLATFORM_MOBILE (e : Env) : Z :=
  if defined e "__ANDROID__"
     || (defined e "__APPLE__" && defined e "TARGET_OS_IPHONE"
         && negb (pp_value e "TARGET_OS_IPHONE" =? 0))
  then 1 else 0.

Definition TRLC_PLATFORM_CASE_SENSITIVE_FS (e : Env) : Z :=
  if negb (TRLC_PLATFORM_UNIX e =? 0) && negb (negb (TRLC_PLATFORM_MACOS e =? 0))
  then 1 else 0.

End platform.

(** ** typeinfo.hpp *)

Module typeinfo.

(** [size_bits] is the width of [size_t] and of [uintptr_t], which the
    library takes to be the same; arithmetic on them is reduced modulo
    2^size_bits. *)
Section SizeT.
Variable size_bits : Z.

(** [~x] on the unsigned type. *)
Definition bit_not (x : Z) : Z := to_unsigned size_bits (Z.lnot x).

Definition alignedSize (size alignment : Z) : Z :=
  Z.land (to_unsigned size_bits (to_unsigned size_bits (size + alignment) - 1))
         (bit_not (to_unsigned size_bits (alignment - 1))).

Definition alignedAddress (addr alignment : Z) : Z :=
  Z.land (to_unsigned size_bits (to_unsigned size_bits (addr + alignment) - 1))
         (bit_not (to_unsigned size_bits (alignment - 1))).

Definition isAligned (addr alignment : Z) : bool :=
  Z.land addr (to_unsigned size_bits (alignment - 1)) =? 0.
End SizeT.

(** What [calculateTypePadding] asks of a type. *)
Record TypeTraits : Set := mkTypeTraits {
  type_size : Z;
  type_alignment : Z;
  is_fundamental : bool;
  is_pointer : bool;
  is_empty : bool
}.

Definition calculateTypePadding (T : TypeTraits) : Z :=
  if is_fundamental T || is_pointer T then 0
  else if is_empty T then 0
  else (type_alignment T - type_size T mod type_alignment T) mod type_alignment T.

Definition hasTypePadding (T : TypeTraits) : bool := 0 <? calculateTypePadding T.

Definition getCacheLineSize (e : Env) : Z :=
  if defined e "__x86_64__" || defined e "_M_X64" || defined e "__i386__"
     || defined e "_M_IX86" then 64
  else if defined e "__aarch64__" || defined e "_M_ARM64" || defined e "__arm__"
          || defined e "_M_ARM" then 64
  else if defined e "__powerpc__" || defined e "__ppc__" || defined e "__PPC__" then 128
  else 64.

Definition detectPageSize (e : Env) : Z :=
  if defined e "_WIN32" || defined e "_WIN64" then 4096
  else if defined e "__linux__" || defined e "__APPLE__" || defined e "__FreeBSD__"
          || defined e "__NetBSD__" || defined e "__OpenBSD__" then 4096
  else if defined e "__sparc__" then 8192
  else if defined e "__ia64__" then 16384
  else 4096.

Definition getPageSize (e : Env) : Z := detectPageSize e.

End typeinfo.

(** * Properties *)

(** ** Vocabulary of the statements *)

(** An environment signal is present. *)
Definition signal (e : Env) (m : string) : Prop := is_Some (e !! m).

(** Lexicographic order on (major, minor, patch). *)
Definition lex_lt (a b : compiler.CompilerVersion) : Prop :=
  compiler.major a < compiler.major b
  \/ (compiler.major a = compiler.major b
      /\ (compiler.minor a < compiler.minor b
          \/ (compiler.minor a = compiler.minor b
              /\ compiler.patch a < compiler.patch b))).

(** Exactly one of three booleans holds. *)
Definition exactly_one (x y z : bool) : Prop :=
  (x = true /\ y = false /\ z = false)
  \/ (x = false /\ y = true /\ z = false)
  \/ (x = false /\ y = false /\ z = true).

(** The language features introduced by C++20 whose function falls back to
    the detected standard. *)
Inductive Cpp20Feature : Set :=
| concepts
| coroutines
| ranges
| consteval
| constinit
| designated_initializers
| three_way_comparison.

Definition feature_function (long_bits : Z) (f : Cpp20Feature) : Env -> bool :=
  match f with
  | concepts => cpp_standard.hasConcepts long_bits
  | coroutines => cpp_standard.hasCoroutines long_bits
  | ranges => cpp_standard.hasRanges long_bits
  | consteval => cpp_standard.hasConsteval long_bits
  | constinit => cpp_standard.hasConstinit long_bits
  | designated_initializers => cpp_standard.hasDesignatedInitializers long_bits
  | three_way_comparison => cpp_standard.hasThreeWayComparison long_bits
  end.

(** [v] is a value of a [long] of [long_bits] bits. *)
Definition long_value (long_bits v : Z) : Prop :=
  0 < long_bits /\ - 2 ^ (long_bits - 1) <= v < 2 ^ (long_bits - 1).


(** The feature-test signals each function consults. *)
Definition feature_signals (f : Cpp20Feature) : list string :=
  match f with
  | concepts => ["__cpp_concepts"]
  | coroutines => ["__cpp_impl_coroutine"; "__cpp_coroutines"]
  | ranges => ["__cpp_lib_ranges"]
  | consteval => ["__cpp_consteval"]
  | constinit => ["__cpp_constinit"]
  | designated_initializers => ["__cpp_designated_initializers"]
  | three_way_comparison => ["__cpp_impl_three_way_comparison"]
  end.

Definition at_least_cpp20 (s : cpp_standard.CppStandard) : Prop :=
  s = cpp_standard.cpp_20 \/ s = cpp_standard.cpp_23 \/ s = cpp_standard.cpp_26.

(** The 64-bit variants and the plain variants of the architectures. *)
Definition is_64bit_variant (a : architecture.CpuArchitecture) : Prop :=
  a = architecture.x86_64 \/ a = architecture.arm_v8_64 \/ a = architecture.mips_64
  \/ a = architecture.powerpc_64 \/ a = architecture.risc_v_64 \/ a = architecture.sparc_64.

Definition is_plain_variant (a : architecture.CpuArchitecture) : Prop :=
  a = architecture.x86 \/ a = architecture.arm_v6 \/ a = architecture.arm_v7
  \/ a = architecture.arm_v8_32 \/ a = architecture.mips \/ a = architecture.powerpc
  \/ a = architecture.risc_v_32 \/ a = architecture.sparc.

(** The table of the CPU-identification query: leaf, sub-leaf, register
    index (0 = EAX, 1 = EBX, 2 = ECX, 3 = EDX) and bit of each feature that
    is probed this way. *)
Definition cpuid_table (f : features.RuntimeFeature) : option (Z * Z * Z * Z) :=
  match f with
  | features.sse => Some (1, 0, 3, 25)
  | features.sse2 => Some (1, 0, 3, 26)
  | features.sse3 => Some (1, 0, 2, 0)
  | features.sse4_1 => Some (1, 0, 2, 19)
  | features.sse4_2 => Some (1, 0, 2, 20)
  | features.avx => Some (1, 0, 2, 28)
  | features.avx2 => Some (7, 0, 1, 5)
  | features.avx512f => Some (7, 0, 1, 16)
  | features.hardware_aes => Some (1, 0, 2, 25)
  | features.hardware_random => Some (1, 0, 2, 30)
  | features.neon => None
  end.

Definition register (r : features.CpuidRegs) (index : Z) : Z :=
  if index =? 0 then features.eax r
  else if index =? 1 then features.ebx r
  else if index =? 2 then features.ecx r
  else features.edx r.

(** The x86 family as features.hpp recognises it, and the compilers for
    which its wrapper issues the query. *)
Definition x86_family (e : Env) : Prop :=
  signal e "__x86_64__" \/ signal e "__i386__" \/ signal e "_M_X64" \/ signal e "_M_IX86".

Definition cpuid_compiler (e : Env) : Prop :=
  signal e "_MSC_VER" \/ signal e "__GNUC__" \/ signal e "__clang__".

(** A processor that answers zero to every query. *)
Definition zero_cpu : features.Cpu := fun _ _ => features.mkCpuidRegs 0 0 0 0.

(** Some thread of the configuration stands at [pc]. *)
Definition some_thread_at (c : core.Config) (pc : core.Pc) : Prop :=
  exists i : nat, core.threads c !! i = Some pc.

(** An eight-bit byte. *)
Definition is_byte (b : Z) : Prop := 0 <= b < 256.

(** What holds of the flags while a call stands at [pc]: past the store into
    the done flag, the flag is set. *)
Definition past_store (pc : core.Pc) (fl : core.Flags) : Prop :=
  match pc with
  | core.clear_in_progress | core.returned => core.g_platform_initialized fl = true
  | _ => True
  end.

(** Every thread past its store sees the done flag set. *)
Definition settled (c : core.Config) : Prop :=
  forall (i : nat) (pc : core.Pc),
    core.threads c !! i = Some pc -> past_store pc (core.flags c).

(** The configuration a run ends in. *)
Fixpoint final (c : core.Config) (tr : list core.Config) : core.Config :=
  match tr with
  | [] => c
  | c' :: tr' => final c' tr'
  end.

(** The single signals that decide the byte order at compile time once
    neither named-constant triplet is complete. *)
Definition byte_order_flags : list string :=
  ["_WIN32"; "_WIN64"; "__LITTLE_ENDIAN__"; "__ARMEL__"; "__BIG_ENDIAN__"; "__ARMEB__";
   "__i386__"; "__x86_64__"; "__amd64__"; "_M_IX86"; "_M_X64"; "_M_AMD64";
   "__aarch64__"; "_M_ARM64"; "__sparc__"; "__sparc"; "__MIPSEB__"; "_POWER"].

Definition triplet_complete (e : Env) (order little big : string) : Prop :=
  signal e order /\ signal e little /\ signal e big.

(** The family signals of the architecture classifier. *)
Definition architecture_flags : list string :=
  ["__x86_64__"; "__x86_64"; "__amd64__"; "__amd64"; "_M_X64";
   "__i386__"; "__i386"; "__i486__"; "__i586__"; "__i686__"; "_M_IX86";
   "__aarch64__"; "_M_ARM64"; "__arm__"; "_M_ARM";
   "__mips__"; "__mips"; "__MIPS__";
   "__powerpc__"; "__powerpc"; "__ppc__"; "__ppc"; "_M_PPC";
   "__riscv"; "__sparc__"; "__sparc"].

(** No signal of an earlier family than the one named. *)
Definition no_x86_signal (e : Env) : Prop :=
  Forall (fun m => ~ signal e m)
    ["__x86_64__"; "__x86_64"; "__amd64__"; "__amd64"; "_M_X64";
     "__i386__"; "__i386"; "__i486__"; "__i586__"; "__i686__"; "_M_IX86"].

Definition no_arm_signal (e : Env) : Prop :=
  Forall (fun m => ~ signal e m) ["__aarch64__"; "_M_ARM64"; "__arm__"; "_M_ARM"].

Definition mips_signal (e : Env) : Prop :=
  signal e "__mips__" \/ signal e "__mips" \/ signal e "__MIPS__".

(** The single combined version integer of the vendors that have one:
    [__INTEL_COMPILER], or [_MSC_VER] when no Intel, Clang or GCC signal
    comes first. *)
Definition combined_version (e : Env) : option Z :=
  match e !! "__INTEL_COMPILER" with
  | Some v => Some v
  | None =>
      match e !! "__clang__", e !! "__GNUC__" with
      | None, None => e !! "_MSC_VER"
      | _, _ => None
      end
  end.

(** The three version macros hold [int] values. *)
Definition version_in_int_range (e : Env) : Prop :=
  INT_MIN <= compiler.TRLC_COMPILER_VERSION_MAJOR e <= INT_MAX
  /\ INT_MIN <= compiler.TRLC_COMPILER_VERSION_MINOR e <= INT_MAX
  /\ INT_MIN <= compiler.TRLC_COMPILER_VERSION_PATCH e <= INT_MAX.

(** The feature-test signals the language feature functions of
    cpp_standard.hpp consult before the detected standard. *)
Definition feature_test_signals : list string :=
  ["__cpp_concepts"; "__cpp_impl_coroutine"; "__cpp_coroutines"; "__cpp_modules";
   "__cpp_lib_ranges"; "__cpp_consteval"; "__cpp_constinit";
   "__cpp_designated_initializers"; "__cpp_impl_three_way_comparison";
   "__cpp_structured_bindings"; "__cpp_if_constexpr"; "__cpp_fold_expressions";
   "__cpp_inline_variables"].

Definition no_feature_test_signal (e : Env) : Prop :=
  Forall (fun m => ~ signal e m) feature_test_signals.

(** Two names agree on their first six characters. *)
Definition same_prefix6 (a b : string) : Prop :=
  forall i : nat, (i < 6)%nat -> char_at a i = char_at b i.

(** A call between its successful compare-exchange and the store that
    clears the in-progress flag. *)
Definition in_section (pc : core.Pc) : bool :=
  match pc with
  | core.mark_initialized | core.clear_in_progress => true
  | _ => false
  end.

(** Thread [i] is in that section. *)
Definition holds (thr : list core.Pc) (i : nat) : Prop :=
  exists pc : core.Pc, thr !! i = Some pc /\ in_section pc = true.

(** Every call has returned. *)
Definition all_returned (c : core.Config) : Prop :=
  forall (i : nat) (pc : core.Pc), core.threads c !! i = Some pc -> pc = core.returned.

(** One atomic operation of thread [i]. *)
Definition exec (c : core.Config) (i : nat) : core.Config :=
  match core.threads c !! i with
  | Some pc =>
      let '(fl', pc') := core.step (core.flags c) pc in
      {| core.flags := fl'; core.threads := <[i := pc']> (core.threads c) |}
  | None => c
  end.

(** Thread [i] scheduled alone until its call returns, for at most [fuel]
    operations. *)
Fixpoint solo (fuel : nat) (c : core.Config) (i : nat) : list core.Config :=
  match fuel with
  | O => []
  | S fuel' =>
      match core.threads c !! i with
      | Some core.returned | None => []
      | Some _ => exec c i :: solo fuel' (exec c i) i
      end
  end.

(** At most one thread is in the section, and the in-progress flag says
    whether one is. *)
Definition mutex (c : core.Config) : Prop :=
  (forall i j : nat, holds (core.threads c) i -> holds (core.threads c) j -> i = j)
  /\ (core.g_initialization_in_progress (core.flags c) = true
      <-> exists i : nat, holds (core.threads c) i).

(** A thread waits in the loop only while the section is taken or after
    the done flag is set. *)
Definition spin_guard (c : core.Config) : Prop :=
  some_thread_at c core.spin_wait ->
  core.g_platform_initialized (core.flags c) = true
  \/ core.g_initialization_in_progress (core.flags c) = true.

(** What every reachable configuration satisfies. *)
Definition reachable_invariant (c : core.Config) : Prop :=
  mutex c /\ settled c /\ spin_guard c.

(** ** Reading the macro table *)

Lemma defined_true (e : Env) (m : string) : defined e m = true <-> signal e m.
Proof.
  unfold defined, signal. destruct (e !! m) as [v|]; split; intros H.
  - eexists; reflexivity.
  - reflexivity.
  - discriminate.
  - destruct H as [v Hv]; discriminate.
Qed.

Lemma defined_false (e : Env) (m : string) : defined e m = false <-> ~ signal e m.
Proof.
  rewrite <- defined_true. destruct (defined e m); split; congruence.
Qed.

Lemma defined_Some (e : Env) (m : string) (v : Z) :
  e !! m = Some v -> defined e m = true /\ pp_value e m = v.
Proof. unfold defined, pp_value. intros ->. split; reflexivity. Qed.

(** Case analysis on every [defined e m] of the goal, keeping the facts in
    the vocabulary of the statements. *)
Ltac split_defined e :=
  repeat match goal with
  | |- context [defined e ?m] =>
      let H := fresh "Hd" in
      destruct (defined e m) eqn:H;
      [ apply defined_true in H | apply defined_false in H ]
  end.

(** ** The model at work *)

(** A little-endian x86-64 build, as GCC announces it. *)
Example scenario_x86_64 :
  let e : Env := {[ "__x86_64__" := 1; "__BYTE_ORDER__" := 1234;
                    "__ORDER_LITTLE_ENDIAN__" := 1234; "__ORDER_BIG_ENDIAN__" := 4321 ]} in
  architecture.getCpuArchitecture e = architecture.x86_64
  /\ architecture.getPointerSize e 8 = 64
  /\ endianness.getByteOrder e = Some endianness.little_endian
  /\ architecture.cache_line_size <$> architecture.getArchitectureInfo e 8 = Some 64
  /\ (info ← endianness.getEndiannessInfo e;
      Some (endianness.needsByteSwap info endianness.big_endian)) = Some true.
Proof. vm_compute. repeat split. Qed.

Example version_gate :
  compiler.ge (compiler.mkCompilerVersion 9 0 0) (compiler.mkCompilerVersion 7 0 0) = true.
Proof. reflexivity. Qed.

Example convert_little_to_big :
  endianness.convertByteOrder ∅ (fun _ => false) (endianness.mkIntegralType 4 false)
    0x12345678 endianness.little_endian endianness.big_endian = Some 0x78563412
  /\ endianness.convertByteOrder ∅ (fun _ => false) (endianness.mkIntegralType 4 false)
       0x12345678 endianness.little_endian endianness.little_endian = Some 0x12345678.
Proof. vm_compute. split; reflexivity. Qed.

(** A signed 16-bit value goes through the unsigned swap and back. *)
Example swap_int16 :
  endianness.byteSwap ∅ (fun _ => false) (endianness.mkIntegralType 2 true) 1
    = Some 256
  /\ endianness.byteSwap ∅ (fun _ => false) (endianness.mkIntegralType 2 true) 128
     = Some (-32768).
Proof. vm_compute. split; reflexivity. Qed.

(** ** compiler.hpp *)

Section CompilerType.
Import compiler.
Variable e : Env.

Let intel : Prop :=
  signal e "__INTEL_COMPILER" \/ signal e "__ICL" \/ signal e "__ICC".
Let mingw_signal : Prop := signal e "__MINGW32__" \/ signal e "__MINGW64__".

(** C1: the vendor is resolved in the order Intel, Clang, GCC, MSVC.  With
    an Intel signal the result is intel_llvm or intel_classic according to
    the Clang signal; otherwise a Clang signal gives clang; otherwise a GCC
    signal gives mingw or gcc according to the MinGW signals; otherwise an
    MSVC signal gives msvc; otherwise unknown.  Clang together with GCC and
    no Intel signal is clang, never gcc. *)
Theorem getCompilerType_disambiguation :
  (intel /\ signal e "__clang__" -> getCompilerType e = intel_llvm)
  /\ (intel /\ ~ signal e "__clang__" -> getCompilerType e = intel_classic)
  /\ (~ intel /\ signal e "__clang__" -> getCompilerType e = clang)
  /\ (~ intel /\ ~ signal e "__clang__" /\ signal e "__GNUC__" /\ mingw_signal ->
      getCompilerType e = mingw)
  /\ (~ intel /\ ~ signal e "__clang__" /\ signal e "__GNUC__" /\ ~ mingw_signal ->
      getCompilerType e = gcc)
  /\ (~ intel /\ ~ signal e "__clang__" /\ ~ signal e "__GNUC__"
      /\ signal e "_MSC_VER" -> getCompilerType e = msvc)
  /\ (~ intel /\ ~ signal e "__clang__" /\ ~ signal e "__GNUC__"
      /\ ~ signal e "_MSC_VER" -> getCompilerType e = unknown)
  /\ (~ intel /\ signal e "__clang__" /\ signal e "__GNUC__" ->
      getCompilerType e = clang /\ getCompilerType e <> gcc).
Proof.
  subst intel mingw_signal. unfold getCompilerType.
  split_defined e; cbn [orb]; repeat split; intros; try reflexivity;
    try discriminate; exfalso; tauto.
Qed.
End CompilerType.

Lemma getCompilerType_disambiguation_witness :
  compiler.getCompilerType {[ "__clang__" := 1; "__GNUC__" := 4 ]} = compiler.clang
  /\ compiler.getCompilerType {[ "__clang__" := 1; "__GNUC__" := 4 ]} <> compiler.gcc.
Proof.
  apply (getCompilerType_disambiguation {[ "__clang__" := 1; "__GNUC__" := 4 ]}).
  unfold signal. repeat split; try (vm_compute; eauto; fail).
  intros [H|[H|H]]; vm_compute in H; destruct H; discriminate.
Defined.

Lemma to_int_id (z : Z) : INT_MIN <= z <= INT_MAX -> to_int z = z.
Proof.
  unfold to_int, to_signed, INT_MIN, INT_MAX. intros H.
  rewrite Z.mod_small; lia.
Qed.

Lemma to_long_id (long_bits z : Z) :
  long_value long_bits z -> cpp_standard.to_long long_bits z = z.
Proof.
  intros [Hw Hz]. unfold cpp_standard.to_long, to_signed.
  assert (2 ^ long_bits = 2 * 2 ^ (long_bits - 1)) as Hp.
  { rewrite <- Z.pow_succ_r by lia. f_equal. lia. }
  rewrite Z.mod_small; lia.
Qed.

Lemma CompilerVersion_ctor_id (maj min pat : Z) :
  INT_MIN <= maj <= INT_MAX -> INT_MIN <= min <= INT_MAX -> INT_MIN <= pat <= INT_MAX ->
  compiler.CompilerVersion_ctor maj min pat = compiler.mkCompilerVersion maj min pat.
Proof.
  intros H1 H2 H3. unfold compiler.CompilerVersion_ctor.
  rewrite !to_int_id by assumption. reflexivity.
Qed.

Section CompilerVersion.
Import compiler.

(** C4: with [_MSC_VER] = m (an [int]) and no Intel, Clang or GCC signal,
    the version is (19, 4, m-1940) from 1940 on, (19, 3, m-1930) from
    1930, (19, 2, m-1920) from 1920, (19, 1, m-1910) from 1910,
    (19, 0, m-1900) from 1900, and the digit split
    (m/100, (m%100)/10, m%10) below 1900; with no vendor signal at all it
    is (0, 0, 0). *)
Theorem getCompilerVersion_msvc (e : Env) :
  (forall m : Z,
      ~ signal e "__INTEL_COMPILER" -> ~ signal e "__ICL" -> ~ signal e "__ICC" ->
      ~ signal e "__clang__" -> ~ signal e "__GNUC__" ->
      e !! "_MSC_VER" = Some m -> INT_MIN <= m <= INT_MAX ->
      (1940 <= m -> getCompilerVersion e = mkCompilerVersion 19 4 (m - 1940))
      /\ (1930 <= m < 1940 -> getCompilerVersion e = mkCompilerVersion 19 3 (m - 1930))
      /\ (1920 <= m < 1930 -> getCompilerVersion e = mkCompilerVersion 19 2 (m - 1920))
      /\ (1910 <= m < 1920 -> getCompilerVersion e = mkCompilerVersion 19 1 (m - 1910))
      /\ (1900 <= m < 1910 -> getCompilerVersion e = mkCompilerVersion 19 0 (m - 1900))
      /\ (m < 1900 ->
          getCompilerVersion e = mkCompilerVersion (m ÷ 100) (Z.rem m 100 ÷ 10) (Z.rem m 10)))
  /\ (getCompilerType e = unknown -> getCompilerVersion e = mkCompilerVersion 0 0 0).
Proof.
  split.
  - intros m Hi _ _ Hc Hg Hm Hr. apply defined_false in Hi, Hc, Hg.
    apply defined_Some in Hm as [Hd Hv].
    unfold getCompilerVersion. rewrite Hi, Hc, Hg, Hd, Hv.
    unfold INT_MIN, INT_MAX in Hr.
    repeat split; intros Hm;
      repeat match goal with
      | |- context [?a <=? m] =>
          first [ rewrite (proj2 (Z.leb_le a m)) by lia
                | rewrite (proj2 (Z.leb_gt a m)) by lia ]
      end;
      apply CompilerVersion_ctor_id; unfold INT_MIN, INT_MAX;
      Z.to_euclidean_division_equations; lia.
  - unfold getCompilerType, getCompilerVersion.
    split_defined e; cbn [orb]; try discriminate. reflexivity.
Qed.
End CompilerVersion.

(** Settles [~ signal e m] and [signal e m] on a concrete table. *)
Ltac absent := let H := fresh in unfold signal; intros [? H]; vm_compute in H; discriminate.
Ltac present := unfold signal; vm_compute; eexists; reflexivity.

Lemma getCompilerVersion_msvc_witness :
  compiler.getCompilerVersion {[ "_MSC_VER" := 1935 ]} = compiler.mkCompilerVersion 19 3 (1935 - 1930)
  /\ compiler.getCompilerVersion {[ "_MSC_VER" := 1800 ]} = compiler.mkCompilerVersion 18 0 0
  /\ compiler.getCompilerVersion ∅ = compiler.mkCompilerVersion 0 0 0.
Proof.
  split; [|split].
  - destruct (getCompilerVersion_msvc {[ "_MSC_VER" := 1935 ]}) as [H _].
    refine (proj1 (proj2 (H 1935 _ _ _ _ _ _ _)) _);
      [absent | absent | absent | absent | absent | reflexivity
      | unfold INT_MIN, INT_MAX; lia | lia].
  - destruct (getCompilerVersion_msvc {[ "_MSC_VER" := 1800 ]}) as [H _].
    refine (proj2 (proj2 (proj2 (proj2 (proj2 (H 1800 _ _ _ _ _ _ _))))) _);
      [absent | absent | absent | absent | absent | reflexivity
      | unfold INT_MIN, INT_MAX; lia | lia].
  - apply (getCompilerVersion_msvc ∅). reflexivity.
Defined.

(** Case analysis on the integer comparisons of the goal. *)
Ltac split_cmp :=
  repeat match goal with
  | |- context [?x =? ?y] => destruct (Z.eqb_spec x y)
  | |- context [?x <? ?y] => destruct (Z.ltb_spec x y)
  | |- context [?x <=? ?y] => destruct (Z.leb_spec x y)
  | H : context [?x =? ?y] |- _ => destruct (Z.eqb_spec x y)
  | H : context [?x <? ?y] |- _ => destruct (Z.ltb_spec x y)
  | H : context [?x <=? ?y] |- _ => destruct (Z.leb_spec x y)
  end.

Section CompilerVersionOrder.
Import compiler.

Lemma lt_lex (a b : CompilerVersion) : lt a b = true <-> lex_lt a b.
Proof.
  unfold lt, lex_lt. split_cmp; cbn [negb]; split; intros Hyp; try reflexivity;
    try discriminate; lia.
Qed.

Lemma eq_iff (a b : CompilerVersion) : eq a b = true <-> a = b.
Proof.
  destruct a as [a1 a2 a3], b as [b1 b2 b3]. unfold eq; cbn [major minor patch].
  split_cmp; cbn [andb]; split; intros Hyp; try reflexivity; try discriminate;
    try congruence.
Qed.

Lemma gt_lex (a b : CompilerVersion) : gt a b = true <-> lex_lt b a.
Proof.
  unfold gt, lt, eq, lex_lt. split_cmp; cbn [negb andb]; split; intros Hyp;
    try reflexivity; try discriminate; lia.
Qed.

Lemma lex_lt_trans (a b c : CompilerVersion) : lex_lt a b -> lex_lt b c -> lex_lt a c.
Proof. unfold lex_lt. lia. Qed.

Lemma trichotomy (a b : CompilerVersion) : exactly_one (lt a b) (eq a b) (gt a b).
Proof.
  unfold exactly_one, gt, lt, eq. split_cmp; cbn [negb andb]; try tauto; lia.
Qed.

(** C5: the six comparison operators form a strict total order that is
    the lexicographic order on (major, minor, patch): exactly one of
    a<b, a==b, a>b holds; a>=b iff not a<b; a<=b iff a<b or a==b; a!=b iff
    not a==b; < is transitive; and {10,2,1} > {10,2,0},
    {10,2,1} == {10,2,1}, {9,5,2} < {10,2,1}. *)
Theorem CompilerVersion_total_order (a b c : CompilerVersion) :
  exactly_one (lt a b) (eq a b) (gt a b)
  /\ (lt a b = true <-> lex_lt a b)
  /\ (eq a b = true <-> a = b)
  /\ (gt a b = true <-> lex_lt b a)
  /\ ge a b = negb (lt a b)
  /\ le a b = lt a b || eq a b
  /\ ne a b = negb (eq a b)
  /\ (lt a b = true -> lt b c = true -> lt a c = true)
  /\ (le a b = true -> le b c = true -> le a c = true)
  /\ gt (mkCompilerVersion 10 2 1) (mkCompilerVersion 10 2 0) = true
  /\ eq (mkCompilerVersion 10 2 1) (mkCompilerVersion 10 2 1) = true
  /\ lt (mkCompilerVersion 9 5 2) (mkCompilerVersion 10 2 1) = true.
Proof.
  split; [apply trichotomy|].
  split; [apply lt_lex|].
  split; [apply eq_iff|].
  split; [apply gt_lex|].
  split; [unfold ge, lt; split_cmp; cbn [negb]; try reflexivity; lia|].
  split; [reflexivity|].
  split; [reflexivity|].
  split.
  { rewrite !lt_lex. apply lex_lt_trans. }
  split.
  { unfold le. rewrite !orb_true_iff, !lt_lex, !eq_iff.
    intros [H1| ->] [H2| ->]; try tauto.
    left. eapply lex_lt_trans; eassumption. }
  repeat split.
Qed.
End CompilerVersionOrder.

Lemma CompilerVersion_total_order_witness :
  compiler.lt (compiler.mkCompilerVersion 7 0 0) (compiler.mkCompilerVersion 10 2 1) = true.
Proof.
  destruct (CompilerVersion_total_order (compiler.mkCompilerVersion 7 0 0)
              (compiler.mkCompilerVersion 9 5 2) (compiler.mkCompilerVersion 10 2 1))
    as (_ & _ & _ & _ & _ & _ & _ & Htrans & _).
  apply Htrans; reflexivity.
Defined.

(** ** cpp_standard.hpp *)

Section CppStandard.
Import cpp_standard.
Variable long_bits : Z.

(** C2: with v the language-version signal ([_MSVC_LANG] when defined,
    else [__cplusplus], else 0), a value of [long], the standard is cpp_26
    from 202600 on, else cpp_23 from 202302, else cpp_20 from 202002, else
    cpp_17 from 201703, else cpp_pre_17 from 199711, else cpp_unknown. *)
Theorem getCppStandard_thresholds (e : Env) (v : Z) :
  e !! "_MSVC_LANG" = Some v
  \/ (e !! "_MSVC_LANG" = None /\ e !! "__cplusplus" = Some v)
  \/ (e !! "_MSVC_LANG" = None /\ e !! "__cplusplus" = None /\ v = 0) ->
  long_value long_bits v ->
  getCppVersionMacroValue long_bits e = v
  /\ (202600 <= v -> getCppStandard long_bits e = cpp_26)
  /\ (202302 <= v < 202600 -> getCppStandard long_bits e = cpp_23)
  /\ (202002 <= v < 202302 -> getCppStandard long_bits e = cpp_20)
  /\ (201703 <= v < 202002 -> getCppStandard long_bits e = cpp_17)
  /\ (199711 <= v < 201703 -> getCppStandard long_bits e = cpp_pre_17)
  /\ (v < 199711 -> getCppStandard long_bits e = cpp_unknown).
Proof.
  intros Hv Hlong.
  assert ((if defined e "_MSVC_LANG" then to_long long_bits (pp_value e "_MSVC_LANG")
           else if defined e "__cplusplus" then to_long long_bits (pp_value e "__cplusplus")
           else 0) = v)
    as Hsig.
  { unfold defined, pp_value.
    destruct Hv as [-> | [[-> ->] | (-> & -> & ->)]];
      try reflexivity; apply to_long_id; exact Hlong. }
  unfold getCppStandard, detectCppStandard, getCppVersionMacroValue.
  rewrite Hsig. clear Hsig Hv. split; [reflexivity|].
  repeat split; intros Hr; split_cmp; cbn [orb]; try reflexivity; lia.
Qed.

Lemma standard_below_cpp20 (e : Env) :
  getCppStandard long_bits e = cpp_17 ->
  CppStandard_ge (getCppStandard long_bits e) cpp_20 = false.
Proof. intros ->. reflexivity. Qed.

Lemma standard_at_least_cpp20 (e : Env) :
  at_least_cpp20 (getCppStandard long_bits e) ->
  CppStandard_ge (getCppStandard long_bits e) cpp_20 = true.
Proof. intros [-> | [-> | ->]]; reflexivity. Qed.

(** C3, as the code has it: for concepts, coroutines, ranges, consteval,
    constinit, designated initializers and three-way comparison, with no
    feature-test signal of the feature present, the function is true when
    the detected standard is at least C++20 and false when it is exactly
    C++17.  Modules are not inferred from the standard: without
    [__cpp_modules] hasModules is false whatever the standard, and with it
    the signal alone decides. *)
Theorem cpp20_features_follow_standard (e : Env) :
  (forall f : Cpp20Feature,
      Forall (fun m => ~ signal e m) (feature_signals f) ->
      (at_least_cpp20 (getCppStandard long_bits e) -> feature_function long_bits f e = true)
      /\ (getCppStandard long_bits e = cpp_17 -> feature_function long_bits f e = false))
  /\ (~ signal e "__cpp_modules" -> hasModules e = false)
  /\ (forall v, e !! "__cpp_modules" = Some v -> hasModules e = (201907 <=? v)).
Proof.
  split; [|split].
  - intros f Hsig.
    assert (feature_function long_bits f e
            = CppStandard_ge (getCppStandard long_bits e) cpp_20) as ->.
    { destruct f; cbn in Hsig |- *;
        repeat match goal with
        | H : Forall _ (_ :: _) |- _ => apply Forall_cons_1 in H as [?%defined_false H]
        end;
        unfold hasConcepts, hasCoroutines, hasRanges, hasConsteval, hasConstinit,
          hasDesignatedInitializers, hasThreeWayComparison;
        repeat match goal with H : defined e _ = false |- _ => rewrite H; clear H end;
        reflexivity. }
    split; [apply standard_at_least_cpp20 | apply standard_below_cpp20].
  - intros H%defined_false. unfold hasModules. rewrite H. reflexivity.
  - intros v [Hd Hv]%defined_Some. unfold hasModules. rewrite Hd, Hv. reflexivity.
Qed.

(** C3, refuted as stated: at C++20 with no [__cpp_modules] signal,
    hasModules is false. *)
Lemma hasModules_not_inferred :
  getCppStandard 64 {[ "__cplusplus" := 202002 ]} = cpp_20
  /\ getCppStandard 32 {[ "__cplusplus" := 202002 ]} = cpp_20
  /\ ~ signal {[ "__cplusplus" := 202002 ]} "__cpp_modules"
  /\ hasModules {[ "__cplusplus" := 202002 ]} = false.
Proof. split; [|split; [|split]]; [reflexivity | reflexivity | absent | reflexivity]. Qed.
End CppStandard.

(** A version value outside [long] wraps before it is compared: with a
    64-bit [long], 2^63 is stored as the least value of the type. *)
Example version_outside_long :
  cpp_standard.getCppVersionMacroValue 64 {[ "_MSVC_LANG" := 2 ^ 63 ]} = - 2 ^ 63
  /\ cpp_standard.getCppStandard 64 {[ "_MSVC_LANG" := 2 ^ 63 ]} = cpp_standard.cpp_unknown.
Proof. vm_compute. split; reflexivity. Qed.

Lemma getCppStandard_thresholds_witness :
  cpp_standard.getCppStandard 64 {[ "__cplusplus" := 201703 ]} = cpp_standard.cpp_17.
Proof.
  refine (proj1 (proj2 (proj2 (proj2 (proj2
    (getCppStandard_thresholds 64 {[ "__cplusplus" := 201703 ]} 201703 _ _))))) _).
  - right; left. split; reflexivity.
  - unfold long_value. lia.
  - lia.
Defined.

Lemma cpp20_features_follow_standard_witness :
  cpp_standard.hasConcepts 64 {[ "__cplusplus" := 202002 ]} = true
  /\ cpp_standard.hasConcepts 64 {[ "__cplusplus" := 201703 ]} = false.
Proof.
  split.
  - refine (proj1 (proj1 (cpp20_features_follow_standard 64 {[ "__cplusplus" := 202002 ]})
                     concepts _) _).
    + repeat constructor. absent.
    + left. reflexivity.
  - refine (proj2 (proj1 (cpp20_features_follow_standard 64 {[ "__cplusplus" := 201703 ]})
                     concepts _) _).
    + repeat constructor. absent.
    + reflexivity.
Defined.

(** ** architecture.hpp *)

Section PointerSize.
Import architecture.

Lemma detectPointerSize_known (e : Env) (sizeof_void_ptr : Z) :
  detectCpuArchitecture e <> unknown ->
  detectPointerSize e sizeof_void_ptr = 32 \/ detectPointerSize e sizeof_void_ptr = 64.
Proof.
  unfold detectPointerSize. destruct (detectCpuArchitecture e); intros H;
    solve [congruence | left; reflexivity | right; reflexivity].
Qed.

(** Where the documented pointer widths hold: the 64-bit variants give 64
    and the plain variants 32; an unknown architecture gives eight times
    the pointer size in bytes.  The width is 32 or 64, and is64Bit differs
    from is32Bit, whenever the architecture is detected or the pointer is 4
    or 8 bytes wide. *)
Lemma pointer_size_consistency (e : Env) (sizeof_void_ptr : Z) (info : ArchitectureInfo) :
  getArchitectureInfo e sizeof_void_ptr = Some info ->
  (is_64bit_variant (architecture info) -> pointer_size_bits info = 64)
  /\ (is_plain_variant (architecture info) -> pointer_size_bits info = 32)
  /\ (architecture info = unknown -> INT_MIN <= sizeof_void_ptr * 8 <= INT_MAX ->
      pointer_size_bits info = sizeof_void_ptr * 8)
  /\ (architecture info <> unknown \/ sizeof_void_ptr = 4 \/ sizeof_void_ptr = 8 ->
      (pointer_size_bits info = 32 \/ pointer_size_bits info = 64)
      /\ is64Bit info <> is32Bit info).
Proof.
  unfold getArchitectureInfo. destruct (endianness.getByteOrder e) as [order|];
    [|discriminate]. intros [= <-].
  unfold is64Bit, is32Bit, is_64bit_variant, is_plain_variant.
  cbn [architecture pointer_size_bits].
  split; [|split; [|split]].
  - unfold detectPointerSize. intros H.
    destruct (detectCpuArchitecture e); try reflexivity;
      repeat (destruct H as [H|H]; try discriminate); discriminate.
  - unfold detectPointerSize. intros H.
    destruct (detectCpuArchitecture e); try reflexivity;
      repeat (destruct H as [H|H]; try discriminate); discriminate.
  - unfold detectPointerSize. intros -> Hr. apply to_int_id. exact Hr.
  - intros H.
    assert (detectPointerSize e sizeof_void_ptr = 32
            \/ detectPointerSize e sizeof_void_ptr = 64) as Hw.
    { destruct H as [Hk|Hs]; [apply detectPointerSize_known; exact Hk|].
      unfold detectPointerSize.
      destruct (detectCpuArchitecture e);
        try solve [left; reflexivity | right; reflexivity].
      destruct Hs as [-> | ->]; [left | right]; reflexivity. }
    split; [exact Hw|]. destruct Hw as [-> | ->]; discriminate.
Qed.

(** C6: the code at the failing input.  On a target that the architecture
    classifier does not know and whose pointers are two bytes wide, as GCC
    for MSP430 announces it, getArchitectureInfo reports a pointer width
    of 16: the width is neither 32 nor 64, and is64Bit and is32Bit are both
    false. *)
Theorem pointer_size_16 :
  let e : Env := {[ "__MSP430__" := 1; "__BYTE_ORDER__" := 1234;
                    "__ORDER_LITTLE_ENDIAN__" := 1234; "__ORDER_BIG_ENDIAN__" := 4321 ]} in
  exists info : ArchitectureInfo,
    getArchitectureInfo e 2 = Some info
    /\ architecture info = unknown
    /\ pointer_size_bits info = 16
    /\ is64Bit info = false /\ is32Bit info = false
    /\ getPointerSize e 2 = 16.
Proof.
  cbv zeta. eexists. split; [vm_compute; reflexivity|]. repeat split.
Qed.
End PointerSize.

(** An x86-64 build, and a 64-bit target the classifier does not know, as
    GCC for s390x announces it. *)
Example pointer_size_consistency_at_work :
  architecture.pointer_size_bits
    <$> architecture.getArchitectureInfo {[ "__x86_64__" := 1 ]} 8 = Some 64
  /\ (forall info,
         architecture.getArchitectureInfo
           {[ "__s390x__" := 1; "__BYTE_ORDER__" := 4321;
              "__ORDER_LITTLE_ENDIAN__" := 1234; "__ORDER_BIG_ENDIAN__" := 4321 ]} 8
         = Some info ->
         architecture.is64Bit info <> architecture.is32Bit info).
Proof.
  split; [reflexivity|]. intros info Hinfo.
  refine (proj2 (proj2 (proj2 (proj2 (pointer_size_consistency _ 8 info Hinfo))) _)).
  right; right. reflexivity.
Qed.

(** ** features.hpp *)

Section RuntimeFeatures.
Import features.

Lemma land_pow2_testbit (r b : Z) :
  0 <= b -> (Z.land r (2 ^ b) =? 0) = negb (Z.testbit r b).
Proof.
  intros Hb.
  assert (Z.land r (2 ^ b) = if Z.testbit r b then 2 ^ b else 0) as ->.
  { apply Z.bits_inj'. intros i Hi.
    rewrite Z.land_spec, Z.pow2_bits_eqb by lia.
    destruct (Z.eqb_spec b i) as [<- | Hne].
    - destruct (Z.testbit r b); [|rewrite Z.bits_0; reflexivity].
      rewrite Z.pow2_bits_true by lia. reflexivity.
    - rewrite andb_false_r.
      destruct (Z.testbit r b); [|rewrite Z.bits_0; reflexivity].
      rewrite Z.pow2_bits_false by lia. reflexivity. }
  destruct (Z.testbit r b); cbn [negb]; [|reflexivity].
  apply Z.eqb_neq. pose proof (Z.pow_pos_nonneg 2 b). lia.
Qed.

Lemma x86_family_intrinsics (e : Env) :
  TRLC_HAS_X86_INTRINSICS e = true <-> x86_family e.
Proof.
  unfold TRLC_HAS_X86_INTRINSICS, x86_family.
  rewrite !orb_true_iff, !defined_true. tauto.
Qed.

Lemma cpuid_issued (e : Env) (cpu : Cpu) (leaf subleaf : Z) :
  cpuid_compiler e ->
  cpuid e cpu leaf subleaf =
    [eax (cpu leaf subleaf); ebx (cpu leaf subleaf);
     ecx (cpu leaf subleaf); edx (cpu leaf subleaf)].
Proof.
  unfold cpuid_compiler, cpuid. intros H.
  split_defined e; cbn [orb]; try reflexivity. tauto.
Qed.

Lemma cpuid_not_issued (e : Env) (cpu : Cpu) (leaf subleaf : Z) :
  ~ cpuid_compiler e -> cpuid e cpu leaf subleaf = [0; 0; 0; 0].
Proof.
  unfold cpuid_compiler, cpuid. intros H.
  split_defined e; cbn [orb]; try reflexivity; tauto.
Qed.

Lemma checkCpuFeature_bit (e : Env) (cpu : Cpu) (leaf subleaf reg bit : Z) :
  cpuid_compiler e -> 0 <= reg <= 3 -> 0 <= bit < 32 ->
  checkCpuFeature e cpu leaf subleaf reg bit = Z.testbit (register (cpu leaf subleaf) reg) bit.
Proof.
  intros Hc Hreg Hbit. unfold checkCpuFeature. rewrite cpuid_issued by exact Hc.
  rewrite Z.shiftl_1_l. unfold to_unsigned.
  rewrite (Z.mod_small (2 ^ bit)).
  2:{ split; [apply Z.pow_nonneg; lia | apply Z.pow_lt_mono_r; lia]. }
  rewrite land_pow2_testbit, negb_involutive by lia.
  assert (reg = 0 \/ reg = 1 \/ reg = 2 \/ reg = 3) as [-> | [-> | [-> | ->]]] by lia;
    reflexivity.
Qed.

Lemma checkCpuFeature_no_query (e : Env) (cpu : Cpu) (leaf subleaf reg bit : Z) :
  ~ cpuid_compiler e -> checkCpuFeature e cpu leaf subleaf reg bit = false.
Proof.
  intros Hc. unfold checkCpuFeature. rewrite cpuid_not_issued by exact Hc.
  assert (nth (Z.to_nat reg) [0; 0; 0; 0] 0 = 0) as ->.
  { destruct (Z.to_nat reg) as [|[|[|[|[|n]]]]]; reflexivity. }
  rewrite Z.land_0_l. reflexivity.
Qed.

(** C9, as the code has it: for each feature of the table, on the x86
    family with a compiler whose query intrinsic the wrapper knows (MSVC,
    GCC, Clang) the function is the table's bit of the table's register of
    the processor's answer; on the x86 family without such a compiler it is
    false; outside the x86 family every function but hasHardwareAes is
    false, and hasHardwareAes is true exactly when the ARM intrinsics are
    on ([__ARM_NEON] or [__aarch64__]) and [__ARM_FEATURE_AES] is
    defined. *)
Theorem runtime_feature_table (e : Env) (cpu : Cpu) (f : RuntimeFeature)
    (leaf subleaf reg bit : Z) :
  cpuid_table f = Some (leaf, subleaf, reg, bit) ->
  (x86_family e -> cpuid_compiler e ->
   hasRuntimeFeature e cpu f = Z.testbit (register (cpu leaf subleaf) reg) bit)
  /\ (x86_family e -> ~ cpuid_compiler e -> hasRuntimeFeature e cpu f = false)
  /\ (~ x86_family e -> f <> hardware_aes -> hasRuntimeFeature e cpu f = false)
  /\ (~ x86_family e -> f = hardware_aes ->
      (hasRuntimeFeature e cpu f = true <->
       (signal e "__ARM_NEON" \/ signal e "__aarch64__") /\ signal e "__ARM_FEATURE_AES")).
Proof.
  intros Ht. split; [|split; [|split]].
  - intros Hx%x86_family_intrinsics Hc.
    destruct f; cbn in Ht; inversion Ht; subst;
      cbn [hasRuntimeFeature];
      unfold hasSseSupport, hasSse2Support, hasSse3Support, hasSse41Support,
        hasSse42Support, hasAvxSupport, hasAvx2Support, hasAvx512fSupport,
        hasHardwareAes, hasHardwareRandom;
      rewrite Hx; apply checkCpuFeature_bit; solve [exact Hc | lia].
  - intros Hx%x86_family_intrinsics Hc.
    destruct f; cbn in Ht; inversion Ht; subst;
      cbn [hasRuntimeFeature];
      unfold hasSseSupport, hasSse2Support, hasSse3Support, hasSse41Support,
        hasSse42Support, hasAvxSupport, hasAvx2Support, hasAvx512fSupport,
        hasHardwareAes, hasHardwareRandom;
      rewrite Hx; apply checkCpuFeature_no_query; exact Hc.
  - intros Hx Hf. rewrite <- x86_family_intrinsics in Hx.
    apply not_true_is_false in Hx.
    destruct f; try congruence; cbn [hasRuntimeFeature];
      unfold hasSseSupport, hasSse2Support, hasSse3Support, hasSse41Support,
        hasSse42Support, hasAvxSupport, hasAvx2Support, hasAvx512fSupport,
        hasHardwareRandom;
      try (rewrite Hx; reflexivity).
    discriminate Ht.
  - intros Hx ->. rewrite <- x86_family_intrinsics in Hx.
    apply not_true_is_false in Hx.
    cbn [hasRuntimeFeature]. unfold hasHardwareAes, TRLC_HAS_ARM_INTRINSICS.
    rewrite Hx. rewrite <- !defined_true, <- orb_true_iff, <- andb_true_iff.
    destruct ((defined e "__ARM_NEON" || defined e "__aarch64__")
              && defined e "__ARM_FEATURE_AES"); split; congruence.
Qed.

(** C9, refuted as stated: an AArch64 build with [__ARM_FEATURE_AES] is
    outside the x86 family, yet hasHardwareAes is true. *)
Lemma hasHardwareAes_on_arm :
  ~ x86_family {[ "__aarch64__" := 1; "__ARM_FEATURE_AES" := 1 ]}
  /\ hasHardwareAes {[ "__aarch64__" := 1; "__ARM_FEATURE_AES" := 1 ]} zero_cpu = true.
Proof.
  split; [|reflexivity].
  unfold x86_family. intros [H|[H|[H|H]]]; revert H; absent.
Qed.
End RuntimeFeatures.

Lemma runtime_feature_table_witness :
  features.hasRuntimeFeature {[ "__x86_64__" := 1; "__GNUC__" := 13 ]}
    (fun leaf _ => if leaf =? 7 then features.mkCpuidRegs 0 32 0 0
                   else features.mkCpuidRegs 0 0 0 0) features.avx2 = true.
Proof.
  refine (eq_trans (proj1 (runtime_feature_table
    {[ "__x86_64__" := 1; "__GNUC__" := 13 ]} _ features.avx2 7 0 1 5 _) _ _) _).
  - reflexivity.
  - left. present.
  - right; left. present.
  - reflexivity.
Defined.

(** ** endianness.hpp: byte swapping *)

Section BitLemmas.

Lemma testbit_byte_mask (k i : Z) :
  0 <= k -> Z.testbit (Z.shiftl 255 k) i = (k <=? i) && (i <? k + 8).
Proof.
  intros Hk. destruct (Z.ltb_spec i 0) as [Hneg|Hpos].
  - rewrite Z.testbit_neg_r by lia.
    destruct (Z.leb_spec k i); [lia | reflexivity].
  - rewrite Z.shiftl_spec by lia. change 255 with (Z.ones 8).
    rewrite Z.testbit_ones by lia.
    destruct (Z.leb_spec k i), (Z.leb_spec 0 (i - k)), (Z.ltb_spec (i - k) 8),
      (Z.ltb_spec i (k + 8)); simpl; try reflexivity; lia.
Qed.

Lemma testbit_above (w v i : Z) :
  0 <= w -> 0 <= v < 2 ^ w -> w <= i -> Z.testbit v i = false.
Proof.
  intros Hw Hv Hi. rewrite <- (Z.mod_small v (2 ^ w)) by lia.
  apply Z.mod_pow2_bits_high. lia.
Qed.

Lemma to_unsigned_range (w z : Z) : 0 <= w -> 0 <= to_unsigned w z < 2 ^ w.
Proof. intros Hw. apply Z.mod_pos_bound. apply Z.pow_pos_nonneg; lia. Qed.

Lemma to_unsigned_small (w z : Z) : 0 <= z < 2 ^ w -> to_unsigned w z = z.
Proof. apply Z.mod_small. Qed.

Lemma to_signed_range (w z : Z) :
  0 < w -> - 2 ^ (w - 1) <= to_signed w z < 2 ^ (w - 1).
Proof.
  intros Hw. unfold to_signed.
  assert (2 ^ w = 2 * 2 ^ (w - 1)) as Hp.
  { rewrite <- Z.pow_succ_r by lia. f_equal. lia. }
  pose proof (Z.pow_pos_nonneg 2 (w - 1)).
  pose proof (Z.mod_pos_bound (z + 2 ^ (w - 1)) (2 ^ w)). lia.
Qed.

Lemma to_signed_small (w z : Z) :
  0 < w -> - 2 ^ (w - 1) <= z < 2 ^ (w - 1) -> to_signed w z = z.
Proof.
  intros Hw Hz. unfold to_signed.
  assert (2 ^ w = 2 * 2 ^ (w - 1)) as Hp.
  { rewrite <- Z.pow_succ_r by lia. f_equal. lia. }
  rewrite Z.mod_small; lia.
Qed.

Lemma to_unsigned_to_signed (w z : Z) :
  0 < w -> to_unsigned w (to_signed w z) = to_unsigned w z.
Proof.
  intros Hw. unfold to_unsigned, to_signed.
  assert (2 ^ w = 2 * 2 ^ (w - 1)) as Hp.
  { rewrite <- Z.pow_succ_r by lia. f_equal. lia. }
  pose proof (Z.pow_pos_nonneg 2 (w - 1)).
  rewrite Zminus_mod_idemp_l.
  replace (z + 2 ^ (w - 1) - 2 ^ (w - 1)) with z by lia. reflexivity.
Qed.

Lemma to_signed_to_unsigned (w z : Z) :
  0 < w -> to_signed w (to_unsigned w z) = to_signed w z.
Proof.
  intros Hw. unfold to_unsigned, to_signed.
  rewrite Zplus_mod_idemp_l. reflexivity.
Qed.

End BitLemmas.

(** Bit [i] of a byte mask 0xFF shifted to its place. *)
Ltac mask_bits :=
  repeat match goal with
  | |- context [Z.testbit (Z.pos ?p) ?i] =>
      let k := eval vm_compute in (Z.log2 (Z.pos p) - 7) in
      change (Z.testbit (Z.pos p) i) with (Z.testbit (Z.shiftl 255 k) i);
      rewrite (testbit_byte_mask k i) by lia
  end.

(** Settles every comparison of the goal that the context decides. *)
Ltac decide_cmp :=
  repeat match goal with
  | |- context [?a <? ?b] =>
      first [ rewrite (proj2 (Z.ltb_lt a b)) by lia
            | rewrite (proj2 (Z.ltb_ge a b)) by lia ]
  | |- context [?a <=? ?b] =>
      first [ rewrite (proj2 (Z.leb_le a b)) by lia
            | rewrite (proj2 (Z.leb_gt a b)) by lia ]
  end.

Ltac bool_tidy :=
  cbn [andb orb negb];
  repeat first
    [ rewrite andb_true_r | rewrite andb_false_r | rewrite andb_true_l
    | rewrite andb_false_l | rewrite orb_false_r | rewrite orb_false_l ].

(** Pushes [Z.testbit] through the operators of the hand-written swaps. *)
Ltac bits_step :=
  unfold to_unsigned;
  repeat first
    [ rewrite Z.lor_spec
    | rewrite Z.land_spec
    | rewrite Z.testbit_mod_pow2 by lia
    | rewrite Z.shiftl_spec by lia
    | rewrite Z.shiftr_spec by lia ];
  mask_bits.

Ltac byte_cases2 i :=
  let Hc := fresh "Hc" in
  assert (i < 8 \/ 8 <= i < 16 \/ 16 <= i) as Hc by lia;
  destruct Hc as [Hc|[Hc|Hc]].

Ltac byte_cases4 i :=
  let Hc := fresh "Hc" in
  assert (i < 8 \/ 8 <= i < 16 \/ 16 <= i < 24 \/ 24 <= i < 32 \/ 32 <= i) as Hc by lia;
  destruct Hc as [Hc|[Hc|[Hc|[Hc|Hc]]]].

Ltac byte_cases8 i :=
  let Hc := fresh "Hc" in
  assert (i < 8 \/ 8 <= i < 16 \/ 16 <= i < 24 \/ 24 <= i < 32 \/ 32 <= i < 40
          \/ 40 <= i < 48 \/ 48 <= i < 56 \/ 56 <= i < 64 \/ 64 <= i) as Hc by lia;
  destruct Hc as [Hc|[Hc|[Hc|[Hc|[Hc|[Hc|[Hc|[Hc|Hc]]]]]]]].

Section ManualSwaps.
Import endianness.

(** Where each bit of the result comes from. *)
Lemma byteSwap16Manual_testbit (v i : Z) :
  0 <= v < 2 ^ 16 -> 0 <= i ->
  Z.testbit (byteSwap16Manual v) i =
    (i <? 8) && Z.testbit v (i + 8) || (8 <=? i) && (i <? 16) && Z.testbit v (i - 8).
Proof.
  intros Hv Hi. unfold byteSwap16Manual. bits_step.
  byte_cases2 i; decide_cmp; bool_tidy; try reflexivity.
  - rewrite (Z.testbit_neg_r v (i - 8)) by lia. reflexivity.
  - rewrite (testbit_above 16 v (i + 8)) by lia. apply orb_false_r.
Qed.

Lemma byteSwap32Manual_testbit (v i : Z) :
  0 <= i ->
  Z.testbit (byteSwap32Manual v) i =
    (i <? 8) && Z.testbit v (i + 24)
    || (8 <=? i) && (i <? 16) && Z.testbit v (i + 8)
    || (16 <=? i) && (i <? 24) && Z.testbit v (i - 8)
    || (24 <=? i) && (i <? 32) && Z.testbit v (i - 24).
Proof.
  intros Hi. unfold byteSwap32Manual. bits_step.
  byte_cases4 i; decide_cmp; bool_tidy; reflexivity.
Qed.

Lemma byteSwap64Manual_testbit (v i : Z) :
  0 <= i ->
  Z.testbit (byteSwap64Manual v) i =
    (i <? 8) && Z.testbit v (i + 56)
    || (8 <=? i) && (i <? 16) && Z.testbit v (i + 40)
    || (16 <=? i) && (i <? 24) && Z.testbit v (i + 24)
    || (24 <=? i) && (i <? 32) && Z.testbit v (i + 8)
    || (32 <=? i) && (i <? 40) && Z.testbit v (i - 8)
    || (40 <=? i) && (i <? 48) && Z.testbit v (i - 24)
    || (48 <=? i) && (i <? 56) && Z.testbit v (i - 40)
    || (56 <=? i) && (i <? 64) && Z.testbit v (i - 56).
Proof.
  intros Hi. unfold byteSwap64Manual. bits_step.
  byte_cases8 i; decide_cmp; bool_tidy; reflexivity.
Qed.

Lemma byteSwap16Manual_range (v : Z) : 0 <= byteSwap16Manual v < 2 ^ 16.
Proof. unfold byteSwap16Manual. apply to_unsigned_range. lia. Qed.

Lemma byteSwap32Manual_range (v : Z) : 0 <= byteSwap32Manual v < 2 ^ 32.
Proof.
  assert (byteSwap32Manual v = byteSwap32Manual v mod 2 ^ 32) as ->.
  { apply Z.bits_inj'. intros i Hi.
    rewrite Z.testbit_mod_pow2 by lia. rewrite byteSwap32Manual_testbit by lia.
    destruct (Z.ltb_spec i 32); [reflexivity | decide_cmp; reflexivity]. }
  apply Z.mod_pos_bound. lia.
Qed.

Lemma byteSwap64Manual_range (v : Z) : 0 <= byteSwap64Manual v < 2 ^ 64.
Proof.
  assert (byteSwap64Manual v = byteSwap64Manual v mod 2 ^ 64) as ->.
  { apply Z.bits_inj'. intros i Hi.
    rewrite Z.testbit_mod_pow2 by lia. rewrite byteSwap64Manual_testbit by lia.
    destruct (Z.ltb_spec i 64); [reflexivity | decide_cmp; reflexivity]. }
  apply Z.mod_pos_bound. lia.
Qed.

Lemma byteSwap16Manual_involutive (v : Z) :
  0 <= v < 2 ^ 16 -> byteSwap16Manual (byteSwap16Manual v) = v.
Proof.
  intros Hv. pose proof (byteSwap16Manual_range v) as Hr.
  apply Z.bits_inj'. intros i Hi.
  rewrite byteSwap16Manual_testbit by lia.
  byte_cases2 i; decide_cmp; bool_tidy;
    try (rewrite byteSwap16Manual_testbit by lia; decide_cmp; bool_tidy; f_equal; lia).
  symmetry. apply (testbit_above 16); lia.
Qed.

Lemma byteSwap32Manual_involutive (v : Z) :
  0 <= v < 2 ^ 32 -> byteSwap32Manual (byteSwap32Manual v) = v.
Proof.
  intros Hv. apply Z.bits_inj'. intros i Hi.
  rewrite byteSwap32Manual_testbit by lia.
  byte_cases4 i; decide_cmp; bool_tidy;
    try (rewrite byteSwap32Manual_testbit by lia; decide_cmp; bool_tidy; f_equal; lia).
  symmetry. apply (testbit_above 32); lia.
Qed.

Lemma byteSwap64Manual_involutive (v : Z) :
  0 <= v < 2 ^ 64 -> byteSwap64Manual (byteSwap64Manual v) = v.
Proof.
  intros Hv. apply Z.bits_inj'. intros i Hi.
  rewrite byteSwap64Manual_testbit by lia.
  byte_cases8 i; decide_cmp; bool_tidy;
    try (rewrite byteSwap64Manual_testbit by lia; decide_cmp; bool_tidy; f_equal; lia).
  symmetry. apply (testbit_above 64); lia.
Qed.
End ManualSwaps.

Section BuiltinSwaps.
Import endianness.

Lemma to_bytes_length (n : nat) (v : Z) : length (to_bytes n v) = n.
Proof. revert v. induction n as [|n IH]; intros v; cbn; [reflexivity|]. f_equal. apply IH. Qed.

Lemma to_bytes_bytes (n : nat) (v : Z) : Forall is_byte (to_bytes n v).
Proof.
  revert v. induction n as [|n IH]; intros v; cbn; constructor.
  - unfold is_byte. apply Z.mod_pos_bound. lia.
  - apply IH.
Qed.

Lemma from_bytes_range (l : list Z) :
  Forall is_byte l -> 0 <= from_bytes l < 256 ^ Z.of_nat (length l).
Proof.
  induction 1 as [|b l Hb Hl IH]; cbn [from_bytes length].
  - cbn. lia.
  - rewrite Nat2Z.inj_succ, Z.pow_succ_r by lia. unfold is_byte in Hb. lia.
Qed.

Lemma from_to_bytes (n : nat) (v : Z) :
  0 <= v < 256 ^ Z.of_nat n -> from_bytes (to_bytes n v) = v.
Proof.
  revert v. induction n as [|n IH]; intros v Hv; cbn [to_bytes from_bytes].
  - cbn in Hv. lia.
  - rewrite Nat2Z.inj_succ, Z.pow_succ_r in Hv by lia.
    rewrite IH.
    + pose proof (Z.div_mod v 256). lia.
    + split; [apply Z.div_pos; lia | apply Z.div_lt_upper_bound; lia].
Qed.

Lemma to_from_bytes (l : list Z) :
  Forall is_byte l -> to_bytes (length l) (from_bytes l) = l.
Proof.
  induction 1 as [|b l Hb Hl IH]; cbn [from_bytes length to_bytes]; [reflexivity|].
  unfold is_byte in Hb. f_equal.
  - rewrite (Z.mul_comm 256), Z_mod_plus_full. apply Z.mod_small. exact Hb.
  - rewrite (Z.mul_comm 256), Z_div_plus_full by lia.
    rewrite (Z.div_small b 256) by exact Hb. exact IH.
Qed.

Lemma builtin_bswap_range (n : nat) (v : Z) :
  0 <= builtin_bswap n v < 256 ^ Z.of_nat n.
Proof.
  unfold builtin_bswap.
  pose proof (from_bytes_range (rev (to_bytes n v))) as H.
  rewrite length_rev, to_bytes_length in H. apply H.
  apply Forall_rev. apply to_bytes_bytes.
Qed.

Lemma builtin_bswap_involutive (n : nat) (v : Z) :
  0 <= v < 256 ^ Z.of_nat n -> builtin_bswap n (builtin_bswap n v) = v.
Proof.
  intros Hv. unfold builtin_bswap.
  assert (to_bytes n (from_bytes (rev (to_bytes n v))) = rev (to_bytes n v)) as ->.
  { rewrite <- (to_bytes_length n v) at 1. rewrite <- length_rev.
    apply to_from_bytes. apply Forall_rev. apply to_bytes_bytes. }
  rewrite rev_involutive. apply from_to_bytes. exact Hv.
Qed.
End BuiltinSwaps.

Section ByteSwap.
Import endianness.
Variable e : Env.
Variable has_builtin : string -> bool.

(** Whatever the toolchain, each swap is the hand-written one or the
    intrinsic, the same for every argument. *)
Lemma byteSwap16_path :
  (forall v, byteSwap16 e has_builtin v = byteSwap16Manual v)
  \/ (forall v, byteSwap16 e has_builtin v = builtin_bswap 2 v).
Proof.
  unfold byteSwap16, byteSwap16Impl.
  destruct (defined e "_MSC_VER"), (defined e "__GNUC__" || defined e "__clang__"),
    (has_builtin "__builtin_bswap16"); auto.
Qed.

Lemma byteSwap32_path :
  (forall v, byteSwap32 e has_builtin v = byteSwap32Manual v)
  \/ (forall v, byteSwap32 e has_builtin v = builtin_bswap 4 v).
Proof.
  unfold byteSwap32, byteSwap32Impl.
  destruct (defined e "_MSC_VER"), (defined e "__GNUC__" || defined e "__clang__"),
    (has_builtin "__builtin_bswap32"); auto.
Qed.

Lemma byteSwap64_path :
  (forall v, byteSwap64 e has_builtin v = byteSwap64Manual v)
  \/ (forall v, byteSwap64 e has_builtin v = builtin_bswap 8 v).
Proof.
  unfold byteSwap64, byteSwap64Impl.
  destruct (defined e "_MSC_VER"), (defined e "__GNUC__" || defined e "__clang__"),
    (has_builtin "__builtin_bswap64"); auto.
Qed.

Lemma byteSwap16_range (v : Z) : 0 <= byteSwap16 e has_builtin v < 2 ^ 16.
Proof.
  destruct byteSwap16_path as [H|H]; rewrite H.
  - apply byteSwap16Manual_range.
  - apply (builtin_bswap_range 2).
Qed.

Lemma byteSwap32_range (v : Z) : 0 <= byteSwap32 e has_builtin v < 2 ^ 32.
Proof.
  destruct byteSwap32_path as [H|H]; rewrite H.
  - apply byteSwap32Manual_range.
  - apply (builtin_bswap_range 4).
Qed.

Lemma byteSwap64_range (v : Z) : 0 <= byteSwap64 e has_builtin v < 2 ^ 64.
Proof.
  destruct byteSwap64_path as [H|H]; rewrite H.
  - apply byteSwap64Manual_range.
  - apply (builtin_bswap_range 8).
Qed.

Lemma byteSwap16_involutive (v : Z) :
  0 <= v < 2 ^ 16 -> byteSwap16 e has_builtin (byteSwap16 e has_builtin v) = v.
Proof.
  intros Hv. destruct byteSwap16_path as [H|H]; rewrite !H.
  - apply byteSwap16Manual_involutive. exact Hv.
  - apply (builtin_bswap_involutive 2). exact Hv.
Qed.

Lemma byteSwap32_involutive (v : Z) :
  0 <= v < 2 ^ 32 -> byteSwap32 e has_builtin (byteSwap32 e has_builtin v) = v.
Proof.
  intros Hv. destruct byteSwap32_path as [H|H]; rewrite !H.
  - apply byteSwap32Manual_involutive. exact Hv.
  - apply (builtin_bswap_involutive 4). exact Hv.
Qed.

Lemma byteSwap64_involutive (v : Z) :
  0 <= v < 2 ^ 64 -> byteSwap64 e has_builtin (byteSwap64 e has_builtin v) = v.
Proof.
  intros Hv. destruct byteSwap64_path as [H|H]; rewrite !H.
  - apply byteSwap64Manual_involutive. exact Hv.
  - apply (builtin_bswap_involutive 8). exact Hv.
Qed.

(** The generic swap at one width: conversion to the unsigned type, swap,
    conversion back. *)
Lemma swap_through_casts (w : Z) (swap : Z -> Z) (sg : bool) (v : Z) :
  0 < w ->
  (forall x, 0 <= swap x < 2 ^ w) ->
  (forall x, 0 <= x < 2 ^ w -> swap (swap x) = x) ->
  (if sg then - 2 ^ (w - 1) <= v < 2 ^ (w - 1) else 0 <= v < 2 ^ w) ->
  let cast := fun z => if sg then to_signed w z else to_unsigned w z in
  let generic := fun x => cast (swap (to_unsigned w (to_unsigned w x))) in
  (if sg then - 2 ^ (w - 1) <= generic v < 2 ^ (w - 1) else 0 <= generic v < 2 ^ w)
  /\ generic (generic v) = v.
Proof.
  intros Hw Hrange Hinv Hv cast generic. subst cast generic. cbn beta.
  pose proof (to_unsigned_range w v ltac:(lia)) as Hu.
  rewrite (to_unsigned_small w (to_unsigned w v)) by exact Hu.
  set (u := to_unsigned w v) in *.
  pose proof (Hrange u) as Hs.
  destruct sg.
  - split; [apply to_signed_range; exact Hw|].
    rewrite to_unsigned_to_signed by exact Hw.
    rewrite !(to_unsigned_small w (swap u)) by exact Hs.
    rewrite Hinv by exact Hu. subst u.
    rewrite to_signed_to_unsigned by exact Hw.
    apply to_signed_small; assumption.
  - rewrite !(to_unsigned_small w (swap u)) by exact Hs.
    split; [exact Hs|].
    rewrite Hinv by exact Hu. rewrite to_unsigned_small by exact Hu.
    subst u. apply to_unsigned_small. exact Hv.
Qed.

Lemma byteSwap_involutive (T : IntegralType) (v : Z) :
  1 <= sizeof T <= 8 -> in_range T v ->
  exists w, byteSwap e has_builtin T v = Some w
            /\ in_range T w
            /\ byteSwap e has_builtin T w = Some v.
Proof.
  destruct T as [s sg]. unfold in_range, byteSwap, static_cast, make_unsigned.
  cbn [sizeof is_signed]. intros Hs Hv.
  assert (s = 1 \/ s = 2 \/ s = 3 \/ s = 4 \/ s = 5 \/ s = 6 \/ s = 7 \/ s = 8)
    as Hcases by lia.
  destruct Hcases as [-> | [-> | [-> | [-> | [-> | [-> | [-> | ->]]]]]]];
    cbn [Z.eqb Z.leb Z.compare Pos.eqb Pos.compare Pos.compare_cont] in *;
    change (8 * 2) with 16 in *; change (8 * 4) with 32 in *;
    change (8 * 8) with 64 in *;
    try (exists v; split; [reflexivity | split; [exact Hv | reflexivity]]).
  - destruct (swap_through_casts 16 (byteSwap16 e has_builtin) sg v) as [Hr Hi];
      [lia | apply byteSwap16_range | apply byteSwap16_involutive | exact Hv |].
    eexists. split; [reflexivity|]. split; [exact Hr|]. f_equal. exact Hi.
  - destruct (swap_through_casts 32 (byteSwap32 e has_builtin) sg v) as [Hr Hi];
      [lia | apply byteSwap32_range | apply byteSwap32_involutive | exact Hv |].
    eexists. split; [reflexivity|]. split; [exact Hr|]. f_equal. exact Hi.
  - destruct (swap_through_casts 64 (byteSwap64 e has_builtin) sg v) as [Hr Hi];
      [lia | apply byteSwap64_range | apply byteSwap64_involutive | exact Hv |].
    eexists. split; [reflexivity|]. split; [exact Hr|]. f_equal. exact Hi.
Qed.

(** C8: byte swapping is an involution on the unsigned 16-, 32- and
    64-bit values, and the generic swap is one on the values of every
    integral type of at most eight bytes; 0x1234 becomes 0x3412,
    0x12345678 becomes 0x78563412 and 0x123456789ABCDEF0 becomes
    0xF0DEBC9A78563412. *)
Theorem byteSwap_involution :
  (forall v, 0 <= v < 2 ^ 16 ->
             byteSwap16 e has_builtin (byteSwap16 e has_builtin v) = v)
  /\ (forall v, 0 <= v < 2 ^ 32 ->
                byteSwap32 e has_builtin (byteSwap32 e has_builtin v) = v)
  /\ (forall v, 0 <= v < 2 ^ 64 ->
                byteSwap64 e has_builtin (byteSwap64 e has_builtin v) = v)
  /\ (forall (T : IntegralType) (v : Z),
         1 <= sizeof T <= 8 -> in_range T v ->
         exists w, byteSwap e has_builtin T v = Some w
                   /\ in_range T w
                   /\ byteSwap e has_builtin T w = Some v)
  /\ byteSwap16 e has_builtin 0x1234 = 0x3412
  /\ byteSwap32 e has_builtin 0x12345678 = 0x78563412
  /\ byteSwap64 e has_builtin 0x123456789ABCDEF0 = 0xF0DEBC9A78563412.
Proof.
  split; [exact byteSwap16_involutive|].
  split; [exact byteSwap32_involutive|].
  split; [exact byteSwap64_involutive|].
  split; [exact byteSwap_involutive|].
  split; [|split].
  - destruct byteSwap16_path as [H|H]; rewrite H; vm_compute; reflexivity.
  - destruct byteSwap32_path as [H|H]; rewrite H; vm_compute; reflexivity.
  - destruct byteSwap64_path as [H|H]; rewrite H; vm_compute; reflexivity.
Qed.
End ByteSwap.

Lemma byteSwap_involution_witness :
  endianness.byteSwap32 {[ "__GNUC__" := 13 ]} (fun _ => true)
    (endianness.byteSwap32 {[ "__GNUC__" := 13 ]} (fun _ => true) 0x12345678) = 0x12345678
  /\ exists w,
      endianness.byteSwap ∅ (fun _ => false) (endianness.mkIntegralType 2 true) (-2) = Some w
      /\ endianness.in_range (endianness.mkIntegralType 2 true) w
      /\ endianness.byteSwap ∅ (fun _ => false) (endianness.mkIntegralType 2 true) w = Some (-2).
Proof.
  split.
  - refine (proj1 (proj2 (byteSwap_involution {[ "__GNUC__" := 13 ]} (fun _ => true)))
              0x12345678 _).
    lia.
  - refine (proj1 (proj2 (proj2 (proj2 (byteSwap_involution ∅ (fun _ => false)))))
              (endianness.mkIntegralType 2 true) (-2) _ _).
    + cbn [endianness.sizeof]. lia.
    + unfold endianness.in_range. cbn [endianness.sizeof endianness.is_signed]. lia.
Defined.

(** ** endianness.hpp: unknown byte order *)

Section UnknownOrder.
Import endianness.

Lemma byteSwap_compiles (e : Env) (has_builtin : string -> bool)
    (T : IntegralType) (v : Z) :
  sizeof T <= 8 -> is_Some (byteSwap e has_builtin T v).
Proof.
  intros Hs. unfold byteSwap.
  repeat match goal with
  | |- context [sizeof T =? ?k] => destruct (sizeof T =? k); [eexists; reflexivity|]
  end.
  rewrite (proj2 (Z.leb_le (sizeof T) 8)) by exact Hs. eexists; reflexivity.
Qed.

(** C10: an unknown byte order is compatible with every byte order:
    areByteOrdersCompatible is true, so convertByteOrder returns its
    argument unchanged for every integral type the generic swap accepts,
    and needsByteSwap is false when the native or the target order is
    unknown. *)
Theorem unknown_order_is_compatible (order1 order2 : ByteOrder) :
  order1 = unknown \/ order2 = unknown ->
  areByteOrdersCompatible order1 order2 = true
  /\ (forall (e : Env) (has_builtin : string -> bool) (T : IntegralType) (v : Z),
         sizeof T <= 8 ->
         convertByteOrder e has_builtin T v order1 order2 = Some v)
  /\ (forall info : EndiannessInfo,
         byte_order info = order1 -> needsByteSwap info order2 = false).
Proof.
  intros Hu.
  assert (areByteOrdersCompatible order1 order2 = true) as Hc.
  { unfold areByteOrdersCompatible.
    destruct Hu as [-> | ->]; [reflexivity|]. destruct order1; reflexivity. }
  split; [exact Hc|]. split.
  - intros e has_builtin T v Hs. unfold convertByteOrder.
    destruct (byteSwap_compiles e has_builtin T v Hs) as [w ->].
    cbn. rewrite Hc. reflexivity.
  - intros info Hinfo. unfold needsByteSwap. rewrite Hinfo.
    destruct Hu as [-> | ->]; [reflexivity|]. destruct order1; reflexivity.
Qed.
End UnknownOrder.

Lemma unknown_order_is_compatible_witness :
  endianness.convertByteOrder ∅ (fun _ => false) (endianness.mkIntegralType 4 false)
    0x12345678 endianness.unknown endianness.big_endian = Some 0x12345678.
Proof.
  refine (proj1 (proj2 (unknown_order_is_compatible endianness.unknown
                          endianness.big_endian _)) _ _ _ _ _).
  - left. reflexivity.
  - cbn [endianness.sizeof]. lia.
Defined.

(** ** core.hpp: one-time initialization *)

Section Initialization.
Import core.

Lemma step_never_resets (fl : Flags) (pc : Pc) :
  g_platform_initialized fl = true ->
  g_platform_initialized (fst (step fl pc)) = true.
Proof.
  intros Hd. destruct pc; cbn [step]; unfold compare_exchange_in_progress.
  - rewrite Hd. exact Hd.
  - destruct (Bool.eqb (g_initialization_in_progress fl) false); exact Hd.
  - rewrite Hd. exact Hd.
  - reflexivity.
  - exact Hd.
  - exact Hd.
Qed.

Lemma step_when_initialized (fl : Flags) :
  g_platform_initialized fl = true -> step fl check_initialized = (fl, returned).
Proof. intros Hd. cbn [step]. rewrite Hd. reflexivity. Qed.

Lemma step_past_store (fl : Flags) (pc : Pc) :
  past_store pc fl -> past_store (snd (step fl pc)) (fst (step fl pc)).
Proof.
  destruct pc; cbn [step past_store]; unfold compare_exchange_in_progress; intros H.
  - destruct (g_platform_initialized fl) eqn:Hd; cbn; auto.
  - destruct (Bool.eqb (g_initialization_in_progress fl) false); cbn; auto.
  - destruct (g_platform_initialized fl) eqn:Hd; cbn; auto.
  - reflexivity.
  - exact H.
  - exact H.
Qed.

Lemma run_call_initialized (fuel : nat) (fl fl' : Flags) (pc : Pc) :
  past_store pc fl -> run_call fuel fl pc = Some fl' ->
  g_platform_initialized fl' = true.
Proof.
  revert fl pc. induction fuel as [|fuel IH]; intros fl pc Hp Hrun.
  - destruct pc; cbn in Hrun; try discriminate. inversion Hrun; subst. exact Hp.
  - destruct pc; cbn [run_call] in Hrun;
      try (inversion Hrun; subst; exact Hp);
      match type of Hrun with
      | (let '(_, _) := step ?f ?p in _) = _ =>
          pose proof (step_past_store f p Hp) as Hp';
          destruct (step f p) as [fl1 pc1]; cbn [fst snd] in Hp';
          exact (IH fl1 pc1 Hp' Hrun)
      end.
Qed.

Lemma sched_never_resets (c c' : Config) :
  sched c c' ->
  g_platform_initialized (flags c) = true -> g_platform_initialized (flags c') = true.
Proof.
  intros [c0 i pc pc' fl' Hi Hpc Hstep | c0 i Hi] Hd; cbn [flags]; [|exact Hd].
  pose proof (step_never_resets (flags c0) pc Hd) as H. rewrite Hstep in H. exact H.
Qed.

Lemma past_store_mono (pc : Pc) (fl fl' : Flags) :
  (g_platform_initialized fl = true -> g_platform_initialized fl' = true) ->
  past_store pc fl -> past_store pc fl'.
Proof. destruct pc; cbn; auto. Qed.

Lemma settled_initial (n : nat) : settled (initial_config n).
Proof.
  intros i pc Hi. cbn [initial_config threads] in Hi.
  apply lookup_replicate in Hi as [-> _]. exact I.
Qed.

Lemma settled_sched (c c' : Config) : sched c c' -> settled c -> settled c'.
Proof.
  intros Hs Hc. pose proof (sched_never_resets c c' Hs) as Hmono.
  destruct Hs as [c0 i pc pc' fl' Hi Hpc Hstep | c0 i Hi];
    intros j pcj Hj; cbn [threads flags] in *.
  - destruct (decide (i = j)) as [<- | Hne].
    + rewrite list_lookup_insert_eq in Hj by (eapply lookup_lt_Some; exact Hi).
      inversion Hj; subst pcj.
      pose proof (step_past_store (flags c0) pc (Hc i pc Hi)) as H.
      rewrite Hstep in H. exact H.
    + rewrite list_lookup_insert_ne in Hj by exact Hne.
      eapply past_store_mono; [exact Hmono | exact (Hc j pcj Hj)].
  - destruct (decide (i = j)) as [<- | Hne].
    + rewrite list_lookup_insert_eq in Hj by (eapply lookup_lt_Some; exact Hi).
      inversion Hj; subst pcj. exact I.
    + rewrite list_lookup_insert_ne in Hj by exact Hne. exact (Hc j pcj Hj).
Qed.

Lemma run_settled (c : Config) (tr : list Config) :
  is_run c tr -> settled c -> settled (final c tr).
Proof.
  revert c. induction tr as [|c1 tr IH]; intros c Hrun Hc; [exact Hc|].
  destruct Hrun as [Hs Hrun]. cbn [final].
  exact (IH c1 Hrun (settled_sched c c1 Hs Hc)).
Qed.

Lemma run_never_resets (c : Config) (tr : list Config) :
  is_run c tr -> g_platform_initialized (flags c) = true ->
  g_platform_initialized (flags (final c tr)) = true.
Proof.
  revert c. induction tr as [|c1 tr IH]; intros c Hrun Hd; [exact Hd|].
  destruct Hrun as [Hs Hrun]. cbn [final].
  exact (IH c1 Hrun (sched_never_resets c c1 Hs Hd)).
Qed.

Lemma run_app (c : Config) (tr1 tr2 : list Config) :
  is_run c (tr1 ++ tr2)%list -> is_run c tr1 /\ is_run (final c tr1) tr2.
Proof.
  revert c. induction tr1 as [|c1 tr1 IH]; intros c Hrun; cbn in *; [tauto|].
  destruct Hrun as [Hs Hrun]. destruct (IH c1 Hrun) as [H1 H2]. tauto.
Qed.

Lemma final_app (c : Config) (tr1 tr2 : list Config) :
  final c (tr1 ++ tr2)%list = final (final c tr1) tr2.
Proof. revert c. induction tr1 as [|c1 tr1 IH]; intros c; cbn; [reflexivity|apply IH]. Qed.

(** The done flag goes up once when the run ends with it set and it
    started unset, and never otherwise. *)
Lemma run_flips (c : Config) (tr : list Config) :
  is_run c tr ->
  flips (g_platform_initialized (flags c)) tr =
    if negb (g_platform_initialized (flags c))
       && g_platform_initialized (flags (final c tr))
    then 1%nat else 0%nat.
Proof.
  revert c. induction tr as [|c1 tr IH]; intros c Hrun; cbn [flips final].
  - destruct (g_platform_initialized (flags c)); reflexivity.
  - destruct Hrun as [Hs Hrun]. rewrite (IH c1 Hrun).
    pose proof (sched_never_resets c c1 Hs) as H1.
    pose proof (run_never_resets c1 tr Hrun) as H2.
    destruct (g_platform_initialized (flags c)),
      (g_platform_initialized (flags c1)),
      (g_platform_initialized (flags (final c1 tr)));
      cbn; try reflexivity; try (specialize (H1 eq_refl); discriminate);
      specialize (H2 eq_refl); discriminate.
Qed.
End Initialization.

Section InitializationStateMachine.
Import core.

(** C7: starting from both flags false, the first call sets the done flag
    and leaves the in-progress flag clear; the done flag is never reset by
    any atomic operation of any call, so along every interleaving of any
    number of callers it goes from false to true at most once, and exactly
    once when it ends set; a call that finds the flag set returns at once
    with the flags untouched; and whenever a call has returned, alone or
    interleaved with others, isPlatformInitialized is true. *)
Theorem initialization_state_machine :
  initializePlatform 4 initial_flags
    = Some {| g_platform_initialized := true; g_initialization_in_progress := false |}
  /\ (forall (fl : Flags) (pc : Pc),
         g_platform_initialized fl = true ->
         g_platform_initialized (fst (step fl pc)) = true)
  /\ (forall fl : Flags,
         g_platform_initialized fl = true ->
         step fl check_initialized = (fl, returned)
         /\ forall fuel : nat, initializePlatform (S fuel) fl = Some fl)
  /\ (forall (fuel : nat) (fl fl' : Flags),
         initializePlatform fuel fl = Some fl' -> isPlatformInitialized fl' = true)
  /\ (forall (n : nat) (tr : list Config),
         is_run (initial_config n) tr ->
         (flips false tr <= 1)%nat
         /\ (flips false tr = 1%nat <->
             isPlatformInitialized (flags (final (initial_config n) tr)) = true)
         /\ (some_thread_at (final (initial_config n) tr) returned ->
             isPlatformInitialized (flags (final (initial_config n) tr)) = true)
         /\ (forall tr1 tr2 : list Config,
                tr = (tr1 ++ tr2)%list ->
                isPlatformInitialized (flags (final (initial_config n) tr1)) = true ->
                isPlatformInitialized (flags (final (initial_config n) tr)) = true)).
Proof.
  split; [reflexivity|].
  split; [exact step_never_resets|].
  split.
  { intros fl Hd. split; [exact (step_when_initialized fl Hd)|].
    intros fuel. unfold initializePlatform. cbn [run_call].
    rewrite (step_when_initialized fl Hd). destruct fuel; reflexivity. }
  split.
  { intros fuel fl fl' Hrun. unfold isPlatformInitialized.
    exact (run_call_initialized fuel fl fl' check_initialized I Hrun). }
  intros n tr Hrun. unfold isPlatformInitialized.
  pose proof (run_flips (initial_config n) tr Hrun) as Hf.
  cbn [initial_config flags initial_flags g_platform_initialized negb andb] in Hf.
  fold (initial_config n) in Hf.
  split; [|split; [|split]].
  - rewrite Hf. destruct (g_platform_initialized _); lia.
  - rewrite Hf. destruct (g_platform_initialized _); split; congruence.
  - intros [i Hi].
    exact (run_settled (initial_config n) tr Hrun (settled_initial n) i returned Hi).
  - intros tr1 tr2 -> Hd. rewrite final_app.
    apply run_app in Hrun as [_ Hrun2].
    exact (run_never_resets _ tr2 Hrun2 Hd).
Qed.
End InitializationStateMachine.

(** Two callers: the first runs its call to the end, then the second
    finds the flag set. *)
Lemma initialization_state_machine_witness :
  let done := core.mkFlags true false in
  let tr :=
    [ core.mkConfig core.initial_flags [core.acquire; core.check_initialized];
      core.mkConfig (core.mkFlags false true) [core.mark_initialized; core.check_initialized];
      core.mkConfig (core.mkFlags true true) [core.clear_in_progress; core.check_initialized];
      core.mkConfig done [core.returned; core.check_initialized];
      core.mkConfig done [core.returned; core.returned] ] in
  core.flips false tr = 1%nat
  /\ core.isPlatformInitialized (core.flags (final (core.initial_config 2) tr)) = true.
Proof.
  intros done tr.
  assert (core.is_run (core.initial_config 2) tr) as Hrun.
  { subst tr done. cbn [core.is_run]. repeat split;
      match goal with
      | |- core.sched ?c _ =>
          first
            [ apply (core.sched_step c 0%nat core.check_initialized core.acquire
                       core.initial_flags)
            | apply (core.sched_step c 0%nat core.acquire core.mark_initialized
                       (core.mkFlags false true))
            | apply (core.sched_step c 0%nat core.mark_initialized core.clear_in_progress
                       (core.mkFlags true true))
            | apply (core.sched_step c 0%nat core.clear_in_progress core.returned
                       (core.mkFlags true false))
            | apply (core.sched_step c 1%nat core.check_initialized core.returned
                       (core.mkFlags true false)) ];
          [reflexivity | discriminate | reflexivity]
      end. }
  destruct initialization_state_machine as (_ & _ & _ & _ & Hconc).
  destruct (Hconc 2%nat tr Hrun) as (_ & Hflip & Hret & _).
  assert (core.isPlatformInitialized (core.flags (final (core.initial_config 2) tr)) = true)
    as Hd.
  { apply Hret. exists 0%nat. reflexivity. }
  split; [apply Hflip; exact Hd | exact Hd].
Defined.

(** * Further properties *)

(** ** endianness.hpp: conversions *)

Section NetworkOrder.
Import endianness.
Variable e : Env.
Variable has_builtin : string -> bool.

(** X1: network conversion round trip.  In a build where a signal decides
    the byte order, for every integral type whose conversion compiles (at
    most eight bytes on a little-endian host, any size otherwise) and
    every value of the type, hostToNetwork returns a value of the type
    that networkToHost maps back. *)
Theorem network_round_trip (T : IntegralType) (v : Z) (little : bool) :
  isLittleEndian e = Some little ->
  1 <= sizeof T ->
  sizeof T <= 8 \/ little = false ->
  in_range T v ->
  exists w, hostToNetwork e has_builtin T v = Some w
            /\ in_range T w
            /\ networkToHost e has_builtin T w = Some v.
Proof.
  intros Hle H1 Hsize Hv. unfold hostToNetwork, networkToHost.
  rewrite Hle. cbn [mbind option_bind]. destruct little.
  - destruct Hsize as [H8 | Hf]; [|discriminate].
    apply byteSwap_involutive; [lia | exact Hv].
  - exists v. repeat split. exact Hv.
Qed.

(** X2: converting from one byte order to another and back returns the
    value, for every pair of orders. *)
Theorem convertByteOrder_round_trip (T : IntegralType) (v : Z) (a b : ByteOrder) :
  1 <= sizeof T <= 8 -> in_range T v ->
  exists w, convertByteOrder e has_builtin T v a b = Some w
            /\ in_range T w
            /\ convertByteOrder e has_builtin T w b a = Some v.
Proof.
  intros Hs Hv. unfold convertByteOrder.
  destruct (byteSwap_involutive e has_builtin T v Hs Hv) as (w & Hw & Hr & Hback).
  rewrite Hw. cbn.
  assert (areByteOrdersCompatible b a = areByteOrdersCompatible a b) as ->
    by (destruct a, b; reflexivity).
  destruct (areByteOrdersCompatible a b).
  - exists v. split; [reflexivity|]. split; [exact Hv|]. rewrite Hw. reflexivity.
  - exists w. split; [reflexivity|]. split; [exact Hr|]. rewrite Hback. reflexivity.
Qed.
End NetworkOrder.

Lemma network_round_trip_witness :
  exists w,
    endianness.hostToNetwork {[ "_WIN32" := 1 ]} (fun _ => false)
      endianness.uint32_t 0x12345678 = Some w
    /\ endianness.in_range endianness.uint32_t w
    /\ endianness.networkToHost {[ "_WIN32" := 1 ]} (fun _ => false)
         endianness.uint32_t w = Some 0x12345678.
Proof.
  refine (network_round_trip {[ "_WIN32" := 1 ]} (fun _ => false)
            endianness.uint32_t 0x12345678 true _ _ _ _).
  - reflexivity.
  - cbn [endianness.sizeof endianness.uint32_t]. lia.
  - left. cbn [endianness.sizeof endianness.uint32_t]. lia.
  - unfold endianness.in_range. cbn [endianness.sizeof endianness.is_signed endianness.uint32_t].
    lia.
Defined.

Lemma convertByteOrder_round_trip_witness :
  exists w,
    endianness.convertByteOrder ∅ (fun _ => false) endianness.uint16_t 0x1234
      endianness.little_endian endianness.big_endian = Some w
    /\ endianness.in_range endianness.uint16_t w
    /\ endianness.convertByteOrder ∅ (fun _ => false) endianness.uint16_t w
         endianness.big_endian endianness.little_endian = Some 0x1234.
Proof.
  refine (convertByteOrder_round_trip ∅ (fun _ => false) endianness.uint16_t 0x1234
            endianness.little_endian endianness.big_endian _ _).
  - cbn [endianness.sizeof endianness.uint16_t]. lia.
  - unfold endianness.in_range. cbn [endianness.sizeof endianness.is_signed endianness.uint16_t].
    lia.
Defined.

Section ByteOrderRelations.
Import endianness.

End ByteOrderRelations.


(** ** endianness.hpp: one swap on every toolchain *)

Section BuiltinBits.
Import endianness.

Lemma from_bytes_testbit (l : list Z) :
  Forall is_byte l -> forall i, 0 <= i ->
  Z.testbit (from_bytes l) i = Z.testbit (nth (Z.to_nat (i / 8)) l 0) (i mod 8).
Proof.
  induction 1 as [|b l Hb Hl IH]; intros i Hi; cbn [from_bytes].
  - destruct (Z.to_nat (i / 8)); cbn; rewrite !Z.bits_0; reflexivity.
  - unfold is_byte in Hb. destruct (Z.ltb_spec i 8) as [Hlt|Hge].
    + rewrite (Z.div_small i 8), (Z.mod_small i 8) by lia. cbn [Z.to_nat nth].
      rewrite <- (Z.mod_pow2_bits_low (b + 256 * from_bytes l) 8 i) by lia.
      change (2 ^ 8) with 256.
      rewrite (Z.mul_comm 256), Z_mod_plus_full, Z.mod_small by lia. reflexivity.
    + replace i with ((i - 8) + 8) at 1 by lia.
      rewrite <- Z.div_pow2_bits by lia. change (2 ^ 8) with 256.
      rewrite (Z.mul_comm 256), Z_div_plus_full, (Z.div_small b 256), Z.add_0_l by lia.
      rewrite IH by lia.
      replace (Z.to_nat (i / 8)) with (S (Z.to_nat ((i - 8) / 8)))
        by (Z.div_mod_to_equations; lia).
      cbn [nth]. f_equal. Z.div_mod_to_equations; lia.
Qed.

Lemma to_bytes_nth (n k : nat) (v : Z) :
  (k < n)%nat -> nth k (to_bytes n v) 0 = (v / 256 ^ Z.of_nat k) mod 256.
Proof.
  revert k v. induction n as [|n IH]; intros k v Hk; [lia|].
  cbn [to_bytes]. destruct k as [|k]; cbn [nth].
  - cbn. rewrite Z.div_1_r. reflexivity.
  - rewrite IH by lia. rewrite Nat2Z.inj_succ, Z.pow_succ_r by lia.
    rewrite Z.div_div by lia. reflexivity.
Qed.

Lemma byte_of_testbit (v : Z) (k : nat) (j : Z) :
  0 <= j ->
  Z.testbit ((v / 256 ^ Z.of_nat k) mod 256) j
  = (j <? 8) && Z.testbit v (j + 8 * Z.of_nat k).
Proof.
  intros Hj. change 256 with (2 ^ 8). rewrite <- Z.pow_mul_r by lia.
  rewrite Z.testbit_mod_pow2 by lia.
  rewrite Z.div_pow2_bits by lia. reflexivity.
Qed.

(** Bit [i] of the reversed value is bit [i mod 8] of the mirrored byte. *)
Lemma builtin_bswap_testbit (n : nat) (v i : Z) :
  0 <= i ->
  Z.testbit (builtin_bswap n v) i
  = (i <? 8 * Z.of_nat n)
    && Z.testbit v (8 * (Z.of_nat n - 1 - i / 8) + i mod 8).
Proof.
  intros Hi. unfold builtin_bswap.
  rewrite from_bytes_testbit by (try apply Forall_rev; try apply to_bytes_bytes; lia).
  assert (0 <= i / 8) as Hq by (apply Z.div_pos; lia).
  assert (0 <= i mod 8 < 8) as Hm by (apply Z.mod_pos_bound; lia).
  destruct (Z.ltb_spec i (8 * Z.of_nat n)) as [Hlt|Hge].
  - assert (Z.to_nat (i / 8) < n)%nat as Hk by (Z.div_mod_to_equations; lia).
    rewrite rev_nth by (rewrite to_bytes_length; exact Hk).
    rewrite to_bytes_length.
    rewrite to_bytes_nth by lia. rewrite byte_of_testbit by lia.
    rewrite (proj2 (Z.ltb_lt (i mod 8) 8)) by lia. cbn [andb].
    f_equal. lia.
  - rewrite nth_overflow.
    + apply Z.bits_0.
    + rewrite length_rev, to_bytes_length. Z.div_mod_to_equations; lia.
Qed.
End BuiltinBits.

Section OneSwap.
Import endianness.

Lemma builtin_bswap16_manual (v : Z) :
  0 <= v < 2 ^ 16 -> builtin_bswap 2 v = byteSwap16Manual v.
Proof.
  intros Hv. apply Z.bits_inj'. intros i Hi.
  rewrite builtin_bswap_testbit, byteSwap16Manual_testbit by lia.
  change (8 * Z.of_nat 2) with 16. change (Z.of_nat 2) with 2.
  byte_cases2 i; decide_cmp; bool_tidy; try reflexivity;
    f_equal; Z.div_mod_to_equations; lia.
Qed.

Lemma builtin_bswap32_manual (v : Z) : builtin_bswap 4 v = byteSwap32Manual v.
Proof.
  apply Z.bits_inj'. intros i Hi.
  rewrite builtin_bswap_testbit, byteSwap32Manual_testbit by lia.
  change (8 * Z.of_nat 4) with 32. change (Z.of_nat 4) with 4.
  byte_cases4 i; decide_cmp; bool_tidy; try reflexivity;
    f_equal; Z.div_mod_to_equations; lia.
Qed.

Lemma builtin_bswap64_manual (v : Z) : builtin_bswap 8 v = byteSwap64Manual v.
Proof.
  apply Z.bits_inj'. intros i Hi.
  rewrite builtin_bswap_testbit, byteSwap64Manual_testbit by lia.
  change (8 * Z.of_nat 8) with 64. change (Z.of_nat 8) with 8.
  byte_cases8 i; decide_cmp; bool_tidy; try reflexivity;
    f_equal; Z.div_mod_to_equations; lia.
Qed.

Lemma byteSwap16_builtin (e : Env) (has_builtin : string -> bool) (v : Z) :
  0 <= v < 2 ^ 16 -> byteSwap16 e has_builtin v = builtin_bswap 2 v.
Proof.
  intros Hv. destruct (byteSwap16_path e has_builtin) as [H|H]; rewrite H;
    [symmetry; apply builtin_bswap16_manual; exact Hv | reflexivity].
Qed.

Lemma byteSwap32_builtin (e : Env) (has_builtin : string -> bool) (v : Z) :
  byteSwap32 e has_builtin v = builtin_bswap 4 v.
Proof.
  destruct (byteSwap32_path e has_builtin) as [H|H]; rewrite H;
    [symmetry; apply builtin_bswap32_manual | reflexivity].
Qed.

Lemma byteSwap64_builtin (e : Env) (has_builtin : string -> bool) (v : Z) :
  byteSwap64 e has_builtin v = builtin_bswap 8 v.
Proof.
  destruct (byteSwap64_path e has_builtin) as [H|H]; rewrite H;
    [symmetry; apply builtin_bswap64_manual | reflexivity].
Qed.

(** A conversion to a [w]-bit type keeps the low [w] bits. *)
Lemma to_unsigned_low_bits (w z i : Z) :
  0 <= i < w -> Z.testbit (to_unsigned w z) i = Z.testbit z i.
Proof. intros Hi. unfold to_unsigned. apply Z.mod_pow2_bits_low. lia. Qed.

Lemma to_signed_low_bits (w z i : Z) :
  0 <= i < w -> Z.testbit (to_signed w z) i = Z.testbit z i.
Proof.
  intros Hi.
  rewrite <- (to_unsigned_low_bits w (to_signed w z) i Hi).
  rewrite to_unsigned_to_signed by lia. apply to_unsigned_low_bits. exact Hi.
Qed.

Lemma static_cast_low_bits (T : IntegralType) (z i : Z) :
  0 <= i < 8 * sizeof T -> Z.testbit (static_cast T z) i = Z.testbit z i.
Proof.
  intros Hi. unfold static_cast.
  destruct (is_signed T); [apply to_signed_low_bits | apply to_unsigned_low_bits]; exact Hi.
Qed.

(** Where bit [i] of an [n]-byte swap comes from. *)
Lemma swapped_index (n i : Z) :
  0 < n -> 0 <= i < 8 * n -> 0 <= 8 * (n - 1 - i / 8) + i mod 8 < 8 * n.
Proof. intros Hn Hi. Z.div_mod_to_equations. lia. Qed.

Lemma byteSwap_bits (e : Env) (has_builtin : string -> bool)
    (T : IntegralType) (v w i : Z) :
  sizeof T = 1 \/ sizeof T = 2 \/ sizeof T = 4 \/ sizeof T = 8 ->
  byteSwap e has_builtin T v = Some w ->
  0 <= i < 8 * sizeof T ->
  Z.testbit w i = Z.testbit v (8 * (sizeof T - 1 - i / 8) + i mod 8).
Proof.
  intros Hsize Hswap Hi. unfold byteSwap in Hswap.
  destruct Hsize as [Hs | [Hs | [Hs | Hs]]]; rewrite Hs in Hswap, Hi |- *;
    cbn [Z.eqb Pos.eqb] in Hswap; injection Hswap as <-.
  - f_equal. Z.div_mod_to_equations. lia.
  - pose proof (swapped_index 2 i ltac:(lia) ltac:(lia)) as Hj.
    rewrite static_cast_low_bits by (rewrite Hs; lia).
    rewrite byteSwap16_builtin by (apply to_unsigned_range; lia).
    rewrite builtin_bswap_testbit by lia.
    change (8 * Z.of_nat 2) with 16. change (Z.of_nat 2) with 2.
    rewrite (proj2 (Z.ltb_lt i 16)) by lia. cbn [andb].
    rewrite to_unsigned_low_bits by lia.
    apply static_cast_low_bits. cbn [make_unsigned sizeof]. rewrite Hs. lia.
  - pose proof (swapped_index 4 i ltac:(lia) ltac:(lia)) as Hj.
    rewrite static_cast_low_bits by (rewrite Hs; lia).
    rewrite byteSwap32_builtin.
    rewrite builtin_bswap_testbit by lia.
    change (8 * Z.of_nat 4) with 32. change (Z.of_nat 4) with 4.
    rewrite (proj2 (Z.ltb_lt i 32)) by lia. cbn [andb].
    rewrite to_unsigned_low_bits by lia.
    apply static_cast_low_bits. cbn [make_unsigned sizeof]. rewrite Hs. lia.
  - pose proof (swapped_index 8 i ltac:(lia) ltac:(lia)) as Hj.
    rewrite static_cast_low_bits by (rewrite Hs; lia).
    rewrite byteSwap64_builtin.
    rewrite builtin_bswap_testbit by lia.
    change (8 * Z.of_nat 8) with 64. change (Z.of_nat 8) with 8.
    rewrite (proj2 (Z.ltb_lt i 64)) by lia. cbn [andb].
    rewrite to_unsigned_low_bits by lia.
    apply static_cast_low_bits. cbn [make_unsigned sizeof]. rewrite Hs. lia.
Qed.
(** X4: the swaps do not depend on the toolchain: whichever of the
    hand-written code and the compiler intrinsic a build selects, byteSwap16,
    byteSwap32, byteSwap64 and the generic byteSwap return the same value,
    which moves bit [i] of the argument to bit
    [8 * (n - 1 - i / 8) + i mod 8] of the [n]-byte result; for the generic
    swap n is the size of the type, 1, 2, 4 or 8, signed or unsigned. *)
Theorem byteSwap_toolchain_independent
    (e e' : Env) (has_builtin has_builtin' : string -> bool) :
  (forall v, 0 <= v < 2 ^ 16 ->
             byteSwap16 e has_builtin v = byteSwap16 e' has_builtin' v)
  /\ (forall v, byteSwap32 e has_builtin v = byteSwap32 e' has_builtin' v)
  /\ (forall v, byteSwap64 e has_builtin v = byteSwap64 e' has_builtin' v)
  /\ (forall T v, byteSwap e has_builtin T v = byteSwap e' has_builtin' T v)
  /\ (forall v i, 0 <= v < 2 ^ 16 -> 0 <= i < 16 ->
        Z.testbit (byteSwap16 e has_builtin v) i = Z.testbit v (8 * (1 - i / 8) + i mod 8))
  /\ (forall v i, 0 <= i < 32 ->
        Z.testbit (byteSwap32 e has_builtin v) i = Z.testbit v (8 * (3 - i / 8) + i mod 8))
  /\ (forall v i, 0 <= i < 64 ->
        Z.testbit (byteSwap64 e has_builtin v) i = Z.testbit v (8 * (7 - i / 8) + i mod 8))
  /\ (forall T v w i,
        sizeof T = 1 \/ sizeof T = 2 \/ sizeof T = 4 \/ sizeof T = 8 ->
        byteSwap e has_builtin T v = Some w ->
        0 <= i < 8 * sizeof T ->
        Z.testbit w i = Z.testbit v (8 * (sizeof T - 1 - i / 8) + i mod 8)).
Proof.
  split; [intros v Hv; rewrite !byteSwap16_builtin by exact Hv; reflexivity|].
  split; [intros v; rewrite !byteSwap32_builtin; reflexivity|].
  split; [intros v; rewrite !byteSwap64_builtin; reflexivity|].
  split.
  { intros T v. unfold byteSwap.
    rewrite !byteSwap32_builtin, !byteSwap64_builtin.
    rewrite !(byteSwap16_builtin _ _ (to_unsigned 16 _)) by (apply to_unsigned_range; lia).
    reflexivity. }
  split; [|split; [|split]].
  - intros v i Hv Hi. rewrite byteSwap16_builtin by exact Hv.
    rewrite builtin_bswap_testbit by lia.
    change (8 * Z.of_nat 2) with 16. change (Z.of_nat 2 - 1) with 1.
    rewrite (proj2 (Z.ltb_lt i 16)) by lia. reflexivity.
  - intros v i Hi. rewrite byteSwap32_builtin. rewrite builtin_bswap_testbit by lia.
    change (8 * Z.of_nat 4) with 32. change (Z.of_nat 4 - 1) with 3.
    rewrite (proj2 (Z.ltb_lt i 32)) by lia. reflexivity.
  - intros v i Hi. rewrite byteSwap64_builtin. rewrite builtin_bswap_testbit by lia.
    change (8 * Z.of_nat 8) with 64. change (Z.of_nat 8 - 1) with 7.
    rewrite (proj2 (Z.ltb_lt i 64)) by lia. reflexivity.
  - intros T v w i. apply byteSwap_bits.
Qed.
End OneSwap.

Lemma byteSwap_toolchain_independent_witness :
  endianness.byteSwap16 {[ "_MSC_VER" := 1935 ]} (fun _ => false) 0xBEEF
  = endianness.byteSwap16 {[ "__GNUC__" := 13 ]} (fun _ => true) 0xBEEF
  /\ Z.testbit 256 8
     = Z.testbit 1 (8 * (endianness.sizeof (endianness.mkIntegralType 2 true) - 1 - 8 / 8)
                    + 8 mod 8).
Proof.
  pose proof (byteSwap_toolchain_independent {[ "_MSC_VER" := 1935 ]}
                {[ "__GNUC__" := 13 ]} (fun _ => false) (fun _ => true)) as H.
  split.
  - refine (proj1 H 0xBEEF _). lia.
  - refine (proj2 (proj2 (proj2 (proj2 (proj2 (proj2 (proj2 H))))))
              (endianness.mkIntegralType 2 true) 1 256 8 _ _ _).
    + right; left. reflexivity.
    + reflexivity.
    + cbn [endianness.sizeof]. lia.
Defined.

(** ** endianness.hpp and architecture.hpp: when no signal decides *)

(** Turns [Forall] over a list of signals into one fact per signal. *)
Ltac forall_signals H :=
  repeat match type of H with
  | Forall _ (_ :: _) =>
      let H1 := fresh "Hs" in
      apply Forall_cons_1 in H as [H1 H]; apply defined_false in H1
  end.

(** Case analysis on the signals of a goal [classifier = tag -> _], one at
    a time, dropping at once the cases where the classifier has answered
    another tag. *)
Ltac prune_defined e :=
  repeat first
    [ match goal with
      | |- context [defined e ?m] =>
          let Hd := fresh "Hd" in
          destruct (defined e m) eqn:Hd;
          [ apply defined_true in Hd | apply defined_false in Hd ];
          cbn [orb andb negb]; try (intros; discriminate)
      end
    | match goal with
      | |- (if ?c then _ else _) = _ -> _ => destruct c; try (intros; discriminate)
      end ].

Section Undecided.
Import endianness.

(** X5: the compile-time byte order is unknown exactly when neither
    named-constant triplet is complete and none of the eighteen single
    signals is present; in particular [__powerpc__] alone, [__MIPSEL__],
    [__riscv] or [__arm__] decide nothing. *)
Theorem detectByteOrderCompileTime_unknown (e : Env) :
  detectByteOrderCompileTime e = unknown
  <-> ~ triplet_complete e "__BYTE_ORDER__" "__ORDER_LITTLE_ENDIAN__" "__ORDER_BIG_ENDIAN__"
      /\ ~ triplet_complete e "BYTE_ORDER" "LITTLE_ENDIAN" "BIG_ENDIAN"
      /\ Forall (fun m => ~ signal e m) byte_order_flags.
Proof.
  unfold triplet_complete, byte_order_flags. split.
  - unfold detectByteOrderCompileTime. prune_defined e.
    all: intros _; (split; [tauto|]); (split; [tauto|]);
      repeat (apply Forall_cons; split; [assumption|]); apply Forall_nil; exact I.
  - intros (H1 & H2 & H3). forall_signals H3.
    unfold detectByteOrderCompileTime.
    repeat match goal with H : defined e _ = false |- _ => rewrite H; clear H end.
    cbn [orb andb].
    rewrite !andb_false_r.
    split_defined e; cbn [andb]; try reflexivity; exfalso; tauto.
Qed.
End Undecided.

Section ArchitectureSignals.
Import architecture.

(** X6: the architecture is unknown exactly when none of the twenty-six
    family signals is present. *)
Theorem detectCpuArchitecture_unknown (e : Env) :
  detectCpuArchitecture e = unknown <-> Forall (fun m => ~ signal e m) architecture_flags.
Proof.
  unfold architecture_flags. split.
  - unfold detectCpuArchitecture. prune_defined e.
    all: intros _; repeat (apply Forall_cons; split; [assumption|]);
      apply Forall_nil; exact I.
  - intros H. forall_signals H. unfold detectCpuArchitecture.
    repeat match goal with H : defined e _ = false |- _ => rewrite H; clear H end.
    reflexivity.
Qed.

(** X7: on a MIPS target the 64-bit test compares [_MIPS_SIM] with [_ABI64]
    as the preprocessor evaluates them, an undefined name counting as 0.
    The result is mips only when the two values differ and no MIPS64 signal
    is present; a MIPS build that defines neither name is classified
    mips_64. *)
Theorem detectCpuArchitecture_mips (e : Env) :
  no_x86_signal e -> no_arm_signal e -> mips_signal e ->
  (detectCpuArchitecture e = mips
   <-> ~ signal e "__mips64__" /\ ~ signal e "__mips64"
       /\ pp_value e "_MIPS_SIM" <> pp_value e "_ABI64")
  /\ (detectCpuArchitecture e <> mips -> detectCpuArchitecture e = mips_64)
  /\ (~ signal e "_MIPS_SIM" -> ~ signal e "_ABI64" -> detectCpuArchitecture e = mips_64).
Proof.
  unfold no_x86_signal, no_arm_signal, mips_signal. intros Hx Ha Hm.
  forall_signals Hx. forall_signals Ha.
  assert (defined e "__mips__" || defined e "__mips" || defined e "__MIPS__" = true) as Hm'.
  { rewrite !orb_true_iff, !defined_true. tauto. }
  unfold detectCpuArchitecture.
  repeat match goal with H : defined e _ = false |- _ => rewrite H; clear H end.
  cbn [orb]. rewrite Hm'.
  split; [|split].
  - split_defined e; cbn [orb];
      destruct (Z.eqb_spec (pp_value e "_MIPS_SIM") (pp_value e "_ABI64"));
      split; intros; try discriminate; try reflexivity; try tauto.
  - destruct (defined e "__mips64__" || defined e "__mips64"
              || (pp_value e "_MIPS_SIM" =? pp_value e "_ABI64")); [reflexivity|tauto].
  - intros H1 H2. apply defined_false in H1, H2.
    unfold pp_value, defined in *.
    destruct (e !! "_MIPS_SIM"); [discriminate|].
    destruct (e !! "_ABI64"); [discriminate|].
    rewrite Z.eqb_refl, !orb_true_r. reflexivity.
Qed.

(** X8: the defaults inside a family.  A 32-bit ARM target (generic ARM
    signal, no x86 and no AArch64 signal) with no sub-version signal is
    arm_v7, and is never unknown; a RISC-V target (no earlier family) is
    risc_v_32 only when [__riscv_xlen] is defined as 32, and risc_v_64 in
    every other case, also for an unrecognised width. *)
Theorem detectCpuArchitecture_defaults (e : Env) :
  no_x86_signal e ->
  (~ signal e "__aarch64__" -> ~ signal e "_M_ARM64" ->
   signal e "__arm__" \/ signal e "_M_ARM" ->
   (detectCpuArchitecture e = arm_v8_32 \/ detectCpuArchitecture e = arm_v7
    \/ detectCpuArchitecture e = arm_v6)
   /\ (Forall (fun m => ~ signal e m)
         ["__ARM_ARCH_8__"; "__ARM_ARCH_8A__"; "__ARM_ARCH_6__"; "__ARM_ARCH_6J__";
          "__ARM_ARCH_6K__"; "__ARM_ARCH_6Z__"; "__ARM_ARCH_6ZK__"; "__ARM_ARCH_6T2__"] ->
       detectCpuArchitecture e = arm_v7))
  /\ (no_arm_signal e ->
      Forall (fun m => ~ signal e m)
        ["__mips__"; "__mips"; "__MIPS__";
         "__powerpc__"; "__powerpc"; "__ppc__"; "__ppc"; "_M_PPC"] ->
      signal e "__riscv" ->
      (detectCpuArchitecture e = risc_v_32 <-> e !! "__riscv_xlen" = Some 32)
      /\ (e !! "__riscv_xlen" <> Some 32 -> detectCpuArchitecture e = risc_v_64)).
Proof.
  unfold no_x86_signal, no_arm_signal. intros Hx. forall_signals Hx. split.
  - intros H1%defined_false H2%defined_false Harm.
    assert (defined e "__arm__" || defined e "_M_ARM" = true) as Harm'.
    { rewrite orb_true_iff, !defined_true. exact Harm. }
    unfold detectCpuArchitecture.
    repeat match goal with H : defined e _ = false |- _ => rewrite H; clear H end.
    cbn [orb]. rewrite Harm'. split.
    + repeat match goal with
      | |- context [if ?c then _ else _] => destruct c
      end; tauto.
    + intros Hsub. forall_signals Hsub.
      repeat match goal with H : defined e _ = false |- _ => rewrite H; clear H end.
      cbn [orb].
      repeat match goal with
      | |- context [if ?c then _ else _] => destruct c
      end; reflexivity.
  - intros Ha Ho Hr%defined_true. forall_signals Ha. forall_signals Ho.
    unfold detectCpuArchitecture.
    repeat match goal with H : defined e _ = false |- _ => rewrite H; clear H end.
    cbn [orb]. rewrite Hr. unfold defined, pp_value.
    destruct (e !! "__riscv_xlen") as [x|]; cbn [andb].
    + destruct (Z.eqb_spec x 64), (Z.eqb_spec x 32); subst; split;
        try (split; intros; congruence); try (intros; congruence); try lia.
    + split; [split; intros; discriminate | reflexivity].
Qed.
End ArchitectureSignals.

Lemma detectCpuArchitecture_mips_witness :
  architecture.detectCpuArchitecture {[ "__mips__" := 1 ]} = architecture.mips_64.
Proof.
  refine (proj2 (proj2 (detectCpuArchitecture_mips {[ "__mips__" := 1 ]} _ _ _)) _ _).
  - unfold no_x86_signal. repeat (apply Forall_cons; split; [absent|]). apply Forall_nil; exact I.
  - unfold no_arm_signal. repeat (apply Forall_cons; split; [absent|]). apply Forall_nil; exact I.
  - left. present.
  - absent.
  - absent.
Defined.

Lemma detectCpuArchitecture_defaults_witness :
  architecture.detectCpuArchitecture {[ "__riscv" := 1; "__riscv_xlen" := 128 ]}
  = architecture.risc_v_64.
Proof.
  refine (proj2 (proj2 (detectCpuArchitecture_defaults
            {[ "__riscv" := 1; "__riscv_xlen" := 128 ]} _) _ _ _) _).
  - unfold no_x86_signal. repeat (apply Forall_cons; split; [absent|]). apply Forall_nil; exact I.
  - unfold no_arm_signal. repeat (apply Forall_cons; split; [absent|]). apply Forall_nil; exact I.
  - repeat (apply Forall_cons; split; [absent|]). apply Forall_nil; exact I.
  - present.
  - vm_compute. discriminate.
Defined.

(** ** architecture.hpp: capabilities *)

Section Capabilities.
Import architecture.

(** X9: on the detected architecture SIMD support or vector instructions
    imply a known architecture, and vector instructions imply 64-bit
    pointers.  For the info of getArchitectureInfo, in a build where it
    has one: the free function hasSimdSupport, the member hasSimdSupport and
    supportsUnalignedAccess agree; ARM and x86 exclude each other; the free
    functions is64BitArchitecture and is32BitArchitecture agree with the
    members; and the cache line is 32, 64 or 128 bytes, 32 exactly on
    arm_v6 and arm_v7. *)
Theorem architecture_capabilities (e : Env) (sizeof_void_ptr : Z) :
  (hasSimdSupport e = true \/ hasVectorInstructions e = true ->
   supportsCacheLineAlignment e = true)
  /\ (hasVectorInstructions e = true -> is64BitArchitecture e sizeof_void_ptr = true)
  /\ forall info : ArchitectureInfo,
       getArchitectureInfo e sizeof_void_ptr = Some info ->
       hasSimdSupport e = ArchitectureInfo_hasSimdSupport info
       /\ hasSimdSupport e = supportsUnalignedAccess info
       /\ isARM info && isX86 info = false
       /\ (hasSimdSupport e = true -> isARM info = true \/ isX86 info = true)
       /\ (hasVectorInstructions e = true -> is64Bit info = true)
       /\ is64BitArchitecture e sizeof_void_ptr = is64Bit info
       /\ is32BitArchitecture e sizeof_void_ptr = is32Bit info
       /\ (cache_line_size info = 32 \/ cache_line_size info = 64
           \/ cache_line_size info = 128)
       /\ (cache_line_size info = 32
           <-> architecture info = arm_v6 \/ architecture info = arm_v7).
Proof.
  split; [|split].
  - unfold hasSimdSupport, hasVectorInstructions, supportsCacheLineAlignment,
      getCpuArchitecture.
    destruct (detectCpuArchitecture e); cbn; intros [H|H];
      try reflexivity; discriminate.
  - unfold hasVectorInstructions, is64BitArchitecture, getPointerSize, getCpuArchitecture,
      detectPointerSize.
    destruct (detectCpuArchitecture e); cbn; intros H; try reflexivity; discriminate.
  - intros info. unfold getArchitectureInfo.
    destruct (endianness.getByteOrder e) as [order|]; [|discriminate]. intros [= <-].
    unfold hasSimdSupport, ArchitectureInfo_hasSimdSupport, supportsUnalignedAccess, isARM,
      isX86, hasVectorInstructions, is64Bit, is32Bit,
      is64BitArchitecture, is32BitArchitecture, getPointerSize, getCpuArchitecture,
      detectPointerSize, detectCacheLineSize.
    cbn [architecture pointer_size_bits cache_line_size].
    destruct (detectCpuArchitecture e); cbn;
      repeat split; intros; try reflexivity; try discriminate; try tauto;
      try (right; tauto); try (left; reflexivity);
      repeat match goal with H : _ \/ _ |- _ => destruct H end; try discriminate; tauto.
Qed.
End Capabilities.

(** A 64-bit RISC-V build, as GCC announces it. *)
Lemma architecture_capabilities_witness :
  let e : Env := {[ "__riscv" := 1; "__riscv_xlen" := 64; "__BYTE_ORDER__" := 1234;
                    "__ORDER_LITTLE_ENDIAN__" := 1234; "__ORDER_BIG_ENDIAN__" := 4321 ]} in
  exists info : architecture.ArchitectureInfo,
    architecture.getArchitectureInfo e 8 = Some info /\ architecture.is64Bit info = true.
Proof.
  cbv zeta. eexists. split; [vm_compute; reflexivity|].
  refine (proj1 (proj2 (proj2 (proj2 (proj2
            (proj2 (proj2 (architecture_capabilities
               {[ "__riscv" := 1; "__riscv_xlen" := 64; "__BYTE_ORDER__" := 1234;
                  "__ORDER_LITTLE_ENDIAN__" := 1234; "__ORDER_BIG_ENDIAN__" := 4321 ]} 8))
               _ eq_refl))))) _).
  reflexivity.
Defined.

(** ** typeinfo.hpp *)

Section Alignment.
Import typeinfo.
Variable size_bits : Z.
Hypothesis size_bits_pos : 0 < size_bits.

(** Masking with the complement of [2^k - 1] clears the low [k] bits. *)
Lemma land_not_low_mask (x k : Z) :
  0 <= k < size_bits -> 0 <= x < 2 ^ size_bits ->
  Z.land x (bit_not size_bits (to_unsigned size_bits (2 ^ k - 1))) = x - x mod 2 ^ k.
Proof.
  intros Hk Hx. unfold bit_not.
  assert (0 < 2 ^ k < 2 ^ size_bits) as Hp.
  { split; [apply Z.pow_pos_nonneg; lia | apply Z.pow_lt_mono_r; lia]. }
  rewrite (to_unsigned_small size_bits (2 ^ k - 1)) by lia.
  replace (x - x mod 2 ^ k) with (Z.shiftl (Z.shiftr x k) k).
  2:{ rewrite Z.shiftl_mul_pow2, Z.shiftr_div_pow2 by lia.
      pose proof (Z.div_mod x (2 ^ k)). lia. }
  apply Z.bits_inj'. intros i Hi.
  rewrite Z.land_spec. unfold to_unsigned. rewrite Z.testbit_mod_pow2 by lia.
  rewrite Z.lnot_spec by lia. replace (2 ^ k - 1) with (Z.ones k)
    by (rewrite Z.ones_equiv; lia).
  rewrite Z.testbit_ones by lia.
  destruct (Z.ltb_spec i k) as [Hlt|Hge].
  - rewrite Z.shiftl_spec_low by lia. decide_cmp. bool_tidy. reflexivity.
  - rewrite Z.shiftl_spec, Z.shiftr_spec by lia.
    replace (i - k + k) with i by lia.
    destruct (Z.ltb_spec i size_bits) as [Hw|Hw]; decide_cmp; bool_tidy.
    + reflexivity.
    + symmetry. apply (testbit_above size_bits); lia.
Qed.

(** X10: alignedSize rounds up to the alignment.  For an alignment that is
    a power of two and a size whose rounding does not overflow [size_t],
    the result is the least multiple of the alignment that is not below
    the size; it is aligned, and aligning it again changes nothing.
    alignedAddress is the same computation. *)
Theorem alignedSize_rounds_up (size k : Z) :
  0 <= k < size_bits -> 0 <= size -> size + 2 ^ k - 1 < 2 ^ size_bits ->
  let r := alignedSize size_bits size (2 ^ k) in
  r mod 2 ^ k = 0
  /\ size <= r < size + 2 ^ k
  /\ (forall m, m mod 2 ^ k = 0 -> size <= m -> r <= m)
  /\ isAligned size_bits r (2 ^ k) = true
  /\ alignedSize size_bits r (2 ^ k) = r
  /\ alignedAddress size_bits size (2 ^ k) = r.
Proof.
  intros Hk Hs Hov.
  assert (0 < 2 ^ k) as Hp by (apply Z.pow_pos_nonneg; lia).
  assert (forall s, 0 <= s -> s + 2 ^ k - 1 < 2 ^ size_bits ->
            alignedSize size_bits s (2 ^ k)
            = (s + 2 ^ k - 1) - (s + 2 ^ k - 1) mod 2 ^ k) as Heq.
  { intros s Hs0 Hs1. unfold alignedSize.
    assert (to_unsigned size_bits (to_unsigned size_bits (s + 2 ^ k) - 1)
            = s + 2 ^ k - 1) as ->.
    { unfold to_unsigned. rewrite Zminus_mod_idemp_l. apply Z.mod_small. lia. }
    apply land_not_low_mask; lia. }
  cbn zeta. rewrite Heq by lia.
  set (x := size + 2 ^ k - 1) in *.
  pose proof (Z.mod_pos_bound x (2 ^ k) Hp) as Hm.
  pose proof (Z.div_mod x (2 ^ k) ltac:(lia)) as Hdm.
  assert ((x - x mod 2 ^ k) mod 2 ^ k = 0) as Hmult.
  { replace (x - x mod 2 ^ k) with (x / 2 ^ k * 2 ^ k) by lia. apply Z_mod_mult. }
  assert (size <= x - x mod 2 ^ k) as Hlow.
  { (* x - x mod a >= size: otherwise x - x mod a <= size - 1 ... *)
    destruct (Z_le_gt_dec size (x - x mod 2 ^ k)) as [H|H]; [exact H|].
    exfalso.
    (* size - 1 >= r, r multiple of a, x = size + a - 1 < r + a  *)
    subst x. lia. }
  split; [exact Hmult|]. split; [subst x; lia|]. split.
  { intros m Hmm Hsm.
    apply Z.mod_divide in Hmm; [|lia]. destruct Hmm as [q Hq].
    apply Z.mod_divide in Hmult; [|lia]. destruct Hmult as [p Hpq].
    assert (p * 2 ^ k < (q + 1) * 2 ^ k) as Hlt by (subst x; lia).
    apply Z.mul_lt_mono_pos_r in Hlt; [|lia].
    rewrite Hpq, Hq. apply Z.mul_le_mono_nonneg_r; lia. }
  split.
  { unfold isAligned.
    rewrite (to_unsigned_small size_bits (2 ^ k - 1)).
    2:{ split; [lia|]. assert (2 ^ k < 2 ^ size_bits) by (apply Z.pow_lt_mono_r; lia). lia. }
    replace (2 ^ k - 1) with (Z.ones k) by (rewrite Z.ones_equiv; lia).
    rewrite Z.land_ones by lia. rewrite Hmult. reflexivity. }
  split.
  { assert (x - x mod 2 ^ k + 2 ^ k <= 2 ^ size_bits) as Hfit.
    { assert (2 ^ size_bits = 2 ^ (size_bits - k) * 2 ^ k) as Hw.
      { rewrite <- Z.pow_add_r by lia. f_equal. lia. }
      replace (x - x mod 2 ^ k) with (x / 2 ^ k * 2 ^ k) in * by lia.
      assert (x / 2 ^ k * 2 ^ k < 2 ^ (size_bits - k) * 2 ^ k) as Hlt by (subst x; lia).
      apply Z.mul_lt_mono_pos_r in Hlt; [|lia].
      rewrite Hw. replace (x / 2 ^ k * 2 ^ k + 2 ^ k) with ((x / 2 ^ k + 1) * 2 ^ k) by lia.
      apply Z.mul_le_mono_nonneg_r; lia. }
    rewrite Heq by (subst x; lia).
    set (r := x - x mod 2 ^ k) in *.
    replace (r + 2 ^ k - 1) with ((2 ^ k - 1) + (r / 2 ^ k) * 2 ^ k).
    2:{ pose proof (Z.div_mod r (2 ^ k) ltac:(lia)). lia. }
    rewrite Z_mod_plus_full, Z.mod_small by lia.
    pose proof (Z.div_mod r (2 ^ k) ltac:(lia)). lia. }
  change (alignedSize size_bits size (2 ^ k) = x - x mod 2 ^ k).
  apply Heq; subst x; lia.
Qed.

(** X11: isAligned tests divisibility: for an alignment that is a power of
    two below the width of the address, an address is aligned exactly when
    it is a multiple of the alignment.  Alignment 1 accepts every address,
    and alignment 0, whose mask is all ones, only address 0. *)
Theorem isAligned_divides (addr k : Z) :
  0 <= k < size_bits -> 0 <= addr < 2 ^ size_bits ->
  (isAligned size_bits addr (2 ^ k) = true <-> addr mod 2 ^ k = 0)
  /\ isAligned size_bits addr 1 = true
  /\ (isAligned size_bits addr 0 = true <-> addr = 0).
Proof.
  intros Hk Ha.
  assert (0 < 2 ^ k < 2 ^ size_bits) as Hp.
  { split; [apply Z.pow_pos_nonneg; lia | apply Z.pow_lt_mono_r; lia]. }
  split; [|split].
  - unfold isAligned. rewrite (to_unsigned_small size_bits (2 ^ k - 1)) by lia.
    replace (2 ^ k - 1) with (Z.ones k) by (rewrite Z.ones_equiv; lia).
    rewrite Z.land_ones by lia. apply Z.eqb_eq.
  - unfold isAligned. change (1 - 1) with 0. unfold to_unsigned.
    rewrite Z.mod_0_l by lia. rewrite Z.land_0_r. reflexivity.
  - unfold isAligned, to_unsigned. change (0 - 1) with (-1).
    replace (-1 mod 2 ^ size_bits) with (Z.ones size_bits).
    2:{ rewrite Z.ones_equiv. symmetry.
        replace (-1) with (Z.pred (2 ^ size_bits) + (-1) * 2 ^ size_bits) by lia.
        rewrite Z_mod_plus_full. apply Z.mod_small. lia. }
    rewrite Z.land_ones by lia. rewrite Z.mod_small by lia. apply Z.eqb_eq.
Qed.
End Alignment.

Lemma alignedSize_rounds_up_witness :
  typeinfo.alignedSize 64 13 (2 ^ 3) mod 2 ^ 3 = 0
  /\ 13 <= typeinfo.alignedSize 64 13 (2 ^ 3) < 13 + 2 ^ 3.
Proof.
  split.
  - refine (proj1 (alignedSize_rounds_up 64 _ 13 3 _ _ _)); lia.
  - refine (proj1 (proj2 (alignedSize_rounds_up 64 _ 13 3 _ _ _))); lia.
Defined.

Lemma isAligned_divides_witness :
  typeinfo.isAligned 64 4096 (2 ^ 12) = true.
Proof.
  refine (proj2 (proj1 (isAligned_divides 64 _ 4096 12 _ _)) _).
  - lia.
  - lia.
  - lia.
  - reflexivity.
Defined.

Section Padding.
Import typeinfo.

(** X12: calculateTypePadding is the distance from the size to the next
    multiple of the alignment: for a positive alignment it lies in
    [0, alignment), size plus padding is a multiple of the alignment, and
    it is zero exactly when the size already is one (or the type is
    fundamental, a pointer or empty).  A type whose size is a multiple of its
    alignment therefore has no padding by hasTypePadding. *)
Theorem calculateTypePadding_spec (T : TypeTraits) :
  0 < type_alignment T -> 0 <= type_size T ->
  0 <= calculateTypePadding T < type_alignment T
  /\ (is_fundamental T || is_pointer T || is_empty T = false ->
      (type_size T + calculateTypePadding T) mod type_alignment T = 0
      /\ (calculateTypePadding T = 0 <-> type_size T mod type_alignment T = 0))
  /\ (type_size T mod type_alignment T = 0 ->
      calculateTypePadding T = 0 /\ hasTypePadding T = false).
Proof.
  intros Ha Hs. unfold hasTypePadding, calculateTypePadding.
  pose proof (Z.mod_pos_bound (type_size T) (type_alignment T) Ha) as Hm.
  pose proof (Z.mod_pos_bound (type_alignment T - type_size T mod type_alignment T)
                (type_alignment T) Ha) as Hp.
  split; [|split].
  - destruct (is_fundamental T || is_pointer T); [lia|].
    destruct (is_empty T); lia.
  - intros Hk. apply orb_false_elim in Hk as [Hk ->]. rewrite Hk.
    set (a := type_alignment T) in *. set (s := type_size T) in *.
    destruct (Z.eq_dec (s mod a) 0) as [H0|Hn0].
    + rewrite H0, Z.sub_0_r, Z_mod_same_full, Z.add_0_r. tauto.
    + rewrite (Z.mod_small (a - s mod a) a) by lia.
      split.
      * replace (s + (a - s mod a)) with ((s - s mod a) + 1 * a) by lia.
        rewrite Z_mod_plus_full.
        pose proof (Z.div_mod s a ltac:(lia)).
        replace (s - s mod a) with (s / a * a) by lia. apply Z_mod_mult.
      * split; intros; lia.
  - intros H0. rewrite H0, Z.sub_0_r, Z_mod_same_full.
    destruct (is_fundamental T || is_pointer T); [split; reflexivity|].
    destruct (is_empty T); split; reflexivity.
Qed.
End Padding.

Lemma calculateTypePadding_spec_witness :
  0 <= typeinfo.calculateTypePadding (typeinfo.mkTypeTraits 12 8 false false false) < 8.
Proof.
  refine (proj1 (calculateTypePadding_spec
            (typeinfo.mkTypeTraits 12 8 false false false) _ _)).
  - cbn. lia.
  - cbn. lia.
Defined.

(** ** compiler.hpp: capabilities, decoding and the macro layer *)

Section CompilerCapabilities.
Import compiler.

(** X13: the capability flags of getCompilerInfo follow from the compiler
    type alone.  GCC- and Clang-compatibility exclude each other; inline
    assembly is reported exactly for the compilers compatible with one of
    them; builtin attributes and colour diagnostics are reported together,
    only where inline assembly is, and the one compiler with inline assembly
    but without them is intel_classic.  The name passed to
    hasBuiltinAttribute has no influence. *)
Theorem compiler_capabilities (e : Env) :
  let info := getCompilerInfo e in
  isGccCompatible info && isClangCompatible info = false
  /\ has_inline_assembly info = isGccCompatible info || isClangCompatible info
  /\ has_builtin_attribute info = has_color_diagnostics info
  /\ (has_builtin_attribute info = true -> has_inline_assembly info = true)
  /\ (has_inline_assembly info = true /\ has_builtin_attribute info = false
      <-> type info = intel_classic)
  /\ (isGccCompatible info = false /\ isClangCompatible info = false
      <-> type info = unknown \/ type info = msvc)
  /\ (forall attribute_name,
         hasBuiltinAttribute e attribute_name = has_builtin_attribute info).
Proof.
  cbn zeta. unfold isGccCompatible, isClangCompatible, getCompilerInfo.
  cbn [type has_inline_assembly has_builtin_attribute has_color_diagnostics].
  unfold hasBuiltinAttribute, supportsInlineAssembly, hasColorDiagnostics.
  destruct (getCompilerType e); cbn; repeat split; intros;
    try reflexivity; try discriminate; try tauto;
    repeat match goal with
    | H : _ /\ _ |- _ => destruct H
    | H : _ \/ _ |- _ => destruct H
    end; try discriminate; auto.
Qed.
End CompilerCapabilities.

Lemma compiler_capabilities_witness :
  compiler.has_inline_assembly (compiler.getCompilerInfo {[ "__GNUC__" := 13 ]}) = true.
Proof.
  refine (proj1 (proj2 (proj2 (proj2 (compiler_capabilities {[ "__GNUC__" := 13 ]})))) _).
  reflexivity.
Defined.

Section VersionDecoding.
Import compiler.

Lemma combined_version_decode (e : Env) (c : Z) :
  combined_version e = Some c ->
  getCompilerVersion e
  = if defined e "__INTEL_COMPILER"
    then CompilerVersion_ctor (c ÷ 100) (Z.rem c 100 ÷ 10) (Z.rem c 10)
    else if 1940 <=? c then CompilerVersion_ctor 19 4 (c - 1940)
    else if 1930 <=? c then CompilerVersion_ctor 19 3 (c - 1930)
    else if 1920 <=? c then CompilerVersion_ctor 19 2 (c - 1920)
    else if 1910 <=? c then CompilerVersion_ctor 19 1 (c - 1910)
    else if 1900 <=? c then CompilerVersion_ctor 19 0 (c - 1900)
    else CompilerVersion_ctor (c ÷ 100) (Z.rem c 100 ÷ 10) (Z.rem c 10).
Proof.
  unfold combined_version, getCompilerVersion, defined, pp_value.
  destruct (e !! "__INTEL_COMPILER") as [v|]; [intros [= ->]; reflexivity|].
  destruct (e !! "__clang__"); [discriminate|].
  destruct (e !! "__GNUC__"); [discriminate|].
  intros ->. reflexivity.
Qed.

Lemma digit_split (c : Z) :
  0 <= c ->
  100 * (c ÷ 100) + 10 * (Z.rem c 100 ÷ 10) + Z.rem c 10 = c
  /\ 0 <= c ÷ 100 /\ 0 <= Z.rem c 100 ÷ 10 <= 9 /\ 0 <= Z.rem c 10 <= 9.
Proof.
  intros Hc.
  rewrite (Z.rem_mod_nonneg c 100), (Z.rem_mod_nonneg c 10) by lia.
  rewrite (Z.quot_div_nonneg c 100) by lia.
  rewrite (Z.quot_div_nonneg (c mod 100) 10) by (try apply Z.mod_pos_bound; lia).
  Z.div_mod_to_equations. lia.
Qed.

(** The release boundaries of [_MSC_VER]. *)
Ltac msvc_cases c :=
  let H := fresh "Hrange" in
  assert (c < 1900 \/ 1900 <= c < 1910 \/ 1910 <= c < 1920 \/ 1920 <= c < 1930
          \/ 1930 <= c < 1940 \/ 1940 <= c) as H by lia;
  destruct H as [H|[H|[H|[H|[H|H]]]]]; decide_cmp.

(** Names the digits of [c] and drops the conversions to [int]. *)
Ltac plain_ctor c :=
  let Hd := fresh "Hdigits" in
  pose proof (digit_split c ltac:(lia)) as Hd;
  generalize dependent (c ÷ 100); generalize dependent (Z.rem c 100 ÷ 10);
  generalize dependent (Z.rem c 10); intros;
  rewrite ?CompilerVersion_ctor_id by (unfold INT_MIN, INT_MAX; lia);
  cbn [major minor patch].

(** X14: the decode of a combined version integer loses nothing.  For the
    Intel signal and for [_MSC_VER] alike, with the signal a non-negative
    [int] value c, the decoded triple has non-negative components with
    100 * major + 10 * minor + patch = c, and on the digit split (Intel, or
    [_MSC_VER] below 1900) minor and patch are single digits. *)
Theorem combined_version_lossless (e : Env) (c : Z) :
  combined_version e = Some c -> 0 <= c <= INT_MAX ->
  let v := getCompilerVersion e in
  100 * major v + 10 * minor v + patch v = c
  /\ 0 <= major v /\ 0 <= minor v /\ 0 <= patch v
  /\ (signal e "__INTEL_COMPILER" \/ c < 1900 -> minor v <= 9 /\ patch v <= 9).
Proof.
  intros Hc Hr. cbn zeta. rewrite (combined_version_decode e c Hc).
  unfold INT_MAX in Hr.
  destruct (defined e "__INTEL_COMPILER") eqn:Hd.
  - plain_ctor c. lia.
  - apply defined_false in Hd.
    msvc_cases c; plain_ctor c; do 4 (split; [lia|]);
      (intros [Hs|Hlt]; [contradiction | lia]).
Qed.

Lemma lex_le_operators (a b : CompilerVersion) :
  lex_lt a b \/ a = b -> le a b = true /\ ge b a = true.
Proof.
  intros Hab.
  assert (le a b = true) as Hle.
  { unfold le. destruct Hab as [Hl | ->].
    - rewrite (proj2 (lt_lex a b) Hl). reflexivity.
    - rewrite (proj2 (eq_iff b b) eq_refl). apply orb_true_r. }
  split; [exact Hle|].
  unfold ge. unfold lex_lt in Hab.
  assert (major a < major b \/ major a = major b /\ (minor a < minor b
          \/ minor a = minor b /\ patch a <= patch b)) as Hord.
  { destruct Hab as [Hl | ->]; lia. }
  split_cmp; cbn [negb]; try reflexivity; lia.
Qed.

(** X15: decoding is monotone, so version checks can be made on the raw
    signal: for two builds of the same vendor with combined version
    integers 0 <= c1 <= c2, the decoded version of the first is [<=] that of
    the second, and [>=] holds the other way round. *)
Theorem combined_version_monotone (e1 e2 : Env) (c1 c2 : Z) :
  combined_version e1 = Some c1 -> combined_version e2 = Some c2 ->
  (signal e1 "__INTEL_COMPILER" <-> signal e2 "__INTEL_COMPILER") ->
  0 <= c1 <= c2 -> c2 <= INT_MAX ->
  le (getCompilerVersion e1) (getCompilerVersion e2) = true
  /\ ge (getCompilerVersion e2) (getCompilerVersion e1) = true.
Proof.
  intros H1 H2 Hsame Hc Hmax. unfold INT_MAX in Hmax.
  rewrite (combined_version_decode e1 c1 H1), (combined_version_decode e2 c2 H2).
  assert (defined e1 "__INTEL_COMPILER" = defined e2 "__INTEL_COMPILER") as Hd.
  { destruct (defined e1 "__INTEL_COMPILER") eqn:Ha, (defined e2 "__INTEL_COMPILER") eqn:Hb;
      try reflexivity.
    - apply defined_true in Ha. apply defined_false in Hb. tauto.
    - apply defined_false in Ha. apply defined_true in Hb. tauto. }
  rewrite Hd. apply lex_le_operators.
  destruct (Z.eq_dec c1 c2) as [->|Hne]; [right; reflexivity|left].
  destruct (defined e2 "__INTEL_COMPILER").
  - plain_ctor c1. plain_ctor c2. unfold lex_lt. cbn [major minor patch]. lia.
  - msvc_cases c1; msvc_cases c2; try lia; plain_ctor c1; plain_ctor c2; unfold lex_lt;
      cbn [major minor patch]; lia.
Qed.
End VersionDecoding.

Lemma combined_version_lossless_witness :
  100 * compiler.major (compiler.getCompilerVersion {[ "_MSC_VER" := 1937 ]})
  + 10 * compiler.minor (compiler.getCompilerVersion {[ "_MSC_VER" := 1937 ]})
  + compiler.patch (compiler.getCompilerVersion {[ "_MSC_VER" := 1937 ]}) = 1937.
Proof.
  refine (proj1 (combined_version_lossless {[ "_MSC_VER" := 1937 ]} 1937 _ _)).
  - reflexivity.
  - unfold INT_MAX. lia.
Defined.

Lemma combined_version_monotone_witness :
  compiler.le (compiler.getCompilerVersion {[ "_MSC_VER" := 1899 ]})
              (compiler.getCompilerVersion {[ "_MSC_VER" := 1941 ]}) = true.
Proof.
  refine (proj1 (combined_version_monotone {[ "_MSC_VER" := 1899 ]} {[ "_MSC_VER" := 1941 ]}
                   1899 1941 _ _ _ _ _)).
  - reflexivity.
  - reflexivity.
  - split; intros H; exfalso; revert H; absent.
  - lia.
  - unfold INT_MAX. lia.
Defined.

Section CompilerMacros.
Import compiler.

(** X16: the preprocessor macros against getCompilerType.  TRLC_COMPILER_GCC,
    TRLC_COMPILER_CLANG and TRLC_COMPILER_INTEL_LLVM are 1 exactly when the
    function returns gcc, clang and intel_llvm.  The other three are weaker:
    TRLC_COMPILER_INTEL = 1 implies intel_classic, and msvc and mingw imply
    TRLC_COMPILER_MSVC = 1 and TRLC_COMPILER_MINGW = 1, but not the other
    way round: with only [__ICC] the type is intel_classic and
    TRLC_COMPILER_INTEL is 0; with [_MSC_VER] and [__ICL] the type is
    intel_classic and TRLC_COMPILER_MSVC is 1; with [__clang__], [__GNUC__]
    and [__MINGW32__] the type is clang and both TRLC_COMPILER_CLANG and
    TRLC_COMPILER_MINGW are 1. *)
Theorem compiler_macros_against_type :
  (forall e : Env,
      (TRLC_COMPILER_GCC e = 1 <-> getCompilerType e = gcc)
      /\ (TRLC_COMPILER_CLANG e = 1 <-> getCompilerType e = clang)
      /\ (TRLC_COMPILER_INTEL_LLVM e = 1 <-> getCompilerType e = intel_llvm)
      /\ (TRLC_COMPILER_INTEL e = 1 -> getCompilerType e = intel_classic)
      /\ (getCompilerType e = msvc -> TRLC_COMPILER_MSVC e = 1)
      /\ (getCompilerType e = mingw -> TRLC_COMPILER_MINGW e = 1))
  /\ (let e : Env := {[ "__ICC" := 1 ]} in
      getCompilerType e = intel_classic /\ TRLC_COMPILER_INTEL e = 0)
  /\ (let e : Env := {[ "_MSC_VER" := 1935; "__ICL" := 1 ]} in
      getCompilerType e = intel_classic /\ TRLC_COMPILER_MSVC e = 1)
  /\ (let e : Env := {[ "__clang__" := 1; "__GNUC__" := 4; "__MINGW32__" := 1 ]} in
      getCompilerType e = clang /\ TRLC_COMPILER_CLANG e = 1
      /\ TRLC_COMPILER_MINGW e = 1).
Proof.
  split; [|repeat split; vm_compute; reflexivity].
  intros e.
  unfold TRLC_COMPILER_GCC, TRLC_COMPILER_CLANG, TRLC_COMPILER_INTEL_LLVM,
    TRLC_COMPILER_INTEL, TRLC_COMPILER_MSVC, TRLC_COMPILER_MINGW, getCompilerType.
  destruct (defined e "__INTEL_COMPILER"), (defined e "__ICL"), (defined e "__ICC"),
    (defined e "__clang__"), (defined e "__GNUC__"), (defined e "__MINGW32__"),
    (defined e "__MINGW64__"), (defined e "_MSC_VER"); cbn;
    repeat split; intros Hyp; try reflexivity; try discriminate.
Qed.

(** X17: TRLC_COMPILER_VERSION_ATLEAST is [operator>=] of getCompilerVersion.
    When the three version macros are [int] values, the macro at
    (major, minor, patch) agrees with
    getCompilerVersion() >= CompilerVersion{major, minor, patch}, and the
    version macros are the components of getCompilerVersion(). *)
Theorem version_atleast_macro (e : Env) (maj min pat : Z) :
  version_in_int_range e ->
  major (getCompilerVersion e) = TRLC_COMPILER_VERSION_MAJOR e
  /\ minor (getCompilerVersion e) = TRLC_COMPILER_VERSION_MINOR e
  /\ patch (getCompilerVersion e) = TRLC_COMPILER_VERSION_PATCH e
  /\ TRLC_COMPILER_VERSION_ATLEAST e maj min pat
     = ge (getCompilerVersion e) (mkCompilerVersion maj min pat).
Proof.
  intros (Hmaj & Hmin & Hpat).
  assert (getCompilerVersion e
          = mkCompilerVersion (TRLC_COMPILER_VERSION_MAJOR e)
              (TRLC_COMPILER_VERSION_MINOR e) (TRLC_COMPILER_VERSION_PATCH e)) as Hv.
  { rewrite <- (CompilerVersion_ctor_id (TRLC_COMPILER_VERSION_MAJOR e)
                  (TRLC_COMPILER_VERSION_MINOR e) (TRLC_COMPILER_VERSION_PATCH e))
      by assumption.
    unfold getCompilerVersion, TRLC_COMPILER_VERSION_MAJOR, TRLC_COMPILER_VERSION_MINOR,
      TRLC_COMPILER_VERSION_PATCH.
    destruct (defined e "__INTEL_COMPILER"); [reflexivity|].
    destruct (defined e "__clang__"); [reflexivity|].
    destruct (defined e "__GNUC__");
      [destruct (defined e "__GNUC_PATCHLEVEL__"); reflexivity|].
    destruct (defined e "_MSC_VER"); [|reflexivity].
    cbn zeta.
    repeat match goal with
    | |- context [?a <=? ?b] => destruct (a <=? b); try reflexivity
    end. }
  rewrite Hv. cbn [major minor patch]. repeat split.
  unfold TRLC_COMPILER_VERSION_ATLEAST, ge. cbn [major minor patch].
  generalize (TRLC_COMPILER_VERSION_MAJOR e) (TRLC_COMPILER_VERSION_MINOR e)
    (TRLC_COMPILER_VERSION_PATCH e). intros a b c.
  split_cmp; cbn [negb andb orb]; try reflexivity; lia.
Qed.
End CompilerMacros.

Lemma version_atleast_macro_witness :
  compiler.TRLC_COMPILER_VERSION_ATLEAST
    {[ "__GNUC__" := 13; "__GNUC_MINOR__" := 2 ]} 13 1 5 = true.
Proof.
  pose (e := ({[ "__GNUC__" := 13; "__GNUC_MINOR__" := 2 ]} : Env)).
  refine (eq_trans (proj2 (proj2 (proj2 (version_atleast_macro e 13 1 5 _)))) _).
  - unfold version_in_int_range, INT_MIN, INT_MAX. vm_compute.
    repeat split; discriminate.
  - reflexivity.
Defined.

(** ** cpp_standard.hpp: ordering of the standards and feature names *)

Section StandardOrder.
Import cpp_standard.
Variable long_bits : Z.


(** X19: supportsFeature against the feature functions.  Without any
    feature-test signal, supportsFeature of the detected standard agrees
    with hasStructuredBindings, hasIfConstexpr, hasConcepts, hasCoroutines
    and hasRanges on their names; for modules it reports the C++20
    threshold, while hasModules reports false. *)
Theorem supportsFeature_against_functions (e : Env) :
  no_feature_test_signal e ->
  let info := getCppStandardInfo long_bits e in
  supportsFeature info "structured_bindings" = hasStructuredBindings long_bits e
  /\ supportsFeature info "if_constexpr" = hasIfConstexpr long_bits e
  /\ supportsFeature info "concepts" = hasConcepts long_bits e
  /\ supportsFeature info "coroutines" = hasCoroutines long_bits e
  /\ supportsFeature info "ranges" = hasRanges long_bits e
  /\ supportsFeature info "modules" = isCpp20OrLater long_bits e
  /\ hasModules e = false.
Proof.
  unfold no_feature_test_signal, feature_test_signals. intros Hno.
  repeat match goal with
  | H : Forall _ (?m :: _) |- _ =>
      let Hm := fresh "Hm" in
      apply Forall_cons in H; destruct H as [Hm H]; apply defined_false in Hm
  end.
  cbn zeta.
  unfold hasStructuredBindings, hasIfConstexpr, hasConcepts, hasCoroutines, hasRanges,
    hasModules, isCpp20OrLater.
  repeat match goal with
  | H : defined e _ = false |- _ => rewrite H; clear H
  end.
  repeat split.
Qed.

(** X20: supportsFeature reads six characters.  Two names that agree on
    their first six characters get the same answer, a name shorter than six
    characters gets false, and so does every name when the standard is
    cpp_unknown. *)
Theorem supportsFeature_prefix (info : CppStandardInfo) :
  (forall a b, same_prefix6 a b -> supportsFeature info a = supportsFeature info b)
  /\ (forall a, (String.length a < 6)%nat -> supportsFeature info a = false)
  /\ (standard info = cpp_unknown -> forall a, supportsFeature info a = false).
Proof.
  split; [|split].
  - intros a b Hab. unfold supportsFeature, starts_with6.
    rewrite !(Hab 0%nat), !(Hab 1%nat), !(Hab 2%nat), !(Hab 3%nat), !(Hab 4%nat),
      !(Hab 5%nat) by lia.
    reflexivity.
  - intros a Hlen.
    assert (char_at a 5 = Ascii.zero) as H5.
    { unfold char_at.
      destruct a as [|c0 [|c1 [|c2 [|c3 [|c4 [|c5 a]]]]]]; cbn in *;
        try reflexivity; lia. }
    unfold supportsFeature, starts_with6. rewrite H5. cbn.
    rewrite !andb_false_r. reflexivity.
  - intros Hs a. unfold supportsFeature, isAtLeast. rewrite Hs. cbn.
    repeat match goal with
    | |- context [if ?b then _ else _] => destruct b
    end; reflexivity.
Qed.
End StandardOrder.


Lemma supportsFeature_against_functions_witness :
  cpp_standard.supportsFeature
    (cpp_standard.getCppStandardInfo 64 {[ "__cplusplus" := 202002 ]}) "modules" = true
  /\ cpp_standard.hasModules {[ "__cplusplus" := 202002 ]} = false.
Proof.
  assert (no_feature_test_signal {[ "__cplusplus" := 202002 ]}) as Hno.
  { unfold no_feature_test_signal, feature_test_signals.
    repeat (apply Forall_cons; split; [absent|]). apply Forall_nil. constructor. }
  pose proof (supportsFeature_against_functions 64 {[ "__cplusplus" := 202002 ]} Hno) as H.
  cbv zeta in H.
  split.
  - refine (eq_trans (proj1 (proj2 (proj2 (proj2 (proj2 (proj2 H)))))) _). reflexivity.
  - exact (proj2 (proj2 (proj2 (proj2 (proj2 (proj2 H)))))).
Defined.

(** ** features.hpp and traits.hpp: the feature set and the templates *)

Section FeatureSetAccessors.
Variable e : Env.
Variable has_feature : option (string -> bool).

(** X21: the feature set and the templates.  The language accessor of
    getFeatureSet agrees, for every feature, with hasLanguageFeature and
    with the template hasFeature, but its runtime accessor answers false
    for every runtime feature, whatever the processor.  The template
    hasRuntimeFeature agrees with the function of the same name on the nine
    features that have a specialization (the SSE and AVX families and
    neon); for hardware_aes and hardware_random it reads the feature set
    and so answers false, also where the function answers true, as it does
    for hardware_aes on AArch64 with [__ARM_FEATURE_AES]. *)
Theorem feature_set_and_templates (cpu : features.Cpu) :
  (forall f : features.LanguageFeature,
      features.FeatureSet_hasLanguageFeature (features.getFeatureSet e has_feature) f
      = features.hasLanguageFeature e has_feature f
      /\ traits.hasFeature e has_feature f = features.hasLanguageFeature e has_feature f)
  /\ (forall f : features.RuntimeFeature,
         features.FeatureSet_hasRuntimeFeature (features.getFeatureSet e has_feature) f
         = false)
  /\ (forall f : features.RuntimeFeature,
         f <> features.hardware_aes -> f <> features.hardware_random ->
         traits.hasRuntimeFeature e has_feature cpu f = features.hasRuntimeFeature e cpu f)
  /\ traits.hasRuntimeFeature e has_feature cpu features.hardware_aes = false
  /\ traits.hasRuntimeFeature e has_feature cpu features.hardware_random = false
  /\ (signal e "__aarch64__" -> signal e "__ARM_FEATURE_AES" -> ~ x86_family e ->
      features.hasRuntimeFeature e cpu features.hardware_aes = true).
Proof.
  split; [|split; [|split; [|split; [|split]]]].
  - intros f. destruct f; split; reflexivity.
  - intros f. destruct f; reflexivity.
  - intros f Haes Hrand. destruct f; try reflexivity; congruence.
  - reflexivity.
  - reflexivity.
  - intros Ha Hf Hx. cbn [features.hasRuntimeFeature].
    unfold features.hasHardwareAes, features.TRLC_HAS_X86_INTRINSICS,
      features.TRLC_HAS_ARM_INTRINSICS.
    apply defined_true in Ha, Hf. rewrite Ha, Hf.
    unfold x86_family in Hx.
    destruct (defined e "__x86_64__") eqn:H1; [apply defined_true in H1; tauto|].
    destruct (defined e "__i386__") eqn:H2; [apply defined_true in H2; tauto|].
    destruct (defined e "_M_X64") eqn:H3; [apply defined_true in H3; tauto|].
    destruct (defined e "_M_IX86") eqn:H4; [apply defined_true in H4; tauto|].
    cbn. rewrite orb_true_r. reflexivity.
Qed.

(** X22: the defaults of the language feature tests.  hasAtomicOperations
    is true in every environment.  hasRtti is false only when none of its
    three signals is present and [__has_feature] exists and denies
    cxx_rtti; without [__has_feature] it defaults to true.  When
    [__STDCPP_THREADS__] is present, hasThreads is decided by its value
    being 1, whatever [_REENTRANT] and [_MT] say.  [_FORTIFY_SOURCE] counts
    for hasStackProtection only with a positive value. *)
Theorem language_feature_defaults :
  features.hasAtomicOperations e = true
  /\ (features.hasRtti e has_feature = false
      <-> ~ signal e "__cpp_rtti" /\ ~ signal e "__GXX_RTTI" /\ ~ signal e "_CPPRTTI"
          /\ exists feature, has_feature = Some feature /\ feature "cxx_rtti" = false)
  /\ (forall v, e !! "__STDCPP_THREADS__" = Some v ->
                features.hasThreads e = true <-> v = 1)
  /\ (~ signal e "__STACK_CHK_FAIL" -> ~ signal e "__SSP__" -> ~ signal e "__SSP_ALL__" ->
      features.hasStackProtection e = true
      <-> exists v, e !! "_FORTIFY_SOURCE" = Some v /\ 0 < v).
Proof.
  split; [|split; [|split]].
  - unfold features.hasAtomicOperations.
    destruct (defined e "__cpp_lib_atomic_shared_ptr"), (defined e "__ATOMIC_RELAXED"),
      (defined e "_MSC_VER"); reflexivity.
  - unfold features.hasRtti. split_defined e; cbn [orb];
      try (split; [discriminate | tauto]).
    destruct has_feature as [feature|].
    + destruct (feature "cxx_rtti") eqn:Hf; split; try discriminate.
      * intros (_ & _ & _ & g & [= <-] & Hg). congruence.
      * intros _. do 3 (split; [assumption|]). exists feature.
        split; [reflexivity|exact Hf].
      * reflexivity.
    + split; [discriminate|]. intros (_ & _ & _ & g & Hg & _). discriminate.
  - intros v Hv. unfold features.hasThreads.
    destruct (defined_Some e _ v Hv) as [-> ->]. apply Z.eqb_eq.
  - intros H1 H2 H3. apply defined_false in H1, H2, H3.
    unfold features.hasStackProtection. rewrite H1, H2, H3. cbn [orb].
    unfold defined, pp_value. destruct (e !! "_FORTIFY_SOURCE") as [v|]; cbn [andb].
    + destruct (0 <? v) eqn:Hv.
      * apply Z.ltb_lt in Hv. split; [|reflexivity]. intros _. exists v. split; [reflexivity|lia].
      * apply Z.ltb_ge in Hv. split; [discriminate|]. intros (w & [= <-] & Hw). lia.
    + split; [discriminate|]. intros (w & Hw & _). discriminate.
Qed.

(** X23: two answers on inline assembly.  hasInlineAssembly of features.hpp
    and supportsInlineAssembly of compiler.hpp agree whenever [__GNUC__] or
    [__clang__] is present; apart from that, the first can be true with the
    second false only for msvc, and the second true with the first false
    only for intel_classic. *)
Theorem inline_assembly_two_answers :
  (signal e "__GNUC__" \/ signal e "__clang__" ->
   features.hasInlineAssembly e = true /\ compiler.supportsInlineAssembly e = true)
  /\ (features.hasInlineAssembly e = true -> compiler.supportsInlineAssembly e = false ->
      compiler.getCompilerType e = compiler.msvc)
  /\ (compiler.supportsInlineAssembly e = true -> features.hasInlineAssembly e = false ->
      compiler.getCompilerType e = compiler.intel_classic).
Proof.
  unfold features.hasInlineAssembly, compiler.supportsInlineAssembly,
    compiler.getCompilerType.
  split; [|split].
  - intros Hs.
    assert (defined e "__GNUC__" || defined e "__clang__" = true) as Hd.
    { destruct Hs as [Hs|Hs]; apply defined_true in Hs; rewrite Hs;
        [reflexivity | apply orb_true_r]. }
    destruct (defined e "__INTEL_COMPILER"), (defined e "__ICL"), (defined e "__ICC"),
      (defined e "__clang__"), (defined e "__GNUC__"), (defined e "__MINGW32__"),
      (defined e "__MINGW64__"), (defined e "_MSC_VER"); cbn in *;
      try discriminate; split; reflexivity.
  - destruct (defined e "__INTEL_COMPILER"), (defined e "__ICL"), (defined e "__ICC"),
      (defined e "__clang__"), (defined e "__GNUC__"), (defined e "__MINGW32__"),
      (defined e "__MINGW64__"), (defined e "_MSC_VER"), (defined e "_M_IX86"),
      (defined e "_M_X64"); cbn; intros; try reflexivity; discriminate.
  - destruct (defined e "__INTEL_COMPILER"), (defined e "__ICL"), (defined e "__ICC"),
      (defined e "__clang__"), (defined e "__GNUC__"), (defined e "__MINGW32__"),
      (defined e "__MINGW64__"), (defined e "_MSC_VER"), (defined e "_M_IX86"),
      (defined e "_M_X64"); cbn; intros; try reflexivity; discriminate.
Qed.

(** X24: the three folds over a pack of language features.  For a non-empty
    pack countAvailableFeatures is a number n between 0 and the size of the
    pack; hasAllFeatures holds exactly when n is the size of the pack and
    hasAnyFeature exactly when n is positive.  Over the empty pack
    hasAllFeatures is true, hasAnyFeature is false and
    countAvailableFeatures has no value. *)
Theorem feature_folds (Features : list features.LanguageFeature) :
  match traits.countAvailableFeatures e has_feature Features with
  | Some n =>
      Features <> [] /\ 0 <= n <= Z.of_nat (length Features)
      /\ (traits.hasAllFeatures e has_feature Features = true
          <-> n = Z.of_nat (length Features))
      /\ (traits.hasAnyFeature e has_feature Features = true <-> 0 < n)
  | None =>
      Features = [] /\ traits.hasAllFeatures e has_feature Features = true
      /\ traits.hasAnyFeature e has_feature Features = false
  end.
Proof.
  assert (forall l : list features.LanguageFeature,
             let n := fold_right
                        (fun f n => (if traits.hasFeature e has_feature f then 1 else 0) + n)
                        0 l in
             0 <= n <= Z.of_nat (length l)
             /\ (forallb (traits.hasFeature e has_feature) l = true
                 <-> n = Z.of_nat (length l))
             /\ (existsb (traits.hasFeature e has_feature) l = true <-> 0 < n)) as Hfold.
  { induction l as [|f l IH]; cbn zeta in *.
    - cbn. repeat split; try lia; try reflexivity; try discriminate.
    - cbn [fold_right length forallb existsb].
      destruct IH as (Hr & Hall & Hany).
      destruct (traits.hasFeature e has_feature f); cbn [andb orb];
        rewrite ?Nat2Z.inj_succ; repeat split; try lia; try reflexivity;
        try discriminate; intros Hyp;
        first [ apply Hall in Hyp; lia | apply Hall; lia
              | apply Hany in Hyp; lia | apply Hany; lia ]. }
  destruct Features as [|f l].
  - cbn. repeat split.
  - unfold traits.countAvailableFeatures, traits.hasAllFeatures, traits.hasAnyFeature.
    split; [discriminate|]. exact (Hfold (f :: l)).
Qed.
End FeatureSetAccessors.

Lemma feature_set_and_templates_witness :
  let e : Env := {[ "__aarch64__" := 1; "__ARM_FEATURE_AES" := 1 ]} in
  features.hasRuntimeFeature e zero_cpu features.hardware_aes = true
  /\ traits.hasRuntimeFeature e None zero_cpu features.hardware_aes = false.
Proof.
  cbv zeta.
  pose proof (feature_set_and_templates {[ "__aarch64__" := 1; "__ARM_FEATURE_AES" := 1 ]}
                None zero_cpu) as H.
  split.
  - refine (proj2 (proj2 (proj2 (proj2 (proj2 H)))) _ _ _).
    + present.
    + present.
    + unfold x86_family. intros [Hx|[Hx|[Hx|Hx]]]; revert Hx; absent.
  - exact (proj1 (proj2 (proj2 (proj2 H)))).
Defined.

(** ** platform.hpp *)

Section Platform.
Import platform.
Variable e : Env.

(** X25: the predicates of the detected platform.  isWindows and isUnix
    exclude each other; isPosix is false exactly on Windows, so it is true
    for an unknown system, whose kernel family starts with the letters un;
    isUnix implies isPosix, and the detected systems that are Posix without
    being Unix are iOS and the unknown one.  The Linux distributions are
    never detected, the environment is never embedded, and it is unknown
    exactly for an unknown system. *)
Theorem platform_info_predicates :
  let info := getPlatformInfo e in
  isWindows info && isUnix info = false
  /\ isPosix info = negb (isWindows info)
  /\ (isUnix info = true -> isPosix info = true)
  /\ (isPosix info = true /\ isUnix info = false <-> os info = ios \/ os info = unknown)
  /\ os info <> ubuntu /\ os info <> debian /\ os info <> redhat
  /\ environment info <> embedded
  /\ (environment info = env_unknown <-> os info = unknown).
Proof.
  cbn zeta. unfold getPlatformInfo, getEnvironmentType. cbn zeta.
  assert (getOperatingSystem e <> ubuntu /\ getOperatingSystem e <> debian
          /\ getOperatingSystem e <> redhat) as (Hu & Hd & Hr).
  { unfold getOperatingSystem.
    repeat match goal with
    | |- context [if ?b then _ else _] => destruct b
    end; repeat split; discriminate. }
  destruct (getOperatingSystem e); try congruence; cbn;
    (split; [reflexivity|]); (split; [reflexivity|]); (split; [intros; try reflexivity; discriminate|]);
    (split; [split; [intros [? ?]; try discriminate; auto | intros [?|?]; try discriminate; auto]|]);
    do 4 (split; [discriminate|]); split; intros; try reflexivity; discriminate.
Qed.

Lemma getOperatingSystem_cases :
  let no_win32 := ~ (signal e "_WIN32" \/ signal e "_WIN64" \/ signal e "__CYGWIN__") in
  match getOperatingSystem e with
  | android => signal e "__ANDROID__"
  | ios => ~ signal e "__ANDROID__" /\ signal e "__APPLE__"
           /\ signal e "TARGET_OS_IPHONE" /\ pp_value e "TARGET_OS_IPHONE" <> 0
  | macos => ~ signal e "__ANDROID__" /\ signal e "__APPLE__" /\ signal e "__MACH__"
  | windows => signal e "_WIN32" \/ signal e "_WIN64" \/ signal e "__CYGWIN__"
  | freebsd => no_win32 /\ signal e "__FreeBSD__"
  | openbsd => no_win32 /\ signal e "__OpenBSD__"
  | netbsd => no_win32 /\ signal e "__NetBSD__"
  | linux_generic => no_win32 /\ (signal e "__linux__" \/ signal e "__gnu_linux__")
  | unknown =>
      Forall (fun m => ~ signal e m)
        ["__ANDROID__"; "_WIN32"; "_WIN64"; "__CYGWIN__"; "__FreeBSD__"; "__OpenBSD__";
         "__NetBSD__"; "__linux__"; "__gnu_linux__"]
      /\ ~ (signal e "__APPLE__" /\ signal e "__MACH__")
  | _ => False
  end.
Proof.
  cbn zeta. unfold getOperatingSystem.
  repeat first
    [ match goal with
      | |- context [defined e ?m] =>
          let Hd := fresh "Hd" in
          destruct (defined e m) eqn:Hd;
          [ apply defined_true in Hd | apply defined_false in Hd ];
          cbn [orb andb negb]; try tauto
      end
    | match goal with
      | |- context [?a =? ?b] => destruct (Z.eqb_spec a b); cbn [negb]; try tauto
      end ].
  all: (split; [repeat constructor; assumption | tauto]).
Qed.

Lemma getPlatformInfo_os : os (getPlatformInfo e) = getOperatingSystem e.
Proof. unfold getPlatformInfo. destruct (getOperatingSystem e); reflexivity. Qed.

Lemma hasWin32Api_signals :
  hasWin32Api e = true <-> signal e "_WIN32" \/ signal e "_WIN64" \/ signal e "__CYGWIN__".
Proof.
  rewrite <- !defined_true. unfold hasWin32Api.
  destruct (defined e "_WIN32"), (defined e "_WIN64"), (defined e "__CYGWIN__"); cbn;
    split; intros; try reflexivity; try discriminate; try tauto;
    repeat match goal with
    | H : _ \/ _ |- _ => destruct H
    end; discriminate.
Qed.

Lemma hasPosixApi_signals :
  hasPosixApi e = true
  <-> signal e "_POSIX_VERSION" \/ signal e "__unix__" \/ signal e "__unix"
      \/ signal e "unix" \/ signal e "__linux__" \/ signal e "__gnu_linux__"
      \/ (signal e "__APPLE__" /\ signal e "__MACH__")
      \/ signal e "__FreeBSD__" \/ signal e "__OpenBSD__" \/ signal e "__NetBSD__"
      \/ signal e "__ANDROID__".
Proof.
  unfold hasPosixApi.
  repeat match goal with
  | |- context [defined e ?m] =>
      let Hd := fresh "Hd" in
      destruct (defined e m) eqn:Hd;
      [ apply defined_true in Hd | apply defined_false in Hd ];
      cbn [orb andb negb]; try tauto
  end.
  all: split; [discriminate | tauto].
Qed.

(** X26: the detected system against the API tests.  A system detected as
    Windows has the Win32 API and one detected as Unix has the Posix API;
    hasWin32Api holds exactly when one of [_WIN32], [_WIN64], [__CYGWIN__]
    is present, and then the detected system is Windows unless an earlier
    signal makes it Android, iOS or macOS. *)
Theorem platform_api_of_system :
  (isWindows (getPlatformInfo e) = true -> hasWin32Api e = true)
  /\ (isUnix (getPlatformInfo e) = true -> hasPosixApi e = true)
  /\ (hasWin32Api e = true
      <-> signal e "_WIN32" \/ signal e "_WIN64" \/ signal e "__CYGWIN__")
  /\ (hasWin32Api e = true -> getOperatingSystem e = windows
      \/ getOperatingSystem e = android \/ getOperatingSystem e = ios
      \/ getOperatingSystem e = macos).
Proof.
  unfold isWindows, isUnix. rewrite getPlatformInfo_os.
  rewrite hasWin32Api_signals, hasPosixApi_signals.
  pose proof getOperatingSystem_cases as Hos. cbn zeta in Hos.
  destruct (getOperatingSystem e); cbn; try contradiction;
    (split; [intros; try discriminate; tauto|]);
    (split; [intros; try discriminate; tauto|]);
    (split; [tauto|]); try tauto.
  destruct Hos as [Hno _].
  repeat match goal with
  | H : Forall _ (_ :: _) |- _ => apply Forall_cons_1 in H as [? H]
  end. tauto.
Qed.

(** Case analysis on the signals of the goal, one at a time and in the
    order the conditionals read them, closing each case as soon as both
    sides are decided. *)
Ltac walk_signals e close :=
  repeat first
    [ match goal with
      | |- context [defined e ?m] =>
          let Hd := fresh "Hd" in
          destruct (defined e m) eqn:Hd;
          cbn [orb andb negb OperatingSystem_eqb OperatingSystem_to_int Z.eqb Pos.eqb];
          try solve [close]
      end
    | match goal with
      | |- context [pp_value e ?m =? ?b] =>
          destruct (Z.eqb_spec (pp_value e m) b);
          cbn [orb andb negb OperatingSystem_eqb OperatingSystem_to_int Z.eqb Pos.eqb];
          try solve [close]
      end ].

(** X27: the preprocessor macros against the functions.
    TRLC_PLATFORM_WINDOWS, TRLC_PLATFORM_POSIX and TRLC_PLATFORM_MOBILE are 1
    exactly when hasWin32Api, hasPosixApi and a mobile environment are
    reported.  TRLC_PLATFORM_MACOS = 1 implies that the function detects
    macOS unless [__ANDROID__] is present, but the macro is 0 as soon as
    [TARGET_OS_IPHONE] is present, also with the value 0 under which the
    function still detects macOS.  TRLC_PLATFORM_CASE_SENSITIVE_FS is 0 for
    an unknown system, where supportsCaseSensitiveFilesystem is true, and 1
    for iOS with [__MACH__], where the function is false. *)
Theorem platform_macros_against_functions :
  (TRLC_PLATFORM_WINDOWS e = 1 <-> hasWin32Api e = true)
  /\ (TRLC_PLATFORM_POSIX e = 1 <-> hasPosixApi e = true)
  /\ (TRLC_PLATFORM_MOBILE e = 1 <-> getEnvironmentType e = mobile)
  /\ (TRLC_PLATFORM_MACOS e = 1 -> ~ signal e "__ANDROID__" ->
      getOperatingSystem e = macos)
  /\ (signal e "TARGET_OS_IPHONE" -> TRLC_PLATFORM_MACOS e = 0)
  /\ (e !! "TARGET_OS_IPHONE" = Some 0 -> signal e "__APPLE__" -> signal e "__MACH__" ->
      ~ signal e "__ANDROID__" -> getOperatingSystem e = macos)
  /\ (getOperatingSystem e = unknown ->
      TRLC_PLATFORM_CASE_SENSITIVE_FS e = 0 /\ supportsCaseSensitiveFilesystem e = true)
  /\ (getOperatingSystem e = ios -> signal e "__MACH__" ->
      TRLC_PLATFORM_CASE_SENSITIVE_FS e = 1 /\ supportsCaseSensitiveFilesystem e = false).
Proof.
  split; [|split; [|split; [|split; [|split; [|split; [|split]]]]]].
  - unfold TRLC_PLATFORM_WINDOWS, hasWin32Api.
    walk_signals e ltac:(split; intros; (reflexivity || discriminate)).
  - unfold TRLC_PLATFORM_POSIX, hasPosixApi.
    walk_signals e ltac:(split; intros; (reflexivity || discriminate)).
  - unfold TRLC_PLATFORM_MOBILE, getEnvironmentType, getOperatingSystem.
    walk_signals e ltac:(split; intros; (reflexivity || discriminate)).
  - intros Hm Hn. apply defined_false in Hn. revert Hm.
    unfold TRLC_PLATFORM_MACOS, getOperatingSystem. rewrite Hn.
    walk_signals e ltac:(intros; (reflexivity || discriminate)).
  - intros Ht. apply defined_true in Ht. unfold TRLC_PLATFORM_MACOS. rewrite Ht.
    rewrite andb_false_r. reflexivity.
  - intros Hv Ha Hm Hn. apply defined_true in Ha, Hm. apply defined_false in Hn.
    destruct (defined_Some e _ 0 Hv) as [Hd Hp].
    unfold getOperatingSystem. rewrite Hn, Ha, Hm, Hd, Hp. reflexivity.
  - intros Hos. unfold supportsCaseSensitiveFilesystem. rewrite Hos.
    split; [|reflexivity]. pose proof getOperatingSystem_cases as Hc.
    cbn zeta in Hc. rewrite Hos in Hc. destruct Hc as [Hno Hmac].
    repeat match goal with
    | H : Forall _ (_ :: _) |- _ =>
        let Hs := fresh "Hs" in
        apply Forall_cons_1 in H as [Hs H]; apply defined_false in Hs
    end.
    rewrite <- !defined_true in Hmac.
    unfold TRLC_PLATFORM_CASE_SENSITIVE_FS, TRLC_PLATFORM_UNIX, TRLC_PLATFORM_LINUX,
      TRLC_PLATFORM_MACOS, TRLC_PLATFORM_BSD.
    repeat match goal with
    | H : defined e _ = false |- _ => rewrite H; clear H
    end.
    destruct (defined e "__APPLE__"), (defined e "__MACH__"); try tauto; reflexivity.
  - intros Hos Hm. unfold supportsCaseSensitiveFilesystem. rewrite Hos.
    split; [|reflexivity]. pose proof getOperatingSystem_cases as Hc.
    cbn zeta in Hc. rewrite Hos in Hc. destruct Hc as (Hn & Ha & Ht & _).
    apply defined_true in Ha, Ht, Hm. apply defined_false in Hn.
    unfold TRLC_PLATFORM_CASE_SENSITIVE_FS, TRLC_PLATFORM_UNIX, TRLC_PLATFORM_LINUX,
      TRLC_PLATFORM_MACOS, TRLC_PLATFORM_BSD.
    rewrite Ha, Ht, Hm, Hn.
    destruct (defined e "__linux__"), (defined e "__gnu_linux__"), (defined e "__FreeBSD__"),
      (defined e "__OpenBSD__"), (defined e "__NetBSD__"); reflexivity.
Qed.
End Platform.

Lemma platform_macros_against_functions_witness :
  let e : Env := {[ "__APPLE__" := 1; "__MACH__" := 1; "TARGET_OS_IPHONE" := 0 ]} in
  platform.TRLC_PLATFORM_MACOS e = 0 /\ platform.getOperatingSystem e = platform.macos.
Proof.
  cbv zeta.
  pose proof (platform_macros_against_functions
                {[ "__APPLE__" := 1; "__MACH__" := 1; "TARGET_OS_IPHONE" := 0 ]}) as H.
  split.
  - refine (proj1 (proj2 (proj2 (proj2 (proj2 H)))) _). present.
  - refine (proj1 (proj2 (proj2 (proj2 (proj2 (proj2 H))))) _ _ _ _).
    + reflexivity.
    + present.
    + present.
    + absent.
Defined.

(** ** core.hpp: the library version *)

Section LibraryVersion.
Import core.

Lemma lor_shiftl_add (a b k : Z) :
  0 <= k -> 0 <= b < 2 ^ k -> Z.lor (Z.shiftl a k) b = a * 2 ^ k + b.
Proof.
  intros Hk Hb.
  assert (Z.land (Z.shiftl a k) b = 0) as Hdisjoint.
  { apply Z.bits_inj'. intros i Hi. rewrite Z.land_spec, Z.bits_0.
    destruct (Z.ltb_spec i k).
    - rewrite Z.shiftl_spec_low by lia. reflexivity.
    - rewrite (testbit_above k b i) by lia. apply andb_false_r. }
  rewrite <- Z.lxor_lor, <- Z.add_nocarry_lxor by exact Hdisjoint.
  rewrite Z.shiftl_mul_pow2 by lia. reflexivity.
Qed.

Lemma Version_pack_bytes (a b c : Z) :
  is_byte a -> is_byte b -> is_byte c ->
  Version_pack a b c = 65536 * a + 256 * b + c.
Proof.
  unfold is_byte, Version_pack. intros Ha Hb Hc.
  rewrite (to_unsigned_small 32 a), (to_unsigned_small 32 b), (to_unsigned_small 32 c)
    by (change (2 ^ 32) with 4294967296; lia).
  assert (Z.shiftl a 16 = 65536 * a) as Ea by (rewrite Z.shiftl_mul_pow2; lia).
  assert (Z.shiftl b 8 = 256 * b) as Eb by (rewrite Z.shiftl_mul_pow2; lia).
  rewrite (to_unsigned_small 32 (Z.shiftl a 16)), (to_unsigned_small 32 (Z.shiftl b 8))
    by (change (2 ^ 32) with 4294967296; lia).
  rewrite Eb. change 256 with (2 ^ 8) at 1. rewrite Z.mul_comm, <- Z.shiftl_mul_pow2 by lia.
  rewrite (lor_shiftl_add a (Z.shiftl b 8) 16) by (change (2 ^ 16) with 65536; lia).
  assert (a * 2 ^ 16 + Z.shiftl b 8 = Z.shiftl (a * 2 ^ 8 + b) 8) as ->.
  { rewrite !Z.shiftl_mul_pow2 by lia. change (2 ^ 16) with 65536.
    change (2 ^ 8) with 256. lia. }
  rewrite (lor_shiftl_add (a * 2 ^ 8 + b) c 8) by (change (2 ^ 8) with 256; lia).
  change (2 ^ 8) with 256. lia.
Qed.

(** X28: Version::isAtLeast on byte-sized components.  For components
    between 0 and 255 the packed integer is 65536 * major + 256 * minor +
    patch, packing preserves the lexicographic order, and isAtLeast holds
    exactly for the versions up to 1.0.0: those with major 0, and 1.0.0
    itself.  Beyond a byte the packing wraps: isAtLeast(65536) holds. *)
Theorem Version_isAtLeast_bytes (a b c a' b' c' : Z) :
  is_byte a -> is_byte b -> is_byte c -> is_byte a' -> is_byte b' -> is_byte c' ->
  Version_pack a b c = 65536 * a + 256 * b + c
  /\ (Version_pack a b c <= Version_pack a' b' c'
      <-> a < a' \/ (a = a' /\ (b < b' \/ (b = b' /\ c <= c'))))
  /\ (Version_isAtLeast a b c = true <-> a = 0 \/ (a = 1 /\ b = 0 /\ c = 0))
  /\ Version_isAtLeast 65536 0 0 = true.
Proof.
  intros Ha Hb Hc Ha' Hb' Hc'.
  unfold Version_isAtLeast, Version_asInteger, Version_MAJOR, Version_MINOR, Version_PATCH.
  cbn zeta. rewrite Z.leb_le.
  rewrite (Version_pack_bytes a b c), (Version_pack_bytes a' b' c') by assumption.
  change (Version_pack 1 0 0) with 65536.
  unfold is_byte in *. repeat split; try lia; try reflexivity.
Qed.
End LibraryVersion.

Lemma Version_isAtLeast_bytes_witness :
  core.Version_isAtLeast 0 9 3 = true /\ core.Version_isAtLeast 1 0 1 = false.
Proof.
  assert (is_byte 0 /\ is_byte 1 /\ is_byte 3 /\ is_byte 9) as (H0 & H1 & H3 & H9)
    by (unfold is_byte; lia).
  split.
  - refine (proj2 (proj1 (proj2 (proj2 (Version_isAtLeast_bytes 0 9 3 0 0 0 H0 H9 H3 H0 H0 H0)))) _).
    left. reflexivity.
  - destruct (core.Version_isAtLeast 1 0 1) eqn:E; [|reflexivity].
    apply (proj1 (proj2 (proj2 (Version_isAtLeast_bytes 1 0 1 0 0 0 H1 H0 H1 H0 H0 H0)))) in E.
    lia.
Defined.

(** ** core.hpp: mutual exclusion and progress of the initialization *)

Section InitializationSection.
Import core.

Lemma holds_insert (thr : list Pc) (i j : nat) (pc' : Pc) :
  (i < length thr)%nat ->
  holds (<[i := pc']> thr) j
  <-> (j = i /\ in_section pc' = true) \/ (j <> i /\ holds thr j).
Proof.
  intros Hi. unfold holds. split.
  - intros (pc & Hj & Hsec). destruct (decide (i = j)) as [<- | Hne].
    + rewrite list_lookup_insert_eq in Hj by exact Hi. inversion Hj; subst. left. tauto.
    + rewrite list_lookup_insert_ne in Hj by exact Hne. right. split; [congruence|eauto].
  - intros [[-> Hsec] | [Hne (pc & Hj & Hsec)]].
    + exists pc'. rewrite list_lookup_insert_eq by exact Hi. tauto.
    + exists pc. rewrite list_lookup_insert_ne by congruence. tauto.
Qed.

Lemma holds_here (thr : list Pc) (i : nat) (pc : Pc) :
  thr !! i = Some pc -> holds thr i <-> in_section pc = true.
Proof.
  intros Hi. unfold holds. split.
  - intros (pc' & Hi' & Hsec). congruence.
  - intros Hsec. eauto.
Qed.

Lemma mutex_initial (n : nat) : mutex (initial_config n).
Proof.
  assert (forall i, ~ holds (threads (initial_config n)) i) as Hno.
  { intros i (pc & Hi & Hsec). cbn [initial_config threads] in Hi.
    apply lookup_replicate in Hi as [-> _]. discriminate. }
  split.
  - intros i j Hi. destruct (Hno i Hi).
  - cbn. split; [discriminate|]. intros [i Hi]. destruct (Hno i Hi).
Qed.

Lemma mutex_update (c : Config) (i : nat) (pc pc' : Pc) (fl' : Flags) :
  threads c !! i = Some pc -> mutex c ->
  (in_section pc' = in_section pc
   /\ g_initialization_in_progress fl' = g_initialization_in_progress (flags c))
  \/ (in_section pc = false /\ in_section pc' = true
      /\ g_initialization_in_progress (flags c) = false
      /\ g_initialization_in_progress fl' = true)
  \/ (in_section pc = true /\ in_section pc' = false
      /\ g_initialization_in_progress fl' = false) ->
  mutex {| flags := fl'; threads := <[i := pc']> (threads c) |}.
Proof.
  intros Hi [Hone Hflag] Hcase.
  pose proof (lookup_lt_Some _ _ _ Hi) as Hlen.
  pose proof (holds_here _ _ _ Hi) as Hhere.
  unfold mutex; cbn [threads flags].
  setoid_rewrite (holds_insert (threads c) i _ pc' Hlen).
  destruct Hcase as [[Hsec Hfl] | [(Hout & Hin & Hfree & Htaken) | (Hin & Hout & Hfree)]].
  - rewrite Hfl, Hflag, Hsec. split.
    + intros a b [[-> Hpc']|[Hna Ha]] [[-> Hpc'']|[Hnb Hb]]; try reflexivity.
      * destruct Hnb. apply (Hone b i Hb). apply Hhere. exact Hpc'.
      * destruct Hna. apply (Hone a i Ha). apply Hhere. exact Hpc''.
      * exact (Hone a b Ha Hb).
    + split.
      * intros [a Ha]. exists a. destruct (decide (a = i)) as [-> | Hne].
        -- left. split; [reflexivity | apply Hhere; exact Ha].
        -- right. tauto.
      * intros [a [[-> Ha]|[_ Ha]]]; [exists i; apply Hhere; exact Ha | eauto].
  - assert (forall a, ~ holds (threads c) a) as Hno.
    { intros a Ha. assert (false = true) as Hf by (rewrite <- Hfree; apply Hflag; eauto).
      discriminate Hf. }
    rewrite Htaken. split.
    + intros a b [[-> _]|[_ Ha]] [[-> _]|[_ Hb]]; try reflexivity;
        exfalso; eapply Hno; eassumption.
    + split; [intros _; exists i; left; tauto | reflexivity].
  - assert (holds (threads c) i) as Hme by (apply Hhere; exact Hin).
    rewrite Hfree, Hout. split.
    + intros a b [[_ Hf]|[Hna Ha]]; [discriminate Hf|].
      destruct Hna. exact (Hone a i Ha Hme).
    + split; [discriminate|]. intros [a [[_ Hf]|[Hna Ha]]]; [discriminate Hf|].
      destruct Hna. exact (Hone a i Ha Hme).
Qed.

Lemma mutex_sched (c c' : Config) : sched c c' -> mutex c -> mutex c'.
Proof.
  intros Hs Hm.
  destruct Hs as [c0 i pc pc' fl' Hi Hpc Hstep | c0 i Hi].
  - apply (mutex_update c0 i pc pc' fl' Hi Hm).
    destruct pc; cbn [step] in Hstep; unfold compare_exchange_in_progress in Hstep.
    + left. destruct (g_platform_initialized (flags c0)); inversion Hstep; subst; tauto.
    + destruct (g_initialization_in_progress (flags c0)) eqn:Hp; cbn in Hstep;
        inversion Hstep; subst; cbn; tauto.
    + left. destruct (g_platform_initialized (flags c0)); inversion Hstep; subst; tauto.
    + left. inversion Hstep; subst. cbn. tauto.
    + right. right. inversion Hstep; subst. cbn. tauto.
    + destruct Hpc. reflexivity.
  - apply (mutex_update c0 i returned check_initialized (flags c0) Hi Hm). left. tauto.
Qed.

Lemma spin_guard_sched (c c' : Config) :
  sched c c' -> settled c -> spin_guard c -> spin_guard c'.
Proof.
  intros Hs Hset Hg [j Hj].
  destruct Hs as [c0 i pc pc' fl' Hi Hpc Hstep | c0 i Hi]; cbn [threads flags] in *.
  - pose proof (lookup_lt_Some _ _ _ Hi) as Hlen.
    assert (pc' = spin_wait \/ some_thread_at c0 spin_wait) as Hwho.
    { destruct (decide (i = j)) as [<- | Hne].
      - rewrite list_lookup_insert_eq in Hj by exact Hlen. left. congruence.
      - rewrite list_lookup_insert_ne in Hj by exact Hne. right. exists j. exact Hj. }
    destruct pc; cbn [step] in Hstep; unfold compare_exchange_in_progress in Hstep.
    + destruct (g_platform_initialized (flags c0)); inversion Hstep; subst;
        (destruct Hwho as [Hw | Hw]; [discriminate Hw | exact (Hg Hw)]).
    + destruct (g_initialization_in_progress (flags c0)) eqn:Hp; cbn in Hstep;
        inversion Hstep; subst; cbn; tauto.
    + destruct (g_platform_initialized (flags c0)) eqn:Hd; inversion Hstep; subst.
      * tauto.
      * apply Hg. exists i. exact Hi.
    + inversion Hstep; subst. cbn. tauto.
    + inversion Hstep; subst. cbn. left. exact (Hset i clear_in_progress Hi).
    + destruct Hpc. reflexivity.
  - apply Hg. destruct (decide (i = j)) as [<- | Hne].
    + rewrite list_lookup_insert_eq in Hj by (eapply lookup_lt_Some; exact Hi).
      discriminate Hj.
    + rewrite list_lookup_insert_ne in Hj by exact Hne. exists j. exact Hj.
Qed.

Lemma reachable_invariant_initial (n : nat) : reachable_invariant (initial_config n).
Proof.
  split; [apply mutex_initial | split; [apply settled_initial|]].
  intros [j Hj]. cbn [initial_config threads] in Hj.
  apply lookup_replicate in Hj as [Hj _]. discriminate Hj.
Qed.

Lemma reachable_invariant_sched (c c' : Config) :
  sched c c' -> reachable_invariant c -> reachable_invariant c'.
Proof.
  intros Hs (Hm & Hset & Hg).
  split; [exact (mutex_sched c c' Hs Hm) | split].
  - exact (settled_sched c c' Hs Hset).
  - exact (spin_guard_sched c c' Hs Hset Hg).
Qed.

Lemma run_reachable_invariant (c : Config) (tr : list Config) :
  is_run c tr -> reachable_invariant c -> reachable_invariant (final c tr).
Proof.
  revert c. induction tr as [|c1 tr IH]; intros c Hrun Hc; [exact Hc|].
  destruct Hrun as [Hs Hrun]. cbn [final].
  exact (IH c1 Hrun (reachable_invariant_sched c c1 Hs Hc)).
Qed.

Lemma run_app_inv (c : Config) (tr1 tr2 : list Config) :
  is_run c tr1 -> is_run (final c tr1) tr2 -> is_run c (tr1 ++ tr2)%list.
Proof.
  revert c. induction tr1 as [|c1 tr1 IH]; intros c H1 H2; cbn in *; [exact H2|].
  destruct H1 as [Hs H1]. split; [exact Hs | exact (IH c1 H1 H2)].
Qed.

Lemma sched_exec (c : Config) (i : nat) (pc : Pc) :
  threads c !! i = Some pc -> pc <> returned -> sched c (exec c i).
Proof.
  intros Hi Hpc. unfold exec. rewrite Hi.
  destruct (step (flags c) pc) as [fl' pc'] eqn:Hstep.
  exact (sched_step c i pc pc' fl' Hi Hpc Hstep).
Qed.

Lemma is_run_solo (fuel : nat) (c : Config) (i : nat) : is_run c (solo fuel c i).
Proof.
  revert c. induction fuel as [|fuel IH]; intros c; cbn [solo]; [exact I|].
  destruct (threads c !! i) as [pc|] eqn:Hi; [|exact I].
  destruct pc; try exact I;
    (split; [eapply sched_exec; [exact Hi | discriminate] | apply IH]).
Qed.

(** A thread scheduled alone goes through its call as [run_call] does. *)
Lemma solo_run_call (fuel : nat) (c : Config) (i : nat) (pc : Pc) (fl' : Flags) :
  threads c !! i = Some pc -> run_call fuel (flags c) pc = Some fl' ->
  final c (solo fuel c i) = {| flags := fl'; threads := <[i := returned]> (threads c) |}.
Proof.
  assert (forall (f : nat) (c0 : Config) (fl0 : Flags),
             threads c0 !! i = Some returned -> run_call f (flags c0) returned = Some fl0 ->
             final c0 (solo f c0 i)
             = {| flags := fl0; threads := <[i := returned]> (threads c0) |}) as Hret.
  { intros f c0 fl0 Hi Hrun.
    assert (solo f c0 i = []) as -> by (destruct f; cbn [solo]; rewrite ?Hi; reflexivity).
    assert (fl0 = flags c0) as -> by (destruct f; cbn in Hrun; congruence).
    rewrite (list_insert_id _ _ _ Hi). destruct c0; reflexivity. }
  revert c pc. induction fuel as [|fuel IH]; intros c pc Hi Hrun.
  - destruct pc; try discriminate Hrun. exact (Hret 0%nat c fl' Hi Hrun).
  - assert (pc = returned \/ pc <> returned) as [-> | Hpc]
      by (destruct pc; (left; reflexivity) || (right; discriminate)).
    { exact (Hret _ c fl' Hi Hrun). }
    pose proof (lookup_lt_Some _ _ _ Hi) as Hlen.
    assert (solo (S fuel) c i = exec c i :: solo fuel (exec c i) i) as ->.
    { cbn [solo]. rewrite Hi. destruct pc; try reflexivity. destruct Hpc. reflexivity. }
    assert (run_call (S fuel) (flags c) pc
            = let '(fl1, pc1) := step (flags c) pc in run_call fuel fl1 pc1) as Hunfold.
    { destruct pc; try reflexivity. destruct Hpc. reflexivity. }
    rewrite Hunfold in Hrun. cbn [final]. unfold exec. rewrite Hi.
    destruct (step (flags c) pc) as [fl1 pc1].
    rewrite (IH {| flags := fl1; threads := <[i := pc1]> (threads c) |} pc1).
    + cbn [threads]. rewrite list_insert_insert_eq. reflexivity.
    + cbn [threads]. apply list_lookup_insert_eq. exact Hlen.
    + exact Hrun.
Qed.

Lemma finish_one (c : Config) (i : nat) :
  reachable_invariant c -> g_initialization_in_progress (flags c) = false ->
  (i < length (threads c))%nat ->
  threads (final c (solo 4 c i)) = <[i := returned]> (threads c)
  /\ g_initialization_in_progress (flags (final c (solo 4 c i))) = false.
Proof.
  intros ((Hone & Hflag) & Hset & Hg) Hfree Hlen.
  destruct (lookup_lt_is_Some_2 _ _ Hlen) as [pc Hi].
  assert (exists fl', run_call 4 (flags c) pc = Some fl'
                      /\ g_initialization_in_progress fl' = false) as (fl' & Hrun & Hfl').
  { destruct (flags c) as [done busy] eqn:Hfl. cbn in Hfree. subst busy.
    destruct pc.
    - destruct done; eexists; split; reflexivity.
    - eexists; split; reflexivity.
    - assert (done = true) as ->.
      { destruct (Hg (ex_intro _ i Hi)) as [Hd | Hb];
          rewrite Hfl in *; [exact Hd | discriminate Hb]. }
      eexists; split; reflexivity.
    - assert (false = true) as Hf; [|discriminate Hf].
      apply Hflag. exists i, mark_initialized. split; [exact Hi | reflexivity].
    - assert (false = true) as Hf; [|discriminate Hf].
      apply Hflag. exists i, clear_in_progress. split; [exact Hi | reflexivity].
    - eexists; split; reflexivity. }
  rewrite (solo_run_call 4 c i pc fl' Hi Hrun). split; [reflexivity | exact Hfl'].
Qed.

(** The thread in the section, if any, runs to the end of its call. *)
Lemma leave_section (c : Config) :
  reachable_invariant c ->
  exists tr : list Config,
    is_run c tr /\ length (threads (final c tr)) = length (threads c)
    /\ g_initialization_in_progress (flags (final c tr)) = false.
Proof.
  intros ((Hone & Hflag) & Hset & Hg).
  destruct (g_initialization_in_progress (flags c)) eqn:Hbusy.
  - destruct (proj1 Hflag eq_refl) as (i & pc & Hi & Hsec).
    exists (solo 2 c i). split; [apply is_run_solo|].
    assert (exists fl', run_call 2 (flags c) pc = Some fl'
                        /\ g_initialization_in_progress fl' = false) as (fl' & Hrun & Hfl').
    { destruct pc; try discriminate Hsec; eexists; split; reflexivity. }
    rewrite (solo_run_call 2 c i pc fl' Hi Hrun). cbn [threads flags].
    rewrite length_insert. split; [reflexivity | exact Hfl'].
  - exists []. cbn [final]. split; [exact I|]. split; [reflexivity | exact Hbusy].
Qed.

Lemma finish_below (k : nat) (c : Config) :
  reachable_invariant c -> g_initialization_in_progress (flags c) = false ->
  (k <= length (threads c))%nat ->
  exists tr : list Config,
    is_run c tr
    /\ g_initialization_in_progress (flags (final c tr)) = false
    /\ length (threads (final c tr)) = length (threads c)
    /\ forall (i : nat) (pc : Pc),
         (i < k)%nat -> threads (final c tr) !! i = Some pc -> pc = returned.
Proof.
  intros Hinv Hfree. induction k as [|k IH]; intros Hk.
  - exists []. cbn [final]. repeat split; try assumption. intros i pc Hi. lia.
  - destruct IH as (tr & Hrun & Hfree1 & Hlen1 & Hdone); [lia|].
    pose proof (run_reachable_invariant c tr Hrun Hinv) as Hinv1.
    assert (k < length (threads (final c tr)))%nat as Hk1 by lia.
    destruct (finish_one (final c tr) k Hinv1 Hfree1 Hk1) as [Hthr Hfree2].
    exists (tr ++ solo 4 (final c tr) k)%list. rewrite final_app.
    split; [apply run_app_inv; [exact Hrun | apply is_run_solo]|].
    split; [exact Hfree2|]. rewrite Hthr, length_insert.
    split; [exact Hlen1|]. intros i pc Hi Hlook.
    destruct (decide (k = i)) as [<- | Hne].
    + rewrite list_lookup_insert_eq in Hlook by exact Hk1. congruence.
    + rewrite list_lookup_insert_ne in Hlook by exact Hne.
      apply (Hdone i pc); [lia | exact Hlook].
Qed.

Lemma run_length (c : Config) (tr : list Config) :
  is_run c tr -> length (threads (final c tr)) = length (threads c).
Proof.
  revert c. induction tr as [|c1 tr IH]; intros c Hrun; [reflexivity|].
  destruct Hrun as [Hs Hrun]. cbn [final]. rewrite (IH c1 Hrun).
  destruct Hs; cbn [threads]; apply length_insert.
Qed.

(** X29: mutual exclusion in initializePlatform.  In every configuration
    that any number of concurrent callers can reach, at most one call is
    between its successful compare-exchange and the store that clears the
    in-progress flag, the in-progress flag is set exactly when some call is
    there, and a call waits in the loop only while the flag is set or after
    the done flag is set.  The section is not entered only once: a call
    standing before its compare-exchange while the in-progress flag is
    clear enters it with its next operation, whatever the done flag says. *)
Theorem initialization_mutual_exclusion (n : nat) (tr : list Config) :
  is_run (initial_config n) tr ->
  let c := final (initial_config n) tr in
  (forall i j : nat, holds (threads c) i -> holds (threads c) j -> i = j)
  /\ (g_initialization_in_progress (flags c) = true <-> exists i : nat, holds (threads c) i)
  /\ (some_thread_at c spin_wait ->
      isPlatformInitialized (flags c) = true
      \/ g_initialization_in_progress (flags c) = true)
  /\ (forall i : nat,
         threads c !! i = Some acquire -> g_initialization_in_progress (flags c) = false ->
         sched c (exec c i) /\ threads (exec c i) !! i = Some mark_initialized).
Proof.
  intros Hrun.
  destruct (run_reachable_invariant _ tr Hrun (reachable_invariant_initial n))
    as ((Hone & Hflag) & _ & Hg).
  cbn zeta. split; [exact Hone | split; [exact Hflag | split; [exact Hg|]]].
  intros i Hi Hfree. split; [eapply sched_exec; [exact Hi | discriminate]|].
  unfold exec. rewrite Hi. cbn [step]. unfold compare_exchange_in_progress.
  rewrite Hfree. cbn [threads Bool.eqb negb].
  apply list_lookup_insert_eq. eapply lookup_lt_Some. exact Hi.
Qed.

(** X30: initializePlatform cannot get stuck.  From every configuration
    that concurrent callers can reach there is a schedule after which every
    call has returned with the in-progress flag clear and, if there is a
    caller at all, with isPlatformInitialized true: no caller waits in the
    loop for ever under a schedule that lets the others run. *)
Theorem initialization_progress (n : nat) (tr : list Config) :
  is_run (initial_config n) tr ->
  let c := final (initial_config n) tr in
  exists tr' : list Config,
    is_run c tr'
    /\ all_returned (final c tr')
    /\ g_initialization_in_progress (flags (final c tr')) = false
    /\ (n <> 0%nat -> isPlatformInitialized (flags (final c tr')) = true).
Proof.
  intros Hrun. cbn zeta. set (c := final (initial_config n) tr).
  pose proof (run_reachable_invariant _ tr Hrun (reachable_invariant_initial n)) as Hinv.
  fold c in Hinv.
  assert (length (threads c) = n) as Hn.
  { unfold c. rewrite (run_length _ tr Hrun). cbn [initial_config threads].
    apply length_replicate. }
  destruct (leave_section c Hinv) as (tr1 & Hrun1 & Hlen1 & Hfree1).
  pose proof (run_reachable_invariant c tr1 Hrun1 Hinv) as Hinv1.
  destruct (finish_below (length (threads (final c tr1))) (final c tr1) Hinv1 Hfree1)
    as (tr2 & Hrun2 & Hfree2 & Hlen2 & Hdone); [lia|].
  exists (tr1 ++ tr2)%list. rewrite final_app.
  assert (all_returned (final (final c tr1) tr2)) as Hall.
  { intros i pc Hi. apply (Hdone i pc); [|exact Hi].
    rewrite <- Hlen2. eapply lookup_lt_Some. exact Hi. }
  split; [exact (run_app_inv c tr1 tr2 Hrun1 Hrun2)|].
  split; [exact Hall|]. split; [exact Hfree2|].
  intros Hpos. unfold isPlatformInitialized.
  destruct (run_reachable_invariant _ tr2 Hrun2 Hinv1) as (_ & Hset & _).
  destruct (lookup_lt_is_Some_2 (threads (final (final c tr1) tr2)) 0%nat) as [pc Hpc];
    [lia|].
  pose proof (Hall 0%nat pc Hpc) as ->.
  exact (Hset 0%nat returned Hpc).
Qed.

End InitializationSection.

(** Two callers: the second has read the done flag before the first
    finished, and enters the section after it. *)
Lemma initialization_mutual_exclusion_witness :
  let c := final (core.initial_config 2)
             (solo 1 (core.initial_config 2) 1
              ++ solo 4 (exec (core.initial_config 2) 1) 0)%list in
  core.flags c = core.mkFlags true false
  /\ core.threads (exec c 1) !! 1%nat = Some core.mark_initialized.
Proof.
  cbv zeta. split; [reflexivity|].
  refine (proj2 (proj2 (proj2 (proj2 (initialization_mutual_exclusion 2
            (solo 1 (core.initial_config 2) 1
             ++ solo 4 (exec (core.initial_config 2) 1) 0)%list _))) 1%nat _ _)).
  - apply run_app_inv; apply is_run_solo.
  - reflexivity.
  - reflexivity.
Defined.

Lemma initialization_progress_witness :
  exists tr' : list core.Config,
    core.is_run (core.mkConfig (core.mkFlags false true) [core.mark_initialized; core.spin_wait]) tr'
    /\ all_returned
         (final (core.mkConfig (core.mkFlags false true) [core.mark_initialized; core.spin_wait]) tr').
Proof.
  destruct (initialization_progress 2
              (solo 2 (core.initial_config 2) 0
               ++ solo 2 (exec (exec (core.initial_config 2) 0) 0) 1)%list)
    as (tr' & Hrun & Hall & _).
  - apply run_app_inv; apply is_run_solo.
  - exists tr'. split; [exact Hrun | exact Hall].
Defined.
